(** * The token codec of adonix: [POST /token/encode] and [POST /token/decode]

    A shallow embedding of [src/services/token/token-router.ts].

    The two route handlers are written in a small monad that threads the
    sequence of library calls made so far and the entropy consumed by
    [crypto.randomBytes], and in which a JavaScript exception is an
    outcome of its own.  The pieces of the platform the handlers call are
    modelled as follows:

    - strings are lists of UTF-16 code units, buffers are lists of octets;
    - base64, hex and UTF-8 conversions, [String.prototype.split],
      [JSON.stringify], [btoa] and [atob] are executable definitions;
    - CBC chaining and PKCS#7 padding of ['aes-256-cbc'] are executable
      and follow the streaming [update]/[final] interface of the cipher
      objects; the AES block permutation, HMAC-SHA256, [JSON.parse] and the
      two secrets of [Config] are fields of a [Platform] record. *)

From Stdlib Require Import NArith ZArith Bool String Ascii Lia List.
From Stdlib Require Import DecimalString Btauto.
Import ListNotations.

Local Open Scope N_scope.

Set Warnings "-register-all".
Set Warnings "-notation-overridden".
Set Warnings "-notation-incompatible-prefix".

(** ** Octets and code units *)

Definition bytes := list N.
Definition jsstring := list N.

Definition octet (b : N) : Prop := b < 256.
Definition octets (bs : bytes) : Prop := Forall octet bs.

(** A string literal of the source, as code units. *)
Definition str (s : string) : jsstring :=
  map N_of_ascii (list_ascii_of_string s).

Definition jsstring_eqb (a b : jsstring) : bool :=
  if list_eq_dec N.eq_dec a b then true else false.

(** ** Numbers

    A number is a double.  A finite number other than zero is
    [(-1)^s * m * 2^e] with [m] odd, which names every such double once:
    [m < 2^53], [-1074 <= e] and [m * 2^e < 2^1024]. *)

Module Number.

Inductive number : Type :=
| Zero (negative : bool)
| Finite (negative : bool) (m : positive) (e : Z)
| Infinity (negative : bool)
| NaN.

Definition eqb (x y : number) : bool :=
  match x, y with
  | Zero s, Zero s' => Bool.eqb s s'
  | Finite s m e, Finite s' m' e' =>
      Bool.eqb s s' && (m =? m')%positive && (e =? e')%Z
  | Infinity s, Infinity s' => Bool.eqb s s'
  | NaN, NaN => true
  | _, _ => false
  end.

(** [b^n] by squaring; [1] for a negative [n]. *)
Fixpoint power_pos (b : Z) (n : positive) : Z :=
  match n with
  | xH => b
  | xO n' => let h := power_pos b n' in (h * h)%Z
  | xI n' => let h := power_pos b n' in (b * (h * h))%Z
  end.

Definition power (b n : Z) : Z :=
  match n with
  | Zpos n => power_pos b n
  | _ => 1%Z
  end.

(** [m * 2^e] for any [m], with the zero bits at the end of [m] moved
    into the exponent. *)
Fixpoint odd_part (m : positive) (e : Z) : positive * Z :=
  match m with
  | xO m' => odd_part m' (e + 1)%Z
  | _ => (m, e)
  end.

(** The double [(-1)^s * n * 2^u], where [n < 2^53] or [n = 2^53]. *)
Definition make (negative : bool) (n u : Z) : number :=
  match n with
  | Zpos m =>
      if (1024 <=? Z.log2 n + u)%Z then Infinity negative
      else let (m, e) := odd_part m u in Finite negative m e
  | _ => Zero negative
  end.

(** The double nearest to [p / q], ties to the even one; [p] and [q] are
    positive.  [b] is the binade of the quotient, [2^b <= p / q < 2^(b+1)],
    and [u] the exponent of the unit in the last place of its doubles. *)
Definition round (negative : bool) (p q : Z) : number :=
  let d := (Z.log2 p - Z.log2 q)%Z in
  let b := (if p * power 2 (- d) <? q * power 2 d then d - 1 else d)%Z in
  let u := Z.max (b - 52) (-1074) in
  let num := (p * power 2 (- u))%Z in
  let den := (q * power 2 u)%Z in
  let n := (num / den)%Z in
  let r := (num mod den)%Z in
  let up := ((den <? 2 * r) || ((den =? 2 * r) && Z.odd n))%Z in
  make negative (if up then n + 1 else n)%Z u.

(** The double nearest to [s * 10^x].  A number below [10^-324] is
    nearest to zero and one of [10^309] or more to infinity, which keeps
    the powers of ten small. *)
Definition of_decimal (negative : bool) (s x : Z) : number :=
  if (s <=? 0)%Z then Zero negative
  else if (308 <? x)%Z then Infinity negative
  else if (x + Z.log2 s / 3 + 1 <? -324)%Z then Zero negative
  else round negative (s * power 10 x) (power 10 (- x)).

Definition of_integer (z : Z) : number :=
  of_decimal (z <? 0)%Z (Z.abs z) 0.

(** The integer part of a number, and [0] for a number that is not
    finite. *)
Definition to_integer (x : number) : Z :=
  match x with
  | Finite negative m e =>
      let z := (Zpos m * power 2 e / power 2 (- e))%Z in
      if negative then (- z)%Z else z
  | _ => 0%Z
  end.

(** The least [n] from [n] on with [p / q < 10^n]. *)
Fixpoint magnitude_from (fuel : nat) (p q n : Z) : Z :=
  match fuel with
  | O => n
  | S fuel' =>
      if (p * power 10 (- n) <? q * power 10 n)%Z then n
      else magnitude_from fuel' p q (n + 1)%Z
  end.

(** The [n] with [10^(n-1) <= p / q < 10^n].  As
    [2^(d-1) < p / q < 2^(d+1)] for the [d] below and
    [0.3 < log10 2 < 0.302], the search starts under [n] and has not
    far to go. *)
Definition magnitude (p q : Z) : Z :=
  let d := (Z.log2 p - Z.log2 q)%Z in
  magnitude_from 16 p q ((d - 1) * 3 / 10 - 3)%Z.

(** The decimal of [k] digits nearest to [p / q], where
    [10^(n-1) <= p / q < 10^n]: its [s] and its [n]; [above] is the
    one on the other side of [p / q]. *)
Definition carried (s n k : Z) : Z * Z :=
  if (s =? power 10 k)%Z then (power 10 (k - 1), n + 1)%Z else (s, n).

Definition neighbours (p q n k : Z) : (Z * Z) * (Z * Z) :=
  let t := (n - k)%Z in
  let num := (p * power 10 (- t))%Z in
  let den := (q * power 10 t)%Z in
  let lo := (num / den)%Z in
  let r := (num mod den)%Z in
  if ((den <? 2 * r) || ((den =? 2 * r) && Z.odd lo))%Z
  then (carried (lo + 1) n k, carried lo n k)
  else (carried lo n k, carried (lo + 1) n k).

(** [x] is the double nearest to [s * 10^(n-k)]. *)
Definition fits (x : number) (k : Z) (d : Z * Z) : bool :=
  let (s, n) := d in eqb (of_decimal false s (n - k)) x.

(** The digits of [Number::toString] for the double [x = p / q]: the
    least [k] from [k] on, and the [s] of [k] digits and the [n], such
    that [x] is the double nearest to [s * 10^(n-k)]; of two such [s]
    the one nearer to [x].  Seventeen digits tell any two doubles
    apart. *)
Fixpoint shortest (fuel : nat) (x : number) (p q n : Z) (k : Z)
  : Z * Z * Z :=
  let (near, far) := neighbours p q n k in
  match fuel with
  | O => (near, k)
  | S fuel' =>
      if fits x k near then (near, k)
      else if fits x k far then (far, k)
      else shortest fuel' x p q n (k + 1)%Z
  end.

(** The digits of a positive number. *)
Definition decimal (z : Z) : jsstring :=
  str (NilZero.string_of_uint (N.to_uint (Z.to_N z))).

Definition zeros (n : Z) : jsstring := repeat 48 (Z.to_nat n).

(** Number::toString of [s * 10^(n-k)], where [s] has [k] digits. *)
Definition render (s n k : Z) : jsstring :=
  let digits := decimal s in
  if ((k <=? n) && (n <=? 21))%Z then digits ++ zeros (n - k)
  else if ((0 <? n) && (n <=? 21))%Z then
    firstn (Z.to_nat n) digits ++ 46 :: skipn (Z.to_nat n) digits
  else if ((-6 <? n) && (n <=? 0))%Z then
    48 :: 46 :: zeros (- n) ++ digits
  else
    let exponent :=
      101 :: (if (n - 1 <? 0)%Z then 45 else 43) :: decimal (Z.abs (n - 1)) in
    match digits with
    | [d] => d :: exponent
    | d :: rest => d :: 46 :: rest ++ exponent
    | [] => exponent
    end.

(** The digits of a finite number that is not zero. *)
Definition digits (m : positive) (e : Z) : Z * Z * Z :=
  let p := (Zpos m * power 2 e)%Z in
  let q := (power 2 (- e))%Z in
  shortest 16 (Finite false m e) p q (magnitude p q) 1.

(** Number::toString *)
Definition to_string (x : number) : jsstring :=
  match x with
  | NaN => str "NaN"
  | Zero _ => str "0"
  | Infinity negative =>
      (if negative then str "-" else []) ++ str "Infinity"
  | Finite negative m e =>
      (if negative then str "-" else [])
      ++ let '(s, n, k) := digits m e in render s n k
  end.

End Number.

(** ** Base64 *)

Module Base64.

(** The character of a 6-bit value in the standard alphabet. *)
Definition digit (v : N) : N :=
  let v := v mod 64 in
  if v <? 26 then 65 + v
  else if v <? 52 then 97 + (v - 26)
  else if v <? 62 then 48 + (v - 52)
  else if v =? 62 then 43
  else 47.

(** The table of Node's decoder: the 6-bit value of an octet; the
    URL-safe ['-'] and ['_'] are in it as well. *)
Definition unbase64 (c : N) : option N :=
  if (65 <=? c) && (c <=? 90) then Some (c - 65)
  else if (97 <=? c) && (c <=? 122) then Some (c - 97 + 26)
  else if (48 <=? c) && (c <=? 57) then Some (c - 48 + 52)
  else if (c =? 43) || (c =? 45) then Some 62
  else if (c =? 47) || (c =? 95) then Some 63
  else None.

(** [buf.toString('base64')]: three octets give four characters, the
    last group is padded with ['=']. *)
Fixpoint encode (bs : bytes) : jsstring :=
  match bs with
  | [] => []
  | [a] => [digit (a / 4); digit ((a mod 4) * 16); 61; 61]
  | [a; b] =>
      [digit (a / 4); digit ((a mod 4) * 16 + b / 16);
       digit ((b mod 16) * 4); 61]
  | a :: b :: c :: rest =>
      digit (a / 4) :: digit ((a mod 4) * 16 + b / 16)
      :: digit ((b mod 16) * 4 + c / 64) :: digit (c mod 64)
      :: encode rest
  end.

(** The legal characters of a string up to its first ['=']: Node's
    decoder reads the low octet of every code unit
    ([static_cast<uint8_t>]), skips what is not in its table and stops at
    the padding. *)
Fixpoint sextets (s : jsstring) : list N :=
  match s with
  | [] => []
  | c :: r =>
      let c := c mod 256 in
      if c =? 61 then []
      else match unbase64 c with
           | Some v => v :: sextets r
           | None => sextets r
           end
  end.

Fixpoint pack (l : list N) : bytes :=
  match l with
  | s0 :: s1 :: s2 :: s3 :: r =>
      (s0 * 4 + s1 / 16) :: ((s1 mod 16) * 16 + s2 / 4)
      :: ((s2 mod 4) * 64 + s3) :: pack r
  | [s0; s1; s2] => [s0 * 4 + s1 / 16; (s1 mod 16) * 16 + s2 / 4]
  | [s0; s1] => [s0 * 4 + s1 / 16]
  | _ => []
  end.

(** [Buffer.from(s, 'base64')]; it never throws. *)
Definition decode (s : jsstring) : bytes := pack (sextets s).

End Base64.

(** ** Hex *)

Module Hex.

Definition digit (v : N) : N :=
  let v := v mod 16 in
  if v <? 10 then 48 + v else 97 + (v - 10).

(** The table of Node's decoder: the value of an octet that is a
    hexadecimal digit. *)
Definition unhex (c : N) : option N :=
  if (48 <=? c) && (c <=? 57) then Some (c - 48)
  else if (97 <=? c) && (c <=? 102) then Some (c - 97 + 10)
  else if (65 <=? c) && (c <=? 70) then Some (c - 65 + 10)
  else None.

(** [buf.toString('hex')] *)
Definition encode (bs : bytes) : jsstring :=
  flat_map (fun b => [digit (b / 16); digit (b mod 16)]) bs.

(** [Buffer.from(s, 'hex')]: pairs of digits are decoded until the
    first pair that is not hexadecimal, every code unit being read as
    its low octet; a trailing single character is dropped.  It never
    throws. *)
Fixpoint decode (s : jsstring) : bytes :=
  match s with
  | h :: l :: r =>
      match unhex (h mod 256), unhex (l mod 256) with
      | Some a, Some b => (a * 16 + b) :: decode r
      | _, _ => []
      end
  | _ => []
  end.

End Hex.

(** ** UTF-8 *)

Module Utf8.

Definition high_surrogate (c : N) : bool := (0xD800 <=? c) && (c <=? 0xDBFF).
Definition low_surrogate (c : N) : bool := (0xDC00 <=? c) && (c <=? 0xDFFF).

Definition of_code_point (cp : N) : bytes :=
  if cp <? 0x80 then [cp]
  else if cp <? 0x800 then [0xC0 + cp / 64; 0x80 + cp mod 64]
  else if cp <? 0x10000 then
    [0xE0 + cp / 4096; 0x80 + (cp / 64) mod 64; 0x80 + cp mod 64]
  else
    [0xF0 + cp / 262144; 0x80 + (cp / 4096) mod 64;
     0x80 + (cp / 64) mod 64; 0x80 + cp mod 64].

(** The octets of a string ([Buffer.from(s)], and what a cipher or an
    HMAC makes of a string argument): surrogate pairs are combined, a
    lone surrogate becomes U+FFFD. *)
Fixpoint encode (s : jsstring) : bytes :=
  match s with
  | [] => []
  | c :: r =>
      if high_surrogate c then
        match r with
        | d :: r' =>
            if low_surrogate d then
              of_code_point (0x10000 + (c - 0xD800) * 1024 + (d - 0xDC00))
              ++ encode r'
            else [0xEF; 0xBF; 0xBD] ++ encode r
        | [] => [0xEF; 0xBF; 0xBD]
        end
      else if low_surrogate c then [0xEF; 0xBF; 0xBD] ++ encode r
      else of_code_point c ++ encode r
  end.

Definition continuation (b : N) : bool := (0x80 <=? b) && (b <=? 0xBF).

(** The code units of a code point. *)
Definition units (cp : N) : jsstring :=
  if cp <? 0x10000 then [cp]
  else [0xD800 + (cp - 0x10000) / 1024; 0xDC00 + (cp - 0x10000) mod 1024].

(** [buf.toString()]: every maximal ill-formed prefix is replaced by
    U+FFFD.  It never throws. *)
Fixpoint decode (bs : bytes) : jsstring :=
  match bs with
  | [] => []
  | b0 :: r0 =>
      if b0 <? 0x80 then b0 :: decode r0
      else if (0xC2 <=? b0) && (b0 <=? 0xDF) then
        match r0 with
        | b1 :: r1 =>
            if continuation b1
            then ((b0 - 0xC0) * 64 + (b1 - 0x80)) :: decode r1
            else 0xFFFD :: decode r0
        | [] => [0xFFFD]
        end
      else if (0xE0 <=? b0) && (b0 <=? 0xEF) then
        match r0 with
        | b1 :: r1 =>
            if ((if b0 =? 0xE0 then 0xA0 else 0x80) <=? b1)
               && (b1 <=? (if b0 =? 0xED then 0x9F else 0xBF))
            then
              match r1 with
              | b2 :: r2 =>
                  if continuation b2
                  then ((b0 - 0xE0) * 4096 + (b1 - 0x80) * 64 + (b2 - 0x80))
                       :: decode r2
                  else 0xFFFD :: decode r1
              | [] => [0xFFFD]
              end
            else 0xFFFD :: decode r0
        | [] => [0xFFFD]
        end
      else if (0xF0 <=? b0) && (b0 <=? 0xF4) then
        match r0 with
        | b1 :: r1 =>
            if ((if b0 =? 0xF0 then 0x90 else 0x80) <=? b1)
               && (b1 <=? (if b0 =? 0xF4 then 0x8F else 0xBF))
            then
              match r1 with
              | b2 :: r2 =>
                  if continuation b2 then
                    match r2 with
                    | b3 :: r3 =>
                        if continuation b3
                        then units ((b0 - 0xF0) * 262144 + (b1 - 0x80) * 4096
                                    + (b2 - 0x80) * 64 + (b3 - 0x80))
                             ++ decode r3
                        else 0xFFFD :: decode r2
                    | [] => [0xFFFD]
                    end
                  else 0xFFFD :: decode r1
              | [] => [0xFFFD]
              end
            else 0xFFFD :: decode r0
        | [] => [0xFFFD]
        end
      else 0xFFFD :: decode r0
  end.

End Utf8.

(** ** [String.prototype.split] with a one-character separator *)

Fixpoint split (sep : N) (s : jsstring) : list jsstring :=
  match s with
  | [] => [[]]
  | c :: r =>
      if c =? sep then [] :: split sep r
      else match split sep r with
           | h :: t => (c :: h) :: t
           | [] => [[c]]
           end
  end.

(** ** JavaScript values *)

(** The values a request body is made of, and [BigInt] as the value
    [JSON.stringify] refuses.  An object is the list of its own
    properties in enumeration order. *)
Inductive jsvalue : Type :=
| JNull
| JBool (b : bool)
| JNum (n : Number.number)
| JBigInt (n : Z)
| JStr (s : jsstring)
| JArr (elements : list jsvalue)
| JObj (properties : list (jsstring * jsvalue)).

Definition object := list (jsstring * jsvalue).

(** [o.k] on an object; [None] is [undefined]. *)
Fixpoint member (o : object) (k : jsstring) : option jsvalue :=
  match o with
  | [] => None
  | (k', v) :: r => if jsstring_eqb k' k then Some v else member r k
  end.

(** ToBoolean, on a value that may be [undefined]. *)
Definition truthy (v : option jsvalue) : bool :=
  match v with
  | None => false
  | Some JNull => false
  | Some (JBool b) => b
  | Some (JNum (Number.Zero _)) => false
  | Some (JNum Number.NaN) => false
  | Some (JNum _) => true
  | Some (JBigInt n) => negb (n =? 0)%Z
  | Some (JStr s) => match s with [] => false | _ => true end
  | Some (JArr _) => true
  | Some (JObj _) => true
  end.

(** [a != b] where [a] is a string or [undefined] and [b] is a string. *)
Definition loose_neq (a : option jsstring) (b : jsstring) : bool :=
  match a with
  | None => true
  | Some a => negb (jsstring_eqb a b)
  end.

(** ** [JSON.stringify] *)

Module JSON.

Definition hex4 (c : N) : jsstring :=
  [Hex.digit (c / 4096); Hex.digit (c / 256); Hex.digit (c / 16); Hex.digit c].

(** [\uXXXX] *)
Definition unicode_escape (c : N) : jsstring := 92 :: 117 :: hex4 c.

(** The characters of a quoted string: quotation mark, reverse solidus
    and the control characters are escaped, and so is a surrogate that
    has no partner; every other code unit is copied. *)
Fixpoint quote_units (s : jsstring) : jsstring :=
  match s with
  | [] => []
  | c :: r =>
      if c =? 34 then 92 :: 34 :: quote_units r
      else if c =? 92 then 92 :: 92 :: quote_units r
      else if c =? 8 then 92 :: 98 :: quote_units r
      else if c =? 12 then 92 :: 102 :: quote_units r
      else if c =? 10 then 92 :: 110 :: quote_units r
      else if c =? 13 then 92 :: 114 :: quote_units r
      else if c =? 9 then 92 :: 116 :: quote_units r
      else if c <? 32 then unicode_escape c ++ quote_units r
      else if Utf8.high_surrogate c then
        match r with
        | d :: r' =>
            if Utf8.low_surrogate d then c :: d :: quote_units r'
            else unicode_escape c ++ quote_units r
        | [] => unicode_escape c
        end
      else if Utf8.low_surrogate c then unicode_escape c ++ quote_units r
      else c :: quote_units r
  end.

Definition quote (s : jsstring) : jsstring := 34 :: quote_units s ++ [34].

(** A number that is not finite is written [null]. *)
Definition number_to_string (n : Number.number) : jsstring :=
  match n with
  | Number.Infinity _ | Number.NaN => str "null"
  | _ => Number.to_string n
  end.

Fixpoint join (parts : list jsstring) : jsstring :=
  match parts with
  | [] => []
  | [p] => p
  | p :: r => p ++ 44 :: join r
  end.

(** The JSON text of a value; [None] is the [TypeError] thrown at a
    [BigInt]. *)
Fixpoint serialize (v : jsvalue) : option jsstring :=
  match v with
  | JNull => Some (str "null")
  | JBool true => Some (str "true")
  | JBool false => Some (str "false")
  | JNum n => Some (number_to_string n)
  | JBigInt _ => None
  | JStr s => Some (quote s)
  | JArr l =>
      match
        (fix elements (l : list jsvalue) : option (list jsstring) :=
           match l with
           | [] => Some []
           | x :: r =>
               match serialize x, elements r with
               | Some a, Some b => Some (a :: b)
               | _, _ => None
               end
           end) l
      with
      | Some parts => Some (91 :: join parts ++ [93])
      | None => None
      end
  | JObj l =>
      match
        (fix properties (l : list (jsstring * jsvalue))
           : option (list jsstring) :=
           match l with
           | [] => Some []
           | (k, x) :: r =>
               match serialize x, properties r with
               | Some a, Some b => Some ((quote k ++ 58 :: a) :: b)
               | _, _ => None
               end
           end) l
      with
      | Some parts => Some (123 :: join parts ++ [125])
      | None => None
      end
  end.

End JSON.

(** ** The effects of a handler *)

Inductive js_error : Type :=
| TypeError
| SyntaxError
| InvalidCharacterError
| ERR_CRYPTO_INVALID_IV
| ERR_CRYPTO_INVALID_KEYLEN
| ERR_OSSL_WRONG_FINAL_BLOCK_LENGTH
| ERR_OSSL_BAD_DECRYPT.

Inductive encoding : Type := utf8 | base64 | hex.

(** The library calls a handler makes, in the order it makes them. *)
Inductive call : Type :=
| call_JSON_stringify
| call_JSON_parse
| call_btoa
| call_atob
| call_Buffer_from (enc : encoding)
| call_toString (enc : encoding)
| call_createHmac (key : jsstring)
| call_hmac_update (data : bytes)
| call_hmac_digest
| call_randomBytes (size : nat)
| call_createCipheriv
| call_cipher_update
| call_cipher_final
| call_createDecipheriv
| call_decipher_update
| call_decipher_final.

Record world : Type := {
  calls : list call;        (* most recent call last *)
  entropy : nat -> N        (* what the random source yields next *)
}.

Inductive outcome (A : Type) : Type :=
| Returned (a : A)
| Thrown (e : js_error).
Arguments Returned {A} a.
Arguments Thrown {A} e.

Definition M (A : Type) : Type := world -> outcome A * world.

Definition ret {A} (a : A) : M A := fun w => (Returned a, w).

Definition bind {A B} (m : M A) (f : A -> M B) : M B :=
  fun w =>
    match m w with
    | (Returned a, w') => f a w'
    | (Thrown e, w') => (Thrown e, w')
    end.

Definition throw {A} (e : js_error) : M A := fun w => (Thrown e, w).

(** [try { body } catch (error) { handler }] *)
Definition try_catch {A} (body : M A) (handler : js_error -> M A) : M A :=
  fun w =>
    match body w with
    | (Returned a, w') => (Returned a, w')
    | (Thrown e, w') => handler e w'
    end.

(** The world once the call [c] has been made. *)
Definition logged (c : call) (w : world) : world :=
  {| calls := calls w ++ [c]; entropy := entropy w |}.

Definition record (c : call) : M unit :=
  fun w => (Returned tt, logged c w).

Declare Scope js_scope.
Delimit Scope js_scope with js.
Notation "x <- m ;; k" := (bind m (fun x => k))
  (at level 100, m at next level, right associativity) : js_scope.
Notation "' p <- m ;; k" := (bind m (fun p => k))
  (at level 100, p pattern, m at next level, right associativity) : js_scope.
Notation "m ;;; k" := (bind m (fun _ => k))
  (at level 100, right associativity) : js_scope.
Local Open Scope js_scope.

(** The world before a request is handled. *)
Definition fresh (rnd : nat -> N) : world := {| calls := []; entropy := rnd |}.

(** ** The library calls *)

Definition JSON_stringify (v : jsvalue) : M jsstring :=
  record call_JSON_stringify ;;;
  match JSON.serialize v with
  | Some s => ret s
  | None => throw TypeError
  end.

(** [btoa(s)]: a string with a code unit above 0xFF is refused, the other
    strings are read as octets. *)
Definition latin1 (s : jsstring) : bool := forallb (fun c => c <=? 255) s.

Definition btoa (s : jsstring) : M jsstring :=
  record call_btoa ;;;
  if latin1 s then ret (Base64.encode s)
  else throw InvalidCharacterError.

Definition ascii_whitespace (c : N) : bool :=
  (c =? 9) || (c =? 10) || (c =? 12) || (c =? 13) || (c =? 32).

Definition atob_allowed (c : N) : bool :=
  ascii_whitespace c
  || match Base64.unbase64 c with
     | Some _ => negb ((c =? 45) || (c =? 95))
     | None => c =? 61
     end.

(** The scan of [atob] over its argument: the number of characters that
    are not whitespace and the number of ['='] signs among them; [None]
    when a character is refused. *)
Fixpoint atob_scan (s : jsstring) (count equals : N) : option (N * N) :=
  match s with
  | [] => Some (count, equals)
  | c :: r =>
      if negb (atob_allowed c) then None
      else if ascii_whitespace c then atob_scan r count equals
      else if c =? 61 then
        if 2 <=? equals then None else atob_scan r (count + 1) (equals + 1)
      else if 0 <? equals then None
      else atob_scan r (count + 1) equals
  end.

Definition atob_valid (s : jsstring) : bool :=
  match atob_scan s 0 0 with
  | None => false
  | Some (count, equals) =>
      if count mod 4 =? 0 then negb ((count - equals) mod 4 =? 1)
      else (equals =? 0) && negb (count mod 4 =? 1)
  end.

(** [atob(s)]: the forgiving-base64 checks, then the octets of
    [Buffer.from(s, 'base64')] as a string. *)
Definition atob (s : jsstring) : M jsstring :=
  record call_atob ;;;
  if atob_valid s then ret (Base64.decode s)
  else throw InvalidCharacterError.

Definition random_bytes (n : nat) (rnd : nat -> N) : bytes :=
  map (fun i => rnd i mod 256) (seq 0 n).

(** [crypto.randomBytes(n)] *)
(** The world once [n] random octets have been drawn. *)
Definition drawn (n : nat) (w : world) : world :=
  {| calls := calls w ++ [call_randomBytes n];
     entropy := fun i => entropy w (i + n)%nat |}.

Definition randomBytes (n : nat) : M bytes :=
  fun w => (Returned (random_bytes n (entropy w)), drawn n w).

Definition toString (enc : encoding) (b : bytes) : M jsstring :=
  record (call_toString enc) ;;;
  ret match enc with
      | utf8 => Utf8.decode b
      | base64 => Base64.encode b
      | hex => Hex.encode b
      end.

Definition Buffer_from_string (s : jsstring) (enc : encoding) : bytes :=
  match enc with
  | utf8 => Utf8.encode s
  | base64 => Base64.decode s
  | hex => Hex.decode s
  end.

(** ** What the handlers take from their environment *)

(** [Config] holds the two secrets; the block permutation of AES-256,
    HMAC-SHA256 and [JSON.parse] are the platform's ([None] is the
    [SyntaxError] of [JSON.parse]), and so is what [Buffer.from] makes of
    an array or an object ([None] is its [TypeError]). *)
Record Platform : Type := {
  SECRET_SIGNATURE_KEY : jsstring;
  SECRET_ENCRYPTION_KEY : jsstring;
  aes256_encrypt_block : bytes -> bytes -> bytes;
  aes256_decrypt_block : bytes -> bytes -> bytes;
  hmac_sha256 : bytes -> bytes -> bytes;
  JSON_parse_text : jsstring -> option jsvalue;
  Buffer_from_object : jsvalue -> option bytes
}.

Module StatusCode.
Definition SuccessOK : N := 200.
Definition ClientErrorBadRequest : N := 400.
End StatusCode.

(** [new RouterError(statusCode, message)] *)
Record RouterError : Type := {
  statusCode : N;
  message : jsstring
}.

(** How a handler answers: [res.status(s).send(b)] or [next(error)]. *)
Inductive response : Type :=
| send (status : N) (body : jsvalue)
| next (error : RouterError).

Fixpoint xor_bytes (a b : bytes) : bytes :=
  match a, b with
  | x :: a', y :: b' => N.lxor x y :: xor_bytes a' b'
  | _, _ => []
  end.

(** PKCS#7: a block is completed with [n] octets of value [n], [1 <= n <= 16]. *)
Definition pkcs7_pad (partial : bytes) : bytes :=
  let n := (16 - length partial)%nat in
  partial ++ repeat (N.of_nat n) n.

Definition pkcs7_unpad (block : bytes) : option bytes :=
  let n := last block 0 in
  if (n =? 0) || (16 <? n) then None
  else if forallb (fun b => b =? n) (skipn (16 - N.to_nat n) block)
       then Some (firstn (16 - N.to_nat n) block)
       else None.

Record Hmac : Type := {
  hmac_key : bytes;
  hmac_data : bytes
}.

Record Cipher : Type := {
  cipher_key : bytes;
  cipher_chain : bytes;       (* the previous block of ciphertext, or the IV *)
  cipher_pending : bytes      (* input that [update] has not released *)
}.

Section Codec.

Variable P : Platform.

Definition JSON_parse (s : jsstring) : M jsvalue :=
  record call_JSON_parse ;;;
  match JSON_parse_text P s with
  | Some v => ret v
  | None => throw SyntaxError
  end.

(** [Buffer.from(v, enc)]; the encoding only matters for a string. *)
Definition Buffer_from (v : option jsvalue) (enc : encoding) : M bytes :=
  record (call_Buffer_from enc) ;;;
  match v with
  | Some (JStr s) => ret (Buffer_from_string s enc)
  | Some (JArr l) =>
      match Buffer_from_object P (JArr l) with
      | Some b => ret b
      | None => throw TypeError
      end
  | Some (JObj l) =>
      match Buffer_from_object P (JObj l) with
      | Some b => ret b
      | None => throw TypeError
      end
  | _ => throw TypeError
  end.

(** [crypto.createHmac('sha256', key)] *)
Definition createHmac (key : jsstring) : M Hmac :=
  record (call_createHmac key) ;;;
  ret {| hmac_key := Utf8.encode key; hmac_data := [] |}.

Definition hmac_update (h : Hmac) (data : bytes) : M Hmac :=
  record (call_hmac_update data) ;;;
  ret {| hmac_key := hmac_key h; hmac_data := hmac_data h ++ data |}.

(** [hmac.digest('base64')] *)
Definition hmac_digest (h : Hmac) : M jsstring :=
  record call_hmac_digest ;;;
  ret (Base64.encode (hmac_sha256 P (hmac_key h) (hmac_data h))).

(** CBC over [n] whole blocks; the second component is the block that
    chains into what follows. *)
Fixpoint cbc_encrypt (n : nat) (key chain data : bytes) : bytes * bytes :=
  match n with
  | O => ([], chain)
  | S n' =>
      let c := aes256_encrypt_block P key (xor_bytes (firstn 16 data) chain) in
      let (out, last) := cbc_encrypt n' key c (skipn 16 data) in
      (c ++ out, last)
  end.

Fixpoint cbc_decrypt (n : nat) (key chain data : bytes) : bytes * bytes :=
  match n with
  | O => ([], chain)
  | S n' =>
      let c := firstn 16 data in
      let p := xor_bytes (aes256_decrypt_block P key c) chain in
      let (out, last) := cbc_decrypt n' key c (skipn 16 data) in
      (p ++ out, last)
  end.

(** [crypto.createCipheriv('aes-256-cbc', key, iv)] *)
Definition createCipheriv (key iv : bytes) : M Cipher :=
  record call_createCipheriv ;;;
  if negb (length iv =? 16)%nat then throw ERR_CRYPTO_INVALID_IV
  else if negb (length key =? 32)%nat then throw ERR_CRYPTO_INVALID_KEYLEN
  else ret {| cipher_key := key; cipher_chain := iv; cipher_pending := [] |}.

(** [cipher.update(data)]: the whole blocks are encrypted, the rest waits. *)
Definition cipher_update (c : Cipher) (data : bytes) : M (bytes * Cipher) :=
  record call_cipher_update ;;;
  let all := cipher_pending c ++ data in
  let n := (length all / 16)%nat in
  let (out, chain) := cbc_encrypt n (cipher_key c) (cipher_chain c) all in
  ret (out, {| cipher_key := cipher_key c; cipher_chain := chain;
               cipher_pending := skipn (16 * n) all |}).

(** [cipher.final()]: the padded last block. *)
Definition cipher_final (c : Cipher) : M bytes :=
  record call_cipher_final ;;;
  ret (aes256_encrypt_block P (cipher_key c)
         (xor_bytes (pkcs7_pad (cipher_pending c)) (cipher_chain c))).

(** [crypto.createDecipheriv('aes-256-cbc', key, iv)] *)
Definition createDecipheriv (key iv : bytes) : M Cipher :=
  record call_createDecipheriv ;;;
  if negb (length iv =? 16)%nat then throw ERR_CRYPTO_INVALID_IV
  else if negb (length key =? 32)%nat then throw ERR_CRYPTO_INVALID_KEYLEN
  else ret {| cipher_key := key; cipher_chain := iv; cipher_pending := [] |}.

(** [decipher.update(data)]: the whole blocks are decrypted except that,
    when the input ends on a block boundary, the last block is held back
    for [final] to strip its padding. *)
Definition decipher_update (d : Cipher) (data : bytes) : M (bytes * Cipher) :=
  record call_decipher_update ;;;
  let all := cipher_pending d ++ data in
  let n := (if (length all mod 16 =? 0)%nat
            then length all / 16 - 1 else length all / 16)%nat in
  let (out, chain) := cbc_decrypt n (cipher_key d) (cipher_chain d) all in
  ret (out, {| cipher_key := cipher_key d; cipher_chain := chain;
               cipher_pending := skipn (16 * n) all |}).

(** [decipher.final()] *)
Definition decipher_final (d : Cipher) : M bytes :=
  record call_decipher_final ;;;
  if negb (length (cipher_pending d) =? 16)%nat
  then throw ERR_OSSL_WRONG_FINAL_BLOCK_LENGTH
  else
    match pkcs7_unpad (xor_bytes (aes256_decrypt_block P (cipher_key d)
                                    (cipher_pending d)) (cipher_chain d)) with
    | Some p => ret p
    | None => throw ERR_OSSL_BAD_DECRYPT
    end.

(** *** [tokenRouter.post("/encode", ...)] *)

Definition encode (body : jsvalue) : M response :=
  text <- JSON_stringify body ;;
  encoded <- btoa text ;;
  hmac <- createHmac (SECRET_SIGNATURE_KEY P) ;;
  data <- Buffer_from (Some (JStr encoded)) base64 ;;
  hmac <- hmac_update hmac data ;;
  signature <- hmac_digest hmac ;;
  let token := encoded ++ str "." ++ signature in
  iv <- randomBytes 16 ;;
  key <- Buffer_from (Some (JStr (SECRET_ENCRYPTION_KEY P))) utf8 ;;
  cipher <- createCipheriv key iv ;;
  ' (encrypted, cipher) <- cipher_update cipher (Utf8.encode token) ;;
  final <- cipher_final cipher ;;
  let encrypted := encrypted ++ final in
  encryptedString <- toString base64 encrypted ;;
  ivString <- toString hex iv ;;
  ret (send StatusCode.SuccessOK
         (JObj [(str "token", JStr encryptedString);
                (str "context", JStr ivString)])).

(** *** [tokenRouter.post("/decode", ...)] *)

(** Lines 78 to 83: the buffers of the two fields, and the decryption. *)
Definition decode_decrypt (encryptedString ivString : option jsvalue)
  : M bytes :=
  encrypted <- Buffer_from encryptedString base64 ;;
  iv <- Buffer_from ivString hex ;;
  key <- Buffer_from (Some (JStr (SECRET_ENCRYPTION_KEY P))) utf8 ;;
  decipher <- createDecipheriv key iv ;;
  ' (decrypted, decipher) <- decipher_update decipher encrypted ;;
  final <- decipher_final decipher ;;
  ret (decrypted ++ final).

(** Lines 85 to 102: split, check of the signature, and the payload. *)
Definition decode_verify (decrypted : bytes) : M response :=
  text <- toString utf8 decrypted ;;
  let token := split 46 text in
  let encoded := nth_error token 0 in
  let signature := nth_error token 1 in
  match encoded with
  | None | Some [] =>
      ret (next {| statusCode := StatusCode.ClientErrorBadRequest;
                   message := str "InvalidParams" |})
  | Some encoded =>
      hmac <- createHmac (SECRET_SIGNATURE_KEY P) ;;
      data <- Buffer_from (Some (JStr encoded)) base64 ;;
      hmac <- hmac_update hmac data ;;
      calculatedSignature <- hmac_digest hmac ;;
      if loose_neq signature calculatedSignature then
        ret (next {| statusCode := StatusCode.ClientErrorBadRequest;
                     message := str "Unauthorized" |})
      else
        text <- atob encoded ;;
        decoded <- JSON_parse text ;;
        ret (send StatusCode.SuccessOK decoded)
  end.

Definition decode (body : object) : M response :=
  if negb (truthy (member body (str "token")))
     || negb (truthy (member body (str "context")))
  then
    ret (next {| statusCode := StatusCode.ClientErrorBadRequest;
                 message := str "MissingParams" |})
  else
    let encryptedString := member body (str "token") in
    let ivString := member body (str "context") in
    try_catch
      (decrypted <- decode_decrypt encryptedString ivString ;;
       decode_verify decrypted)
      (fun _ =>
         ret (next {| statusCode := StatusCode.ClientErrorBadRequest;
                      message := str "InvalidParams" |})).

End Codec.

(** ** A reader of JSON text

    A recursive-descent reader of the JSON grammar, for running the
    handlers on examples. *)

Module Reader.

Definition whitespace (c : N) : bool :=
  (c =? 32) || (c =? 9) || (c =? 10) || (c =? 13).

Fixpoint skip (s : jsstring) : jsstring :=
  match s with
  | c :: r => if whitespace c then skip r else s
  | [] => []
  end.

Definition is_digit (c : N) : bool := (48 <=? c) && (c <=? 57).

(** The digits at the head of [s]: their value continuing [acc], their
    number continuing [count], and what follows them. *)
Fixpoint digits (acc count : N) (s : jsstring) : N * N * jsstring :=
  match s with
  | c :: r =>
      if is_digit c then digits (acc * 10 + (c - 48)) (count + 1) r
      else (acc, count, s)
  | [] => (acc, count, [])
  end.

(** The integer part of a number: [0], or digits that do not start
    with [0]. *)
Definition natural (s : jsstring) : option (N * jsstring) :=
  match s with
  | c :: r =>
      if c =? 48 then Some (0, r)
      else if is_digit c then let '(n, _, r') := digits 0 0 s in Some (n, r')
      else None
  | [] => None
  end.

(** The fraction of a number: after a full stop, one digit at least;
    the digits continue those of the integer part [i]. *)
Definition fraction (i : N) (s : jsstring) : option (N * N * jsstring) :=
  match s with
  | c :: r =>
      if c =? 46 then
        let '(m, count, r') := digits i 0 r in
        if count =? 0 then None else Some (m, count, r')
      else Some (i, 0, s)
  | [] => Some (i, 0, s)
  end.

(** The exponent of a number: after [e] or [E], a sign if any and one
    digit at least. *)
Definition exponent (s : jsstring) : option (Z * jsstring) :=
  match s with
  | c :: r =>
      if (c =? 101) || (c =? 69) then
        let (negative, r) :=
          match r with
          | c' :: r' =>
              if c' =? 45 then (true, r')
              else if c' =? 43 then (false, r') else (false, r)
          | [] => (false, r)
          end in
        let '(x, count, r') := digits 0 0 r in
        if count =? 0 then None
        else Some (if negative then (- Z.of_N x)%Z else Z.of_N x, r')
      else Some (0%Z, s)
  | [] => Some (0%Z, s)
  end.

(** A number is the double nearest to what its text denotes. *)
Definition number (s : jsstring) : option (Number.number * jsstring) :=
  let (negative, s') :=
    match s with
    | c :: r => if c =? 45 then (true, r) else (false, s)
    | [] => (false, s)
    end in
  match natural s' with
  | Some (i, r) =>
      match fraction i r with
      | Some (m, count, r) =>
          match exponent r with
          | Some (x, r) =>
              Some (Number.of_decimal negative (Z.of_N m) (x - Z.of_N count), r)
          | None => None
          end
      | None => None
      end
  | None => None
  end.

Definition hex4 (a b c d : N) : option N :=
  match Hex.unhex a, Hex.unhex b, Hex.unhex c, Hex.unhex d with
  | Some a, Some b, Some c, Some d => Some (a * 4096 + b * 256 + c * 16 + d)
  | _, _, _, _ => None
  end.

(** The characters of a string, after its opening quotation mark. *)
Fixpoint characters (s : jsstring) : option (jsstring * jsstring) :=
  match s with
  | [] => None
  | c :: r =>
      if c =? 34 then Some ([], r)
      else if c <? 32 then None
      else if c =? 92 then
        match r with
        | e :: r1 =>
            let simple (u : N) :=
              match characters r1 with
              | Some (t, r') => Some (u :: t, r')
              | None => None
              end in
            if e =? 34 then simple 34
            else if e =? 92 then simple 92
            else if e =? 47 then simple 47
            else if e =? 98 then simple 8
            else if e =? 102 then simple 12
            else if e =? 110 then simple 10
            else if e =? 114 then simple 13
            else if e =? 116 then simple 9
            else if e =? 117 then
              match r1 with
              | h1 :: h2 :: h3 :: h4 :: r2 =>
                  match hex4 h1 h2 h3 h4, characters r2 with
                  | Some u, Some (t, r') => Some (u :: t, r')
                  | _, _ => None
                  end
              | _ => None
              end
            else None
        | [] => None
        end
      else
        match characters r with
        | Some (t, r') => Some (c :: t, r')
        | None => None
        end
  end.

(** [s] starts with the word [w]. *)
Fixpoint word (w s : jsstring) : option jsstring :=
  match w, s with
  | [], _ => Some s
  | a :: w', b :: s' => if a =? b then word w' s' else None
  | _ :: _, [] => None
  end.

(** The array index that a property name is, if it is one: the decimal
    numeral of an integer below [2^32 - 1]. *)
Definition array_index (k : jsstring) : option N :=
  match k with
  | [] => None
  | c :: r =>
      if forallb is_digit k && (length k <=? 10)%nat
         && ((length k =? 1)%nat || negb (c =? 48))
      then let '(i, _, _) := digits 0 0 k in
           if i <? 4294967295 then Some i else None
      else None
  end.

(** The property in place of the one that has its name. *)
Fixpoint replace (o : object) (k : jsstring) (v : jsvalue) : object :=
  match o with
  | [] => []
  | (k', v') :: r =>
      if jsstring_eqb k' k then (k', v) :: r else (k', v') :: replace r k v
  end.

(** The array index [i] in its place: after the smaller ones. *)
Fixpoint insert_index (o : object) (i : N) (k : jsstring) (v : jsvalue)
  : object :=
  match o with
  | [] => [(k, v)]
  | (k', v') :: r =>
      match array_index k' with
      | Some j => if j <? i then (k', v') :: insert_index r i k v
                  else (k, v) :: o
      | None => (k, v) :: o
      end
  end.

(** A later property of the same name replaces the value of the earlier
    one and keeps its place.  A new property is enumerated as objects
    enumerate: the array indices first, in ascending order, then the
    other names in the order they were added. *)
Definition define (o : object) (k : jsstring) (v : jsvalue) : object :=
  match member o k with
  | Some _ => replace o k v
  | None =>
      match array_index k with
      | Some i => insert_index o i k v
      | None => o ++ [(k, v)]
      end
  end.

Section Lists.

Variable value : jsstring -> option (jsvalue * jsstring).

(** The elements of an array, from its first element on. *)
Fixpoint elements (n : nat) (s : jsstring)
  : option (list jsvalue * jsstring) :=
  match n with
  | O => None
  | S n' =>
      match value s with
      | Some (v, r) =>
          match skip r with
          | c :: r' =>
              if c =? 44 then
                match elements n' r' with
                | Some (vs, r'') => Some (v :: vs, r'')
                | None => None
                end
              else if c =? 93 then Some ([v], r')
              else None
          | [] => None
          end
      | None => None
      end
  end.

(** The properties of an object, from its first name on, added to
    the properties [o] read so far. *)
Fixpoint properties (n : nat) (o : object) (s : jsstring)
  : option (object * jsstring) :=
  match n with
  | O => None
  | S n' =>
      match skip s with
      | q :: r0 =>
          if q =? 34 then
            match characters r0 with
            | Some (k, r1) =>
                match skip r1 with
                | colon :: r2 =>
                    if colon =? 58 then
                      match value r2 with
                      | Some (v, r3) =>
                          match skip r3 with
                          | c :: r4 =>
                              if c =? 44
                              then properties n' (define o k v) r4
                              else if c =? 125
                                   then Some (define o k v, r4)
                                   else None
                          | [] => None
                          end
                      | None => None
                      end
                    else None
                | [] => None
                end
            | None => None
            end
          else None
      | [] => None
      end
  end.

End Lists.

Fixpoint value (fuel : nat) (s : jsstring) : option (jsvalue * jsstring) :=
  match fuel with
  | O => None
  | S fuel' =>
      match skip s with
      | [] => None
      | c :: r =>
          if c =? 123 then
            match skip r with
            | c' :: r' =>
                if c' =? 125 then Some (JObj [], r')
                else
                  match properties (value fuel') (length r) [] r with
                  | Some (o, r'') => Some (JObj o, r'')
                  | None => None
                  end
            | [] => None
            end
          else if c =? 91 then
            match skip r with
            | c' :: r' =>
                if c' =? 93 then Some (JArr [], r')
                else
                  match elements (value fuel') (length r) r with
                  | Some (l, r'') => Some (JArr l, r'')
                  | None => None
                  end
            | [] => None
            end
          else if c =? 34 then
            match characters r with
            | Some (t, r') => Some (JStr t, r')
            | None => None
            end
          else if c =? 116 then
            match word (str "rue") r with
            | Some r' => Some (JBool true, r')
            | None => None
            end
          else if c =? 102 then
            match word (str "alse") r with
            | Some r' => Some (JBool false, r')
            | None => None
            end
          else if c =? 110 then
            match word (str "ull") r with
            | Some r' => Some (JNull, r')
            | None => None
            end
          else
            match number (c :: r) with
            | Some (n, r') => Some (JNum n, r')
            | None => None
            end
      end
  end.

(** The value of a whole text. *)
Definition parse (s : jsstring) : option jsvalue :=
  match value (S (length s)) s with
  | Some (v, r) => match skip r with [] => Some v | _ => None end
  | None => None
  end.

End Reader.

(** ** What is assumed of a platform

    The encryption key has the 32 octets AES-256 asks for; on blocks of
    16 octets under that key the block decryption undoes the block
    encryption, which yields blocks of 16 octets; an HMAC-SHA256 has 32
    octets. *)

Definition encryption_key (P : Platform) : bytes :=
  Utf8.encode (SECRET_ENCRYPTION_KEY P).

Record Laws (P : Platform) : Prop := {
  encryption_key_length : length (encryption_key P) = 32%nat;
  decrypt_encrypt_block : forall block,
    length block = 16%nat -> octets block ->
    aes256_decrypt_block P (encryption_key P)
      (aes256_encrypt_block P (encryption_key P) block) = block;
  encrypt_block_length : forall block,
    length block = 16%nat ->
    length (aes256_encrypt_block P (encryption_key P) block) = 16%nat;
  encrypt_block_octets : forall block,
    length block = 16%nat -> octets block ->
    octets (aes256_encrypt_block P (encryption_key P) block);
  hmac_sha256_length : forall key data,
    length (hmac_sha256 P key data) = 32%nat
}.

(** ** The codec in closed form *)

(** The three errors of [decode], as [next] receives them. *)
Definition bad_request (m : string) : response :=
  next {| statusCode := StatusCode.ClientErrorBadRequest; message := str m |}.

(** The HMAC of the octets that the base64 text [encoded] decodes to, in
    base64. *)
Definition signature_of (P : Platform) (encoded : jsstring) : jsstring :=
  Base64.encode
    (hmac_sha256 P (Utf8.encode (SECRET_SIGNATURE_KEY P)) (Base64.decode encoded)).

(** The signed block of a JSON text. *)
Definition signed_block (P : Platform) (text : jsstring) : jsstring :=
  Base64.encode text ++ str "." ++ signature_of P (Base64.encode text).

(** CBC encryption of a whole message, padding included. *)
Definition aes_256_cbc (P : Platform) (key iv data : bytes) : bytes :=
  let n := (length data / 16)%nat in
  let (out, chain) := cbc_encrypt P n key iv data in
  out ++ aes256_encrypt_block P key
           (xor_bytes (pkcs7_pad (skipn (16 * n) data)) chain).

(** The token that decrypts to [data] under [iv]. *)
Definition sealed (P : Platform) (data iv : bytes) : jsstring :=
  Base64.encode (aes_256_cbc P (encryption_key P) iv data).

(** The token [encode] issues for a JSON text under an IV. *)
Definition issued_token (P : Platform) (text : jsstring) (iv : bytes) : jsstring :=
  sealed P (Utf8.encode (signed_block P text)) iv.

(** The body [encode] answers with. *)
Definition issued (P : Platform) (text : jsstring) (iv : bytes) : object :=
  [(str "token", JStr (issued_token P text iv));
   (str "context", JStr (Hex.encode iv))].

(** The text before the first full stop, and the text after it if there
    is one. *)
Fixpoint before_dot (s : jsstring) : jsstring :=
  match s with
  | [] => []
  | c :: r => if c =? 46 then [] else c :: before_dot r
  end.

Fixpoint after_dot (s : jsstring) : option jsstring :=
  match s with
  | [] => None
  | c :: r => if c =? 46 then Some r else after_dot r
  end.

(** What lines 85 to 102 come to for a decrypted block: the first piece
    is [encoded], the second piece is the signature, and the payload is
    only looked at once the signature is the recomputed one. *)
Definition verdict (P : Platform) (decrypted : bytes) : outcome response :=
  let text := Utf8.decode decrypted in
  let encoded := before_dot text in
  let signature := option_map before_dot (after_dot text) in
  match encoded with
  | [] => Returned (bad_request "InvalidParams")
  | _ :: _ =>
      if loose_neq signature (signature_of P encoded)
      then Returned (bad_request "Unauthorized")
      else if atob_valid encoded then
             match JSON_parse_text P (Base64.decode encoded) with
             | Some v => Returned (send StatusCode.SuccessOK v)
             | None => Thrown SyntaxError
             end
           else Thrown InvalidCharacterError
  end.

(** What the [catch] of [decode] makes of the outcome of its [try]. *)
Definition caught (r : outcome response) : outcome response :=
  match r with
  | Returned a => Returned a
  | Thrown _ => Returned (bad_request "InvalidParams")
  end.

(** A computation whose result does not depend on the world it starts in. *)
Definition steady {A} (m : M A) : Prop :=
  forall w w', fst (m w) = fst (m w').

(** The first 16 octets of [block] with [delta] added to them. *)
Definition xor_head (delta block : bytes) : bytes :=
  xor_bytes (firstn 16 block) delta ++ skipn 16 block.

(** A character of ASCII, and one that is not a full stop either. *)
Definition ascii (c : N) : Prop := c < 128.
Definition plain (c : N) : Prop := c < 128 /\ c <> 46.

(** The calls of an [encode] that answers, in order. *)
Definition encode_calls (P : Platform) (text : jsstring) : list call :=
  [call_JSON_stringify; call_btoa;
   call_createHmac (SECRET_SIGNATURE_KEY P);
   call_Buffer_from base64;
   call_hmac_update (Base64.decode (Base64.encode text));
   call_hmac_digest; call_randomBytes 16; call_Buffer_from utf8;
   call_createCipheriv; call_cipher_update; call_cipher_final;
   call_toString base64; call_toString hex].

(** The calls of lines 78 to 83 when the decryption succeeds, and the
    calls of lines 85 to 96 up to the comparison of the signatures. *)
Definition decrypt_calls : list call :=
  [call_Buffer_from base64; call_Buffer_from hex; call_Buffer_from utf8;
   call_createDecipheriv; call_decipher_update; call_decipher_final].

Definition verify_calls (P : Platform) (encoded : jsstring) : list call :=
  [call_toString utf8; call_createHmac (SECRET_SIGNATURE_KEY P);
   call_Buffer_from base64; call_hmac_update (Base64.decode encoded);
   call_hmac_digest].

(** ** Inputs of the examples *)

Definition zeros : nat -> N := fun _ => 0.

(** [{"name": "\u2603"}]: a payload with a character beyond U+00FF. *)
Definition snowman : jsvalue := JObj [(str "name", JStr [9731])].

(** [{"city": "\u0141\u00f3d\u017a"}]: the name of a city, with two
    characters beyond U+00FF. *)
Definition lodz : jsvalue := JObj [(str "city", JStr [321; 243; 100; 378])].

(** [{"a": 1}], and a random source that differs from [zeros] in the low
    two bits of its tenth octet. *)
Definition a_one : jsvalue := JObj [(str "a", JNum (Number.of_integer 1))].
Definition tenth (i : nat) : N := if (i =? 9)%nat then 3 else 0.

(** The request body of [decode]. *)
Definition request (token context : jsvalue) : object :=
  [(str "token", token); (str "context", context)].

(** What the handler reads off the split text: [token[0]] and [token[1]]. *)
Definition pieces (text : jsstring) : option jsstring * option jsstring :=
  (nth_error (split 46 text) 0, nth_error (split 46 text) 1).

Module Spec.

(** Modelled from the words of the specification, "split the decrypted
    plaintext on the first [.] delimiter into [encoded] and
    [signature]": [encoded] is the text before the first full stop and
    [signature] is all of the text after it. *)
Definition split_first (text : jsstring) : option jsstring * option jsstring :=
  (Some (before_dot text), after_dot text).

End Spec.

Definition option_N_eqb (a b : option N) : bool :=
  match a, b with
  | Some x, Some y => x =? y
  | None, None => true
  | _, _ => false
  end.


Definition in_alphabet (d : N) : bool :=
  ((65 <=? d) && (d <=? 90)) || ((97 <=? d) && (d <=? 122))
  || ((48 <=? d) && (d <=? 57)) || (d =? 43) || (d =? 47).

(** ** AES-256 (FIPS 197)

    The block cipher behind ['aes-256-cbc'], on blocks of 16 octets in
    the order of the standard (column by column). *)

Module AES.

(** Multiplication by [x] in GF(2^8), modulo [x^8 + x^4 + x^3 + x + 1]. *)
Definition xtime (b : N) : N :=
  if b <? 128 then b * 2 else N.lxor ((b * 2) mod 256) 27.

(** The product of [a] and the low [n] bits of [b]. *)
Fixpoint times (n : nat) (a b : N) : N :=
  match n with
  | O => 0
  | S n' => N.lxor (if N.odd b then a else 0) (times n' (xtime a) (b / 2))
  end.

Definition mul (a b : N) : N := times 8 a b.

(** [a^254], the inverse of [a] when [a] is not zero. *)
Definition inverse (a : N) : N :=
  let a2 := mul a a in
  let a4 := mul a2 a2 in
  let a8 := mul a4 a4 in
  let a16 := mul a8 a8 in
  let a32 := mul a16 a16 in
  let a64 := mul a32 a32 in
  let a128 := mul a64 a64 in
  mul a2 (mul a4 (mul a8 (mul a16 (mul a32 (mul a64 a128))))).

Definition rotl8 (b : N) (n : N) : N :=
  (b * 2 ^ n) mod 256 + b / 2 ^ (8 - n).

Definition sub_byte (b : N) : N :=
  let i := inverse b in
  N.lxor i (N.lxor (rotl8 i 1) (N.lxor (rotl8 i 2)
    (N.lxor (rotl8 i 3) (N.lxor (rotl8 i 4) 99)))).

Definition sbox_table : list N :=
  Eval vm_compute in map (fun i => sub_byte (N.of_nat i)) (seq 0 256).

Fixpoint index_of (y : N) (l : list N) : N :=
  match l with
  | [] => 0
  | x :: r => if x =? y then 0 else 1 + index_of y r
  end.

Definition inv_sbox_table : list N :=
  Eval vm_compute in
    map (fun i => index_of (N.of_nat i) sbox_table) (seq 0 256).

Definition sbox (b : N) : N := nth (N.to_nat b) sbox_table 0.
Definition inv_sbox (b : N) : N := nth (N.to_nat b) inv_sbox_table 0.

Definition sub_bytes (s : bytes) : bytes := map sbox s.
Definition inv_sub_bytes (s : bytes) : bytes := map inv_sbox s.

Definition pick (s : bytes) (order : list nat) : bytes :=
  map (fun i => nth i s 0) order.

Definition shift_rows (s : bytes) : bytes :=
  pick s [0; 5; 10; 15; 4; 9; 14; 3; 8; 13; 2; 7; 12; 1; 6; 11]%nat.

Definition inv_shift_rows (s : bytes) : bytes :=
  pick s [0; 13; 10; 7; 4; 1; 14; 11; 8; 5; 2; 15; 12; 9; 6; 3]%nat.

Fixpoint mix_columns (s : bytes) : bytes :=
  match s with
  | a0 :: a1 :: a2 :: a3 :: r =>
      N.lxor (mul a0 2) (N.lxor (mul a1 3) (N.lxor a2 a3))
      :: N.lxor a0 (N.lxor (mul a1 2) (N.lxor (mul a2 3) a3))
      :: N.lxor a0 (N.lxor a1 (N.lxor (mul a2 2) (mul a3 3)))
      :: N.lxor (mul a0 3) (N.lxor a1 (N.lxor a2 (mul a3 2)))
      :: mix_columns r
  | _ => []
  end.

Fixpoint inv_mix_columns (s : bytes) : bytes :=
  match s with
  | a0 :: a1 :: a2 :: a3 :: r =>
      N.lxor (mul a0 14) (N.lxor (mul a1 11) (N.lxor (mul a2 13) (mul a3 9)))
      :: N.lxor (mul a0 9) (N.lxor (mul a1 14) (N.lxor (mul a2 11) (mul a3 13)))
      :: N.lxor (mul a0 13) (N.lxor (mul a1 9) (N.lxor (mul a2 14) (mul a3 11)))
      :: N.lxor (mul a0 11) (N.lxor (mul a1 13) (N.lxor (mul a2 9) (mul a3 14)))
      :: inv_mix_columns r
  | _ => []
  end.

(** The words of [l], [n] octets each. *)
Fixpoint chunks (n count : nat) (l : bytes) : list bytes :=
  match count with
  | O => []
  | S count' => firstn n l :: chunks n count' (skipn n l)
  end.

Definition rot_word (w : bytes) : bytes :=
  match w with
  | a :: r => r ++ [a]
  | [] => []
  end.

(** The key schedule: word [i] from the words before it. *)
Fixpoint expand (count i : nat) (rcon : N) (ws : list bytes) : list bytes :=
  match count with
  | O => ws
  | S count' =>
      let previous := nth (i - 1) ws [] in
      let temp :=
        if (i mod 8 =? 0)%nat
        then xor_bytes (sub_bytes (rot_word previous)) [rcon; 0; 0; 0]
        else if (i mod 8 =? 4)%nat then sub_bytes previous
        else previous in
      let rcon' := if (i mod 8 =? 0)%nat then xtime rcon else rcon in
      expand count' (S i) rcon' (ws ++ [xor_bytes (nth (i - 8) ws []) temp])
  end.

(** The 15 round keys of a key of 32 octets. *)
Definition round_keys (key : bytes) : list bytes :=
  chunks 16 15 (concat (expand 52 8 1 (chunks 4 8 key))).

Definition round (rk s : bytes) : bytes :=
  xor_bytes (mix_columns (shift_rows (sub_bytes s))) rk.

Definition last_round (rk s : bytes) : bytes :=
  xor_bytes (shift_rows (sub_bytes s)) rk.

Definition inv_round (rk s : bytes) : bytes :=
  inv_sub_bytes (inv_shift_rows (inv_mix_columns (xor_bytes s rk))).

Definition inv_last_round (rk s : bytes) : bytes :=
  inv_sub_bytes (inv_shift_rows (xor_bytes s rk)).

Fixpoint rounds (rks : list bytes) (s : bytes) : bytes :=
  match rks with
  | [] => s
  | [rk] => last_round rk s
  | rk :: rest => rounds rest (round rk s)
  end.

Fixpoint inv_rounds (rks : list bytes) (s : bytes) : bytes :=
  match rks with
  | [] => s
  | [rk] => inv_last_round rk s
  | rk :: rest => inv_round rk (inv_rounds rest s)
  end.

Definition encrypt_block (key block : bytes) : bytes :=
  match round_keys key with
  | rk0 :: rks => rounds rks (xor_bytes block rk0)
  | [] => block
  end.

Definition decrypt_block (key block : bytes) : bytes :=
  match round_keys key with
  | rk0 :: rks => xor_bytes (inv_rounds rks block) rk0
  | [] => block
  end.

End AES.

(** ** SHA-256 (FIPS 180-4) and HMAC (RFC 2104) *)

Module SHA256.

Definition add (x y : N) : N := (x + y) mod 4294967296.

Definition rotr (n x : N) : N := x / 2 ^ n + (x mod 2 ^ n) * 2 ^ (32 - n).

Definition shr (n x : N) : N := x / 2 ^ n.

Definition ch (e f g : N) : N :=
  N.lxor (N.land e f) (N.land (N.lxor e 4294967295) g).

Definition maj (a b c : N) : N :=
  N.lxor (N.land a b) (N.lxor (N.land a c) (N.land b c)).

Definition big_sigma0 (x : N) : N :=
  N.lxor (rotr 2 x) (N.lxor (rotr 13 x) (rotr 22 x)).
Definition big_sigma1 (x : N) : N :=
  N.lxor (rotr 6 x) (N.lxor (rotr 11 x) (rotr 25 x)).
Definition small_sigma0 (x : N) : N :=
  N.lxor (rotr 7 x) (N.lxor (rotr 18 x) (shr 3 x)).
Definition small_sigma1 (x : N) : N :=
  N.lxor (rotr 17 x) (N.lxor (rotr 19 x) (shr 10 x)).

(** The round constants are the first 32 bits of the fractional parts of
    the cube roots of the first 64 primes, and the initial state those of
    the square roots of the first 8. *)
Definition prime (n : N) : bool :=
  (2 <=? n) && forallb (fun d => negb (n mod d =? 0))
                 (map N.of_nat (seq 2 (N.to_nat n - 2))).

Definition primes (count : nat) : list N :=
  firstn count (filter prime (map N.of_nat (seq 0 320))).

(** The largest [r] below [2 ^ bits] whose cube is at most [x], from [r]. *)
Fixpoint cube_root (bits : nat) (x r : N) : N :=
  match bits with
  | O => r
  | S b =>
      let r' := r + 2 ^ N.of_nat b in
      cube_root b x (if r' * r' * r' <=? x then r' else r)
  end.

Definition K : list N :=
  Eval vm_compute in
    map (fun p => cube_root 40 (p * 2 ^ 96) 0 mod 2 ^ 32) (primes 64).

Definition state : Type := N * N * N * N * N * N * N * N.

Definition initial : state :=
  Eval vm_compute in
    let h := fun p => N.sqrt (p * 2 ^ 64) mod 2 ^ 32 in
    (h 2, h 3, h 5, h 7, h 11, h 13, h 17, h 19).

(** The big-endian word of four octets, and back. *)
Definition word_of (b : bytes) : N :=
  match b with
  | [b0; b1; b2; b3] => ((b0 * 256 + b1) * 256 + b2) * 256 + b3
  | _ => 0
  end.

Definition bytes_of (w : N) : bytes :=
  [(w / 16777216) mod 256; (w / 65536) mod 256; (w / 256) mod 256; w mod 256].

(** The message schedule: word [i] from the words before it. *)
Fixpoint schedule (count i : nat) (w : list N) : list N :=
  match count with
  | O => w
  | S count' =>
      schedule count' (S i)
        (w ++ [add (add (nth (i - 16) w 0) (small_sigma0 (nth (i - 15) w 0)))
                 (add (nth (i - 7) w 0) (small_sigma1 (nth (i - 2) w 0)))])
  end.

Definition step (s : state) (kw : N * N) : state :=
  let '(a, b, c, d, e, f, g, h) := s in
  let t1 := add (add (add h (big_sigma1 e)) (add (ch e f g) (fst kw))) (snd kw) in
  let t2 := add (big_sigma0 a) (maj a b c) in
  (add t1 t2, a, b, c, add d t1, e, f, g).

Definition compress (s : state) (block : bytes) : state :=
  let w := schedule 48 16 (map word_of (AES.chunks 4 16 block)) in
  let '(a, b, c, d, e, f, g, h) := fold_left step (combine K w) s in
  let '(a0, b0, c0, d0, e0, f0, g0, h0) := s in
  (add a0 a, add b0 b, add c0 c, add d0 d,
   add e0 e, add f0 f, add g0 g, add h0 h).

Definition pad (message : bytes) : bytes :=
  let n := length message in
  let bits := N.of_nat n * 8 in
  message ++ 128 :: repeat 0 ((64 - (n + 9) mod 64) mod 64)
  ++ bytes_of (bits / 4294967296) ++ bytes_of (bits mod 4294967296).

Definition hash (message : bytes) : bytes :=
  let padded := pad message in
  let '(a, b, c, d, e, f, g, h) :=
    fold_left compress (AES.chunks 64 (length padded / 64) padded) initial in
  bytes_of a ++ bytes_of b ++ bytes_of c ++ bytes_of d
  ++ bytes_of e ++ bytes_of f ++ bytes_of g ++ bytes_of h.

Definition hmac (key message : bytes) : bytes :=
  let key := if (64 <? length key)%nat then hash key else key in
  let key := key ++ repeat 0 (64 - length key) in
  hash (map (N.lxor 0x5c) key ++ hash (map (N.lxor 0x36) key ++ message)).

End SHA256.

(** ** A platform to run the handlers on

    AES-256 and HMAC-SHA256 as above, [JSON.parse] as the reader above,
    and two secrets chosen for the examples. *)

Module Node.

(** [Buffer.from] of an array of numbers; an object is refused. *)
Definition from_object (v : jsvalue) : option bytes :=
  match v with
  | JArr l =>
      Some (map (fun x => match x with
                          | JNum n => Z.to_N (Number.to_integer n mod 256)
                          | _ => 0
                          end) l)
  | _ => None
  end.

Definition platform : Platform := {|
  SECRET_SIGNATURE_KEY := str "signature secret";
  SECRET_ENCRYPTION_KEY := str "0123456789abcdefghijklmnopqrstuv";
  aes256_encrypt_block := AES.encrypt_block;
  aes256_decrypt_block := AES.decrypt_block;
  hmac_sha256 := SHA256.hmac;
  JSON_parse_text := Reader.parse;
  Buffer_from_object := from_object
|}.

End Node.

(** The sixteen entries of the product of the matrix of [inv_mix_columns]
    and the matrix of [mix_columns], applied to [a]: the product is the
    identity. *)
Definition column_check (a : N) : bool :=
  (N.lxor (AES.mul (AES.mul a 2) 14) (N.lxor (AES.mul a 11) (N.lxor (AES.mul a 13) (AES.mul (AES.mul a 3) 9))) =? a)
  && (N.lxor (AES.mul (AES.mul a 3) 14) (N.lxor (AES.mul (AES.mul a 2) 11) (N.lxor (AES.mul a 13) (AES.mul a 9))) =? 0)
  && (N.lxor (AES.mul a 14) (N.lxor (AES.mul (AES.mul a 3) 11) (N.lxor (AES.mul (AES.mul a 2) 13) (AES.mul a 9))) =? 0)
  && (N.lxor (AES.mul a 14) (N.lxor (AES.mul a 11) (N.lxor (AES.mul (AES.mul a 3) 13) (AES.mul (AES.mul a 2) 9))) =? 0)
  && (N.lxor (AES.mul (AES.mul a 2) 9) (N.lxor (AES.mul a 14) (N.lxor (AES.mul a 11) (AES.mul (AES.mul a 3) 13))) =? 0)
  && (N.lxor (AES.mul (AES.mul a 3) 9) (N.lxor (AES.mul (AES.mul a 2) 14) (N.lxor (AES.mul a 11) (AES.mul a 13))) =? a)
  && (N.lxor (AES.mul a 9) (N.lxor (AES.mul (AES.mul a 3) 14) (N.lxor (AES.mul (AES.mul a 2) 11) (AES.mul a 13))) =? 0)
  && (N.lxor (AES.mul a 9) (N.lxor (AES.mul a 14) (N.lxor (AES.mul (AES.mul a 3) 11) (AES.mul (AES.mul a 2) 13))) =? 0)
  && (N.lxor (AES.mul (AES.mul a 2) 13) (N.lxor (AES.mul a 9) (N.lxor (AES.mul a 14) (AES.mul (AES.mul a 3) 11))) =? 0)
  && (N.lxor (AES.mul (AES.mul a 3) 13) (N.lxor (AES.mul (AES.mul a 2) 9) (N.lxor (AES.mul a 14) (AES.mul a 11))) =? 0)
  && (N.lxor (AES.mul a 13) (N.lxor (AES.mul (AES.mul a 3) 9) (N.lxor (AES.mul (AES.mul a 2) 14) (AES.mul a 11))) =? a)
  && (N.lxor (AES.mul a 13) (N.lxor (AES.mul a 9) (N.lxor (AES.mul (AES.mul a 3) 14) (AES.mul (AES.mul a 2) 11))) =? 0)
  && (N.lxor (AES.mul (AES.mul a 2) 11) (N.lxor (AES.mul a 13) (N.lxor (AES.mul a 9) (AES.mul (AES.mul a 3) 14))) =? 0)
  && (N.lxor (AES.mul (AES.mul a 3) 11) (N.lxor (AES.mul (AES.mul a 2) 13) (N.lxor (AES.mul a 9) (AES.mul a 14))) =? 0)
  && (N.lxor (AES.mul a 11) (N.lxor (AES.mul (AES.mul a 3) 13) (N.lxor (AES.mul (AES.mul a 2) 9) (AES.mul a 14))) =? 0)
  && (N.lxor (AES.mul a 11) (N.lxor (AES.mul a 13) (N.lxor (AES.mul (AES.mul a 3) 9) (AES.mul (AES.mul a 2) 14))) =? a).

(** The round keys of [key] are fifteen blocks of 16 octets. *)
Definition key_ok (key : bytes) : bool :=
  (length (AES.round_keys key) =? 15)%nat
  && forallb (fun rk => (length rk =? 16)%nat && forallb (fun b => b <? 256) rk)
       (AES.round_keys key).

(** ** Inputs of the example of a changed ciphertext *)

(** The random source that draws the IV [7f9359175a3c0f0a4280b07e634761f8]. *)
Definition lucky (i : nat) : N :=
  nth i [0x7f; 0x93; 0x59; 0x17; 0x5a; 0x3c; 0x0f; 0x0a;
         0x42; 0x80; 0xb0; 0x7e; 0x63; 0x47; 0x61; 0xf8] 0.

(** [b] with [delta] added to its octet at index [j]. *)
Definition flip (j : nat) (delta : N) (b : bytes) : bytes :=
  firstn j b
  ++ match skipn j b with
     | x :: r => N.lxor x delta :: r
     | [] => []
     end.

From Stdlib Require DecimalPos.

(** * The rest of the token router, and the user formats

    [token-router.ts] also holds the router as it was before [decode]
    got its [try] block (lines 138 to 187) and the helper of its tests,
    [generateRandomString] (lines 192 to 197). *)

(** ** The earlier revision of the router *)

Module Previous.

Section Codec.

Variable P : Platform.

(** *** [tokenRouter.post("/encode", ...)], lines 138 to 155 *)

Definition encode (body : jsvalue) : M response :=
  text <- JSON_stringify body ;;
  encoded <- btoa text ;;
  hmac <- createHmac (SECRET_SIGNATURE_KEY P) ;;
  data <- Buffer_from P (Some (JStr encoded)) base64 ;;
  hmac <- hmac_update hmac data ;;
  signature <- hmac_digest P hmac ;;
  let token := encoded ++ str "." ++ signature in
  iv <- randomBytes 16 ;;
  key <- Buffer_from P (Some (JStr (SECRET_ENCRYPTION_KEY P))) utf8 ;;
  cipher <- createCipheriv key iv ;;
  ' (encrypted, cipher) <- cipher_update P cipher (Utf8.encode token) ;;
  final <- cipher_final P cipher ;;
  let encrypted := encrypted ++ final in
  encryptedString <- toString base64 encrypted ;;
  ivString <- toString hex iv ;;
  ret (send StatusCode.SuccessOK
         (JObj [(str "token", JStr encryptedString);
                (str "context", JStr ivString)])).

(** *** [tokenRouter.post("/decode", ...)], lines 157 to 187

    Nothing catches here, and a plaintext without a signature is an
    invalid token. *)

Definition decode (body : object) : M response :=
  if negb (truthy (member body (str "token")))
     || negb (truthy (member body (str "context")))
  then
    ret (next {| statusCode := StatusCode.ClientErrorBadRequest;
                 message := str "Missing Params" |})
  else
    let encryptedString := member body (str "token") in
    let ivString := member body (str "context") in
    encrypted <- Buffer_from P encryptedString base64 ;;
    iv <- Buffer_from P ivString hex ;;
    key <- Buffer_from P (Some (JStr (SECRET_ENCRYPTION_KEY P))) utf8 ;;
    decipher <- createDecipheriv key iv ;;
    ' (decrypted, decipher) <- decipher_update P decipher encrypted ;;
    final <- decipher_final P decipher ;;
    let decrypted := decrypted ++ final in
    text <- toString utf8 decrypted ;;
    let token := split 46 text in
    let encoded := nth_error token 0 in
    let signature := nth_error token 1 in
    match encoded, signature with
    | None, _ | Some [], _ | _, None | _, Some [] =>
        ret (next {| statusCode := StatusCode.ClientErrorBadRequest;
                     message := str "Invalid Token" |})
    | Some encoded, Some signature =>
        hmac <- createHmac (SECRET_SIGNATURE_KEY P) ;;
        data <- Buffer_from P (Some (JStr encoded)) base64 ;;
        hmac <- hmac_update hmac data ;;
        calculatedSignature <- hmac_digest P hmac ;;
        if loose_neq (Some signature) calculatedSignature then
          ret (next {| statusCode := StatusCode.ClientErrorBadRequest;
                       message := str "Invalid Signature" |})
        else
          text <- atob encoded ;;
          decoded <- JSON_parse P text ;;
          ret (send StatusCode.SuccessOK decoded)
    end.

End Codec.

(** What lines 171 to 186 come to for a decrypted block. *)
Definition verdict (P : Platform) (decrypted : bytes) : outcome response :=
  let text := Utf8.decode decrypted in
  let encoded := before_dot text in
  let signature := option_map before_dot (after_dot text) in
  match encoded, signature with
  | [], _ | _, None | _, Some [] => Returned (bad_request "Invalid Token")
  | _ :: _, Some signature =>
      if loose_neq (Some signature) (signature_of P encoded)
      then Returned (bad_request "Invalid Signature")
      else if atob_valid encoded then
             match JSON_parse_text P (Base64.decode encoded) with
             | Some v => Returned (send StatusCode.SuccessOK v)
             | None => Thrown SyntaxError
             end
           else Thrown InvalidCharacterError
  end.

End Previous.

(** ** [generateRandomString]

    [new Uint8Array(length)] refuses a negative length and
    [crypto.getRandomValues] refuses more than 65536 octets; [None] is
    the exception either throws.  The length is an integer. *)

Definition fromCharCode (n : N) : N := n mod 65536.

Definition generateRandomString (length : Z)
  : world -> option jsstring * world :=
  fun w =>
    if (length <? 0)%Z || (65536 <? length)%Z then (None, w)
    else
      let array := random_bytes (Z.to_nat length) (entropy w) in
      (Some (map (fun byte => fromCharCode (33 + byte mod 94)) array),
       {| calls := calls w;
          entropy := fun i => entropy w (i + Z.to_nat length)%nat |}).

(** ** Regular expressions, as far as [user-formats.ts] uses them *)

Module RegExp.

(** A member of a character class: a range or a single character. *)
Inductive item : Type :=
| Range (low high : N)
| One (c : N).

Inductive pattern : Type :=
| Start                                (* ^ *)
| Finish                               (* $ *)
| Literal (c : N)                      (* a character, or an escaped one *)
| Class (items : list item)            (* [...] *)
| Plus (p : pattern)                   (* p+ *)
| Times (min max : nat) (p : pattern)  (* p{min,max} *)
| Then (p q : pattern).                (* pq *)

Definition in_item (c : N) (i : item) : bool :=
  match i with
  | Range low high => (low <=? c) && (c <=? high)
  | One d => c =? d
  end.

Definition in_class (items : list item) (c : N) : bool :=
  existsb (in_item c) items.

(** [accept p i s k]: [p] matches a prefix of [s], which is the input from
    its index [i] on, and [k] accepts the index and the input after that
    prefix.  The alternatives are tried in the order of a backtracking
    matcher, longest repetition first.  A repetition is given as many
    rounds as there are characters left, which is enough when its body
    consumes input. *)
Fixpoint accept (p : pattern) (i : nat) (s : jsstring)
  (k : nat -> jsstring -> bool) {struct p} : bool :=
  match p with
  | Start => (i =? 0)%nat && k i s
  | Finish => match s with [] => k i s | _ :: _ => false end
  | Literal c =>
      match s with
      | d :: r => (d =? c) && k (S i) r
      | [] => false
      end
  | Class items =>
      match s with
      | d :: r => in_class items d && k (S i) r
      | [] => false
      end
  | Plus p =>
      (fix more (rounds : nat) (i : nat) (s : jsstring) {struct rounds} : bool :=
         accept p i s
           (fun i' s' =>
              match rounds with
              | S rounds' => more rounds' i' s' || k i' s'
              | O => k i' s'
              end)) (length s) i s
  | Times min max p =>
      let optional :=
        fix optional (n : nat) (i : nat) (s : jsstring) {struct n} : bool :=
          match n with
          | S n' => accept p i s (optional n') || k i s
          | O => k i s
          end in
      (fix required (n : nat) (i : nat) (s : jsstring) {struct n} : bool :=
         match n with
         | S n' => accept p i s (required n')
         | O => optional (max - min)%nat i s
         end) min i s
  | Then p q => accept p i s (fun i' s' => accept q i' s' k)
  end.

(** [regex.test(s)] of a regular expression without flags: a match is
    looked for from every index of [s]. *)
Definition test (p : pattern) (s : jsstring) : bool :=
  existsb (fun i => accept p i (skipn i s) (fun _ _ => true))
    (seq 0 (S (length s))).

End RegExp.

(** ** [user-formats.ts] *)

(** [/^[a-zA-Z0-9._-]+@[a-zA-Z0-9.-]+\.[a-zA-Z]{2,4}$/] *)
Definition emailRegex : RegExp.pattern :=
  let letters := [RegExp.Range 97 122; RegExp.Range 65 90] in
  let digits := [RegExp.Range 48 57] in
  RegExp.Then RegExp.Start
   (RegExp.Then
      (RegExp.Plus
         (RegExp.Class (letters ++ digits
                        ++ [RegExp.One 46; RegExp.One 95; RegExp.One 45])))
   (RegExp.Then (RegExp.Literal 64)
   (RegExp.Then
      (RegExp.Plus
         (RegExp.Class (letters ++ digits ++ [RegExp.One 46; RegExp.One 45])))
   (RegExp.Then (RegExp.Literal 46)
   (RegExp.Then (RegExp.Times 2 4 (RegExp.Class letters))
      RegExp.Finish))))).

Definition isValidEmail (email : jsstring) : bool :=
  RegExp.test emailRegex email.

(** [typeof v !== "string"] *)
Definition not_a_string (v : option jsvalue) : bool :=
  match v with
  | Some (JStr _) => false
  | _ => true
  end.

Definition isValidUserFormat (obj : object) : bool :=
  if not_a_string (member obj (str "id"))
     || not_a_string (member obj (str "username"))
     || not_a_string (member obj (str "firstname"))
     || not_a_string (member obj (str "lastname"))
     || match member obj (str "email") with
        | Some (JStr email) => negb (isValidEmail email)
        | other => not_a_string other
        end
  then false
  else true.

(** ** [user-models.ts] and [user-lib.ts] *)

Module User.

(** The document of a user; a field holds whatever the constructor was
    given, [None] being [undefined]. *)
Record User : Type := {
  _id : option jsvalue;
  userId : option jsvalue;
  firstName : option jsvalue;
  lastName : option jsvalue;
  username : option jsvalue;
  email : option jsvalue
}.

(** [new User(userFormat)] *)
Definition new (userFormat : object) : User := {|
  _id := member userFormat (str "id");
  userId := member userFormat (str "id");
  email := member userFormat (str "email");
  firstName := member userFormat (str "firstname");
  lastName := member userFormat (str "lastname");
  username := member userFormat (str "username")
|}.

End User.

Module FilteredUserView.

Record FilteredUserView : Type := {
  id : option jsvalue;
  username : option jsvalue;
  firstname : option jsvalue;
  lastname : option jsvalue;
  email : option jsvalue
}.

End FilteredUserView.

Definition createFilteredUserView (user : User.User)
  : FilteredUserView.FilteredUserView := {|
  FilteredUserView.id := User.userId user;
  FilteredUserView.username := User.username user;
  FilteredUserView.firstname := User.firstName user;
  FilteredUserView.lastname := User.lastName user;
  FilteredUserView.email := User.email user
|}.

(** ** Sizes and alphabets of what [encode] answers *)

(** The length of the base64 text of [n] octets. *)
Definition base64_length (n : nat) : nat := (4 * ((n + 2) / 3))%nat.

(** The length of the token of a JSON text of [n] characters: the base64
    text of the JSON text, a full stop and the 44 characters of the
    signature are padded to whole blocks of 16 octets. *)
Definition token_length (n : nat) : nat :=
  let plaintext := (base64_length n + 1 + 44)%nat in
  base64_length (16 * (plaintext / 16) + 16).

Definition lower_hex (c : N) : bool :=
  ((48 <=? c) && (c <=? 57)) || ((97 <=? c) && (c <=? 102)).

(** A code unit that the base64 decoder of [Buffer.from] skips: its low
    octet is neither in the table nor the padding. *)
Definition skipped (c : N) : bool :=
  match Base64.unbase64 (c mod 256) with
  | Some _ => false
  | None => negb (c mod 256 =? 61)
  end.

(** The URL-safe counterpart of a base64 character, and the upper-case
    counterpart of a hexadecimal digit. *)
Definition url_safe (c : N) : N :=
  if c =? 43 then 45 else if c =? 47 then 95 else c.

Definition upper_case (c : N) : N :=
  if (97 <=? c) && (c <=? 122) then c - 32 else c.

(** ** The test "works for random user data", lines 204 to 214

    The two handlers are called one after the other, as the requests of
    the test reach them: [encode] with [{ name: randomName }], [decode]
    with what [encode] answered; the test passes when both answer 200
    and the payload that comes back has [randomName] as its [name]. *)
Definition works_for_random_user_data (P : Platform) (w : world) : bool :=
  match generateRandomString 10 w with
  | (Some randomName, w) =>
      match encode P (JObj [(str "name", JStr randomName)]) w with
      | (Returned (send status (JObj encryptedJSON)), w) =>
          (status =? StatusCode.SuccessOK)
          && match decode P encryptedJSON w with
             | (Returned (send status (JObj decrypted)), _) =>
                 (status =? StatusCode.SuccessOK)
                 && match member decrypted (str "name") with
                    | Some (JStr name) => jsstring_eqb name randomName
                    | _ => false
                    end
             | _ => false
             end
      | _ => false
      end
  | (None, _) => false
  end.

(** The octets that [generateRandomString] turns into a given character. *)
Definition drawn_as (c : N) : list N :=
  filter (fun byte => fromCharCode (33 + byte mod 94) =? c)
    (map N.of_nat (seq 0 256)).

(** ** Values that JSON text gives back *)

(** The names in [l] are all different. *)
Fixpoint distinct (l : list jsstring) : bool :=
  match l with
  | [] => true
  | k :: r => negb (existsb (jsstring_eqb k) r) && distinct r
  end.

(** [k1] is enumerated before [k2] when both are properties of one
    object: an array index comes before a greater one and before every
    other name. *)
Definition precedes (k1 k2 : jsstring) : bool :=
  match Reader.array_index k1, Reader.array_index k2 with
  | Some i, Some j => i <? j
  | _, None => true
  | None, Some _ => false
  end.

(** The names in [l] are in the order in which an object enumerates its
    properties. *)
Fixpoint ordered (l : list jsstring) : bool :=
  match l with
  | [] => true
  | k :: r => forallb (precedes k) r && ordered r
  end.

(** The values that come back from their JSON text: there is no
    [BigInt] in them, the reader gives their numbers back (it does not
    for [-0], which is written [0], nor for the numbers that are not
    finite, which are written [null]), and the properties of an object
    have different names, in the order of enumeration. *)
Fixpoint readable (v : jsvalue) : bool :=
  match v with
  | JNull | JBool _ | JStr _ => true
  | JNum n =>
      match Reader.number (JSON.number_to_string n) with
      | Some (n', []) => Number.eqb n' n
      | _ => false
      end
  | JBigInt _ => false
  | JArr l => forallb readable l
  | JObj l =>
      distinct (map fst l) && ordered (map fst l)
      && forallb (fun kv => readable (snd kv)) l
  end.

(** How deep arrays and objects are nested in a value. *)
Fixpoint depth (v : jsvalue) : nat :=
  match v with
  | JArr l => S (fold_right (fun x d => Nat.max (depth x) d) O l)
  | JObj l => S (fold_right (fun kv d => Nat.max (depth (snd kv)) d) O l)
  | _ => O
  end.

(** What can follow a value in a JSON text: nothing, a comma, or the
    bracket or brace that closes an array or an object. *)
Definition closing (rest : jsstring) : bool :=
  match rest with
  | [] => true
  | c :: _ => (c =? 44) || (c =? 93) || (c =? 125)
  end.

(** A payload of the examples: an array index before the other names, a
    fraction, a negative number, a number written with an exponent, and
    a character of Latin-1. *)
Definition parcel : jsvalue :=
  JObj [(str "7", JArr [JBool true; JNull;
                        JNum (Number.of_decimal false 5 (-1));
                        JNum (Number.of_integer (-3)); JStr [233]]);
        (str "name", JStr (str "Ada"));
        (str "big", JNum (Number.of_decimal false 1 21))].

(** The first character of a JSON text. *)
Definition opening (c : N) : bool :=
  negb (Reader.whitespace c) && negb (c =? 93) && negb (c =? 125)
  && negb (c =? 44).

(** ** The shape of an e-mail address *)

(** The characters of an e-mail address that [isValidEmail] takes:
    before the [@], in the domain, and in its last label. *)
Definition letter (c : N) : bool :=
  ((97 <=? c) && (c <=? 122)) || ((65 <=? c) && (c <=? 90)).

Definition local_character (c : N) : bool :=
  letter c || ((48 <=? c) && (c <=? 57))
  || (c =? 46) || (c =? 95) || (c =? 45).

Definition domain_character (c : N) : bool :=
  letter c || ((48 <=? c) && (c <=? 57)) || (c =? 46) || (c =? 45).


(** ** A platform whose encryption key is one character too rich

    The key of the platform of the examples with its last character
    replaced by [é]: 32 characters, and 33 octets in UTF-8. *)
Definition misconfigured : Platform := {|
  SECRET_SIGNATURE_KEY := SECRET_SIGNATURE_KEY Node.platform;
  SECRET_ENCRYPTION_KEY := str "0123456789abcdefghijklmnopqrstu" ++ [233];
  aes256_encrypt_block := aes256_encrypt_block Node.platform;
  aes256_decrypt_block := aes256_decrypt_block Node.platform;
  hmac_sha256 := hmac_sha256 Node.platform;
  JSON_parse_text := JSON_parse_text Node.platform;
  Buffer_from_object := Buffer_from_object Node.platform
|}.


(** ** The user router

    Two handlers of the user router: the one that creates a user (lines
    225 to 248) and the one that answers with the QR code of a user
    (lines 67 to 96).  What they take from files that are not here is a
    variable: the [id] of a JWT payload, [hasStaffPerms] and
    [hasElevatedPerms], the status codes of [Constants], what [==] makes
    of a string and a value that is not a string, [UserModel.create],
    which gives the created document or throws ([None]), and
    [generateJwtToken] and [getJwtPayloadFromDB], which may throw as
    well. *)

Module UserRouter.

(** What a handler does, in order; [throws] is an exception that leaves
    it. *)
Inductive step : Type :=
| UserModel_create (user : User.User)
| console_error
| res_redirect (url : jsstring)
| res_send (status : N) (body : jsvalue)
| throws.

Section Handlers.

Variable JwtPayload : Type.
Variable id : JwtPayload -> jsstring.
Variable hasStaffPerms : JwtPayload -> bool.
Variable coerced_equal : jsstring -> jsvalue -> bool.
Variable hasElevatedPerms : JwtPayload -> bool.
Variable create : User.User -> option jsvalue.
Variable generateJwtToken : JwtPayload -> jsstring -> option jsstring.
Variable getJwtPayloadFromDB : jsstring -> option JwtPayload.
Variables SUCCESS FORBIDDEN BAD_REQUEST CREATED INTERNAL_ERROR : N.

(** [s != v] for a string [s]: two strings are compared as they are,
    [undefined] and [null] differ from every string. *)
Definition differs (s : jsstring) (v : option jsvalue) : bool :=
  match v with
  | Some (JStr t) => negb (jsstring_eqb s t)
  | None | Some JNull => true
  | Some other => negb (coerced_equal s other)
  end.

Definition error (name : string) : jsvalue :=
  JObj [(str "error", JStr (str name))].

Definition post (payload : JwtPayload) (userData : object) : list step :=
  if negb (hasStaffPerms payload)
     && differs (id payload) (member userData (str "id"))
  then [res_send FORBIDDEN (error "InvalidToken")]
  else if negb (isValidUserFormat userData)
  then [res_send BAD_REQUEST (error "InvalidParams")]
  else
    let user := User.new userData in
    match create user with
    | Some createdUser =>
        [UserModel_create user; res_send CREATED createdUser]
    | None =>
        [UserModel_create user; console_error;
         res_send INTERNAL_ERROR (error "InternalError")]
    end.

(** [{ id: id, qrInfo: `hackillinois://user?userToken=${token}` }] *)
Definition qr_code (id token : jsstring) : jsvalue :=
  JObj [(str "id", JStr id);
        (str "qrInfo", JStr (str "hackillinois://user?userToken=" ++ token))].

(** [res.status(status).send(body)] after the steps [run]: a response
    is sent once, and [send] throws on a response that has been sent
    (ERR_HTTP_HEADERS_SENT). *)
Definition sent (run : list step) : bool :=
  existsb (fun s => match s with
                    | res_send _ _ | res_redirect _ => true
                    | _ => false
                    end) run.

Definition send (run : list step) (status : N) (body : jsvalue) : list step :=
  if sent run then run ++ [throws] else run ++ [res_send status body].

(** [userRouter.get("/qr/:USERID", ...)]: the branch of the caller's own
    code does not return, so the handler goes on to its last line, the
    answer Forbidden, outside any [try]. *)
Definition get_qr_USERID (payload : JwtPayload) (USERID : option jsstring)
  : list step :=
  match USERID with
  | None | Some [] => [res_redirect (str "/user/qr/")]
  | Some targetUser =>
      let forbidden run := send run FORBIDDEN (JStr (str "Forbidden")) in
      if jsstring_eqb (id payload) targetUser then
        match generateJwtToken payload (str "20s") with
        | Some token =>
            forbidden (send [] SUCCESS (qr_code (id payload) token))
        | None => [throws]
        end
      else if hasElevatedPerms payload then
        match getJwtPayloadFromDB targetUser with
        | Some newPayload =>
            match generateJwtToken newPayload (str "20s") with
            | Some token => send [] SUCCESS (qr_code targetUser token)
            | None =>
                send [console_error] BAD_REQUEST (JStr (str "UserNotFound"))
            end
        | None =>
            send [console_error] BAD_REQUEST (JStr (str "UserNotFound"))
        end
      else forbidden []
  end.

End Handlers.

(** The answers a run of a handler sent. *)
Definition answers (run : list step) : list (N * jsvalue) :=
  flat_map (fun s => match s with
                     | res_send status body => [(status, body)]
                     | _ => []
                     end) run.

End UserRouter.

(** * Properties *)

(** ** Arithmetic and lists *)

Lemma div_mul_add x y d : y < d -> (x * d + y) / d = x.
Proof.
  intros H. rewrite N.div_add_l by lia. rewrite N.div_small by lia. lia.
Qed.

Lemma mod_mul_add x y d : y < d -> (x * d + y) mod d = y.
Proof.
  intros H. rewrite N.add_comm, N.Div0.mod_add. apply N.mod_small; lia.
Qed.

Ltac cases :=
  repeat match goal with
         | |- context [?a <? ?b] => destruct (N.ltb_spec a b)
         | |- context [?a <=? ?b] => destruct (N.leb_spec a b)
         | |- context [?a =? ?b] => destruct (N.eqb_spec a b)
         | _ => progress cbn [andb orb negb]
         end.

Lemma list_ind3 {A} (Q : list A -> Prop) :
  Q [] -> (forall a, Q [a]) -> (forall a b, Q [a; b]) ->
  (forall a b c r, Q r -> Q (a :: b :: c :: r)) ->
  forall l, Q l.
Proof.
  intros H0 H1 H2 H3. fix F 1.
  intros [|a [|b [|c r]]];
    [apply H0 | apply H1 | apply H2 | apply H3; apply F].
Qed.

Lemma list_ind2 {A} (Q : list A -> Prop) :
  Q [] -> (forall a, Q [a]) -> (forall a b r, Q r -> Q (a :: b :: r)) ->
  forall l, Q l.
Proof.
  intros H0 H1 H2. fix F 1.
  intros [|a [|b r]]; [apply H0 | apply H1 | apply H2; apply F].
Qed.

Lemma jsstring_eqb_refl s : jsstring_eqb s s = true.
Proof. unfold jsstring_eqb. destruct (list_eq_dec N.eq_dec s s); congruence. Qed.

Lemma jsstring_eqb_eq a b : jsstring_eqb a b = true <-> a = b.
Proof.
  unfold jsstring_eqb. destruct (list_eq_dec N.eq_dec a b); split; congruence.
Qed.

Lemma jsstring_eqb_neq a b : jsstring_eqb a b = false <-> a <> b.
Proof.
  unfold jsstring_eqb. destruct (list_eq_dec N.eq_dec a b); split; congruence.
Qed.

(** ** Base64 *)

(** A property of the values below a bound, decided by running through
    them. *)
Lemma below_check (f : N -> bool) (n : nat) :
  forallb f (map N.of_nat (seq 0 n)) = true ->
  forall x, x < N.of_nat n -> f x = true.
Proof.
  intros H x Hx. eapply forallb_forall in H; [exact H|].
  apply in_map_iff. exists (N.to_nat x). split; [apply N2Nat.id|].
  apply in_seq. lia.
Qed.

Lemma option_N_eqb_eq a b : option_N_eqb a b = true -> a = b.
Proof.
  destruct a, b; cbn; try discriminate; try reflexivity.
  intros H. apply N.eqb_eq in H. congruence.
Qed.

Lemma unbase64_digit v : Base64.unbase64 (Base64.digit v) = Some (v mod 64).
Proof.
  assert (H : v mod 64 < 64) by (apply N.mod_lt; lia).
  assert (E : Base64.digit v = Base64.digit (v mod 64))
    by (unfold Base64.digit; rewrite N.Div0.mod_mod; reflexivity).
  rewrite E. set (x := v mod 64) in *. clearbody x.
  apply option_N_eqb_eq.
  refine (below_check
            (fun x => option_N_eqb (Base64.unbase64 (Base64.digit x)) (Some x))
            64 _ x H).
  vm_compute. reflexivity.
Qed.

Lemma digit_alphabet v :
  let d := Base64.digit v in
  65 <= d <= 90 \/ 97 <= d <= 122 \/ 48 <= d <= 57 \/ d = 43 \/ d = 47.
Proof.
  assert (H : v mod 64 < 64) by (apply N.mod_lt; lia).
  assert (E : Base64.digit v = Base64.digit (v mod 64))
    by (unfold Base64.digit; rewrite N.Div0.mod_mod; reflexivity).
  cbv zeta. rewrite E. set (x := v mod 64) in *. clearbody x.
  assert (A : in_alphabet (Base64.digit x) = true).
  { refine (below_check (fun x => in_alphabet (Base64.digit x)) 64 _ x H).
    vm_compute. reflexivity. }
  unfold in_alphabet in A. set (d := Base64.digit x) in *. clearbody d.
  repeat match type of A with
         | (_ || _) = true => apply orb_true_iff in A; destruct A as [A|A]
         end;
    try (apply andb_true_iff in A; destruct A as [A1 A2];
         apply N.leb_le in A1; apply N.leb_le in A2; lia);
    apply N.eqb_eq in A; lia.
Qed.

Lemma digit_plain v : plain (Base64.digit v) /\ Base64.digit v <> 61.
Proof. pose proof (digit_alphabet v) as H. cbv zeta in H. unfold plain. lia. Qed.

Lemma digit_octet v : Base64.digit v mod 256 = Base64.digit v.
Proof.
  pose proof (digit_alphabet v) as H. cbv zeta in H.
  apply N.mod_small. lia.
Qed.

Lemma sextets_digit v r :
  Base64.sextets (Base64.digit v :: r) = v mod 64 :: Base64.sextets r.
Proof.
  cbn [Base64.sextets]. cbv zeta. rewrite digit_octet, unbase64_digit.
  destruct (N.eqb_spec (Base64.digit v) 61) as [E|_]; [|reflexivity].
  destruct (digit_plain v) as [_ N]. contradiction.
Qed.

Lemma sextets_padding r : Base64.sextets (61 :: r) = [].
Proof. reflexivity. Qed.

(** Name the quotient and the remainder of [a] by [d]. *)
Ltac quotients a d :=
  let q := fresh "q" in
  let r := fresh "r" in
  pose proof (N.div_mod a d ltac:(lia));
  pose proof (N.mod_lt a d ltac:(lia));
  set (q := a / d) in *; set (r := a mod d) in *;
  clearbody q r.

Lemma base64_decode_encode bs :
  octets bs -> Base64.decode (Base64.encode bs) = bs.
Proof.
  unfold Base64.decode. induction bs as [|a|a b|a b c r IH] using list_ind3;
    intros Hb.
  - reflexivity.
  - inversion_clear Hb as [|? ? Ha _]. unfold octet in Ha.
    cbn [Base64.encode]. rewrite !sextets_digit, sextets_padding.
    cbn [Base64.pack]. quotients a 4.
    rewrite (N.mod_small q 64) by lia.
    rewrite (N.mod_small (r * 16) 64) by lia.
    replace (r * 16) with (r * 16 + 0) by lia.
    rewrite div_mul_add by lia. f_equal. lia.
  - inversion_clear Hb as [|? ? Ha Hb']. inversion_clear Hb' as [|? ? Hb _].
    unfold octet in *.
    cbn [Base64.encode]. rewrite !sextets_digit, sextets_padding.
    cbn [Base64.pack]. quotients a 4. quotients b 16.
    rewrite (N.mod_small q 64) by lia.
    rewrite (N.mod_small (r * 16 + q0) 64) by lia.
    rewrite (N.mod_small (r0 * 4) 64) by lia.
    replace (r0 * 4) with (r0 * 4 + 0) by lia.
    rewrite !div_mul_add, !mod_mul_add by lia.
    repeat f_equal; lia.
  - inversion_clear Hb as [|? ? Ha Hb']. inversion_clear Hb' as [|? ? Hb Hc'].
    inversion_clear Hc' as [|? ? Hc Hr]. unfold octet in *.
    cbn [Base64.encode]. rewrite !sextets_digit. cbn [Base64.pack].
    rewrite IH by assumption.
    quotients a 4. quotients b 16. quotients c 64.
    rewrite (N.mod_small q 64) by lia.
    rewrite (N.mod_small (r0 * 16 + q0) 64) by lia.
    rewrite (N.mod_small (r1 * 4 + q1) 64) by lia.
    rewrite (N.mod_small r2 64) by lia.
    rewrite !div_mul_add, !mod_mul_add by lia.
    repeat f_equal; lia.
Qed.

Lemma base64_encode_plain bs : Forall plain (Base64.encode bs).
Proof.
  assert (P61 : plain 61) by (unfold plain; lia).
  induction bs as [|a|a b|a b c r IH] using list_ind3; cbn [Base64.encode];
    repeat (apply Forall_cons; [first [apply digit_plain | exact P61]|]);
    first [apply Forall_nil | exact IH].
Qed.

Lemma base64_encode_nonempty bs : bs <> [] -> Base64.encode bs <> [].
Proof. destruct bs as [|a [|b [|c r]]]; cbn; congruence. Qed.

Lemma base64_encode_longer bs :
  bs <> [] -> (length bs < length (Base64.encode bs))%nat.
Proof.
  induction bs as [|a|a b|a b c r IH] using list_ind3; intros H;
    cbn [Base64.encode length]; try lia; try congruence.
  destruct r as [|x r']; [cbn; lia|].
  assert (x :: r' <> []) by congruence. specialize (IH H0). cbn [length] in *. lia.
Qed.

Lemma atob_scan_digit v r count :
  atob_scan (Base64.digit v :: r) count 0 = atob_scan r (count + 1) 0.
Proof.
  assert (H : v mod 64 < 64) by (apply N.mod_lt; lia).
  assert (E : Base64.digit v = Base64.digit (v mod 64))
    by (unfold Base64.digit; rewrite N.Div0.mod_mod; reflexivity).
  rewrite E. set (x := v mod 64) in *. clearbody x.
  assert (A : atob_allowed (Base64.digit x)
              && negb (ascii_whitespace (Base64.digit x))
              && negb (Base64.digit x =? 61) = true).
  { refine (below_check
              (fun x => atob_allowed (Base64.digit x)
                        && negb (ascii_whitespace (Base64.digit x))
                        && negb (Base64.digit x =? 61)) 64 _ x H).
    vm_compute. reflexivity. }
  apply andb_true_iff in A. destruct A as [A A3].
  apply andb_true_iff in A. destruct A as [A1 A2].
  apply negb_true_iff in A2, A3.
  cbn [atob_scan]. rewrite A1, A2, A3. reflexivity.
Qed.

Lemma atob_scan_encode bs : forall count,
  exists k e, atob_scan (Base64.encode bs) count 0 = Some (count + 4 * k, e)
              /\ e <= 2 /\ (k = 0 -> e = 0).
Proof.
  induction bs as [|a|a b|a b c r IH] using list_ind3; intros count;
    cbn [Base64.encode].
  - exists 0, 0. cbn [atob_scan]. repeat split; try lia. f_equal. f_equal. lia.
  - exists 1, 2. rewrite !atob_scan_digit. cbn. repeat split; try lia.
    f_equal. f_equal. lia.
  - exists 1, 1. rewrite !atob_scan_digit. cbn. repeat split; try lia.
    f_equal. f_equal. lia.
  - rewrite !atob_scan_digit.
    destruct (IH (count + 1 + 1 + 1 + 1)) as (k & e & -> & He & Hk).
    exists (k + 1), e. repeat split; try lia. f_equal. f_equal. lia.
Qed.

Lemma atob_valid_encode bs : atob_valid (Base64.encode bs) = true.
Proof.
  unfold atob_valid.
  destruct (atob_scan_encode bs 0) as (k & e & -> & He & Hk).
  replace (0 + 4 * k) with (k * 4 + 0) by lia.
  rewrite mod_mul_add by lia. cbn [N.eqb].
  destruct (N.eq_dec k 0) as [->|Nk].
  - rewrite Hk by reflexivity. reflexivity.
  - assert (E : e = 0 \/ e = 1 \/ e = 2) by lia.
    destruct E as [->|[->| ->]].
    + replace (k * 4 + 0 - 0) with (k * 4 + 0) by lia.
      rewrite mod_mul_add by lia. reflexivity.
    + replace (k * 4 + 0 - 1) with ((k - 1) * 4 + 3) by lia.
      rewrite mod_mul_add by lia. reflexivity.
    + replace (k * 4 + 0 - 2) with ((k - 1) * 4 + 2) by lia.
      rewrite mod_mul_add by lia. reflexivity.
Qed.

(** ** Hex *)

Lemma unhex_digit v : Hex.unhex (Hex.digit v) = Some (v mod 16).
Proof.
  assert (H : v mod 16 < 16) by (apply N.mod_lt; lia).
  assert (E : Hex.digit v = Hex.digit (v mod 16))
    by (unfold Hex.digit; rewrite N.Div0.mod_mod; reflexivity).
  rewrite E. set (x := v mod 16) in *. clearbody x.
  apply option_N_eqb_eq.
  refine (below_check
            (fun x => option_N_eqb (Hex.unhex (Hex.digit x)) (Some x))
            16 _ x H).
  vm_compute. reflexivity.
Qed.

Lemma hex_digit_octet v : Hex.digit v mod 256 = Hex.digit v.
Proof.
  apply N.mod_small. unfold Hex.digit.
  pose proof (N.mod_lt v 16 ltac:(lia)).
  destruct (v mod 16 <? 10); lia.
Qed.

Lemma hex_decode_encode bs : octets bs -> Hex.decode (Hex.encode bs) = bs.
Proof.
  induction 1 as [|b r Hb _ IH]; [reflexivity|].
  unfold Hex.encode in *. cbn [flat_map app Hex.decode].
  rewrite !hex_digit_octet, !unhex_digit, IH. unfold octet in Hb. quotients b 16.
  rewrite (N.mod_small q 16), (N.mod_small r0 16) by lia.
  f_equal. lia.
Qed.

Lemma hex_encode_length bs : length (Hex.encode bs) = (2 * length bs)%nat.
Proof.
  induction bs as [|b r IH]; [reflexivity|].
  unfold Hex.encode in *. cbn [flat_map app length]. rewrite IH. lia.
Qed.

(** ** UTF-8 on ASCII *)

Lemma plain_ascii s : Forall plain s -> Forall ascii s.
Proof. apply Forall_impl. intros c [H _]. exact H. Qed.

Lemma utf8_encode_ascii s : Forall ascii s -> Utf8.encode s = s.
Proof.
  induction 1 as [|c r Hc _ IH]; [reflexivity|].
  unfold ascii in Hc. cbn [Utf8.encode].
  unfold Utf8.high_surrogate, Utf8.low_surrogate, Utf8.of_code_point.
  rewrite IH.
  destruct (N.leb_spec 0xD800 c); [lia|]. cbn [andb].
  destruct (N.leb_spec 0xDC00 c); [lia|]. cbn [andb].
  destruct (N.ltb_spec c 0x80); [reflexivity|lia].
Qed.

Lemma utf8_decode_ascii s : Forall ascii s -> Utf8.decode s = s.
Proof.
  induction 1 as [|c r Hc _ IH]; [reflexivity|].
  unfold ascii in Hc. cbn [Utf8.decode]. rewrite IH.
  destruct (N.ltb_spec c 0x80); [reflexivity|lia].
Qed.

Lemma ascii_octets s : Forall ascii s -> octets s.
Proof. apply Forall_impl. unfold ascii, octet. intros; lia. Qed.

(** ** [split] *)

Lemma split_plain s : Forall plain s -> split 46 s = [s].
Proof.
  induction 1 as [|c r [_ Hc] _ IH]; [reflexivity|].
  cbn [split]. rewrite IH.
  destruct (N.eqb_spec c 46); [contradiction|reflexivity].
Qed.

Lemma split_plain_app a b :
  Forall plain a -> split 46 (a ++ 46 :: b) = a :: split 46 b.
Proof.
  induction 1 as [|c r [_ Hc] _ IH]; [reflexivity|].
  cbn [app split]. rewrite IH.
  destruct (N.eqb_spec c 46); [contradiction|reflexivity].
Qed.

Lemma split_nonempty sep s : split sep s <> [].
Proof.
  destruct s as [|c r]; cbn [split]; [congruence|].
  destruct (c =? sep); [congruence|]. destruct (split sep r); congruence.
Qed.

(** ** Exclusive or *)

Lemma lxor_octet a b : octet a -> octet b -> octet (N.lxor a b).
Proof.
  unfold octet. intros Ha Hb.
  destruct (N.eq_dec (N.lxor a b) 0) as [->|Nz]; [lia|].
  change 256 with (2 ^ 8). apply N.log2_lt_pow2; [lia|].
  eapply N.le_lt_trans; [apply N.log2_lxor|].
  apply N.max_lub_lt.
  - destruct (N.eq_dec a 0) as [->|Na]; [cbn; lia|].
    apply N.log2_lt_pow2; [lia|exact Ha].
  - destruct (N.eq_dec b 0) as [->|Nb]; [cbn; lia|].
    apply N.log2_lt_pow2; [lia|exact Hb].
Qed.

Lemma xor_bytes_length a b :
  length (xor_bytes a b) = Nat.min (length a) (length b).
Proof.
  revert b. induction a as [|x a IH]; intros [|y b]; cbn [xor_bytes length];
    try reflexivity. rewrite IH. reflexivity.
Qed.

Lemma xor_bytes_octets a b : octets a -> octets b -> octets (xor_bytes a b).
Proof.
  intros Ha. revert b. induction Ha as [|x a Hx _ IH]; intros b Hb.
  - constructor.
  - destruct Hb as [|y b Hy Hb]; cbn [xor_bytes]; constructor.
    + apply lxor_octet; assumption.
    + apply IH; assumption.
Qed.

Lemma xor_bytes_cancel a d :
  length a = length d -> xor_bytes (xor_bytes a d) d = a.
Proof.
  revert d. induction a as [|x a IH]; intros [|y d] H; cbn [length] in H;
    try discriminate; [reflexivity|].
  cbn [xor_bytes]. rewrite IH by lia.
  rewrite N.lxor_assoc, N.lxor_nilpotent, N.lxor_0_r. reflexivity.
Qed.

Lemma xor_bytes_assoc a b c :
  xor_bytes (xor_bytes a b) c = xor_bytes a (xor_bytes b c).
Proof.
  revert b c. induction a as [|x a IH]; intros [|y b] [|z c];
    cbn [xor_bytes]; try reflexivity.
  rewrite IH, N.lxor_assoc. reflexivity.
Qed.

Lemma xor_bytes_self a : xor_bytes a a = repeat 0 (length a).
Proof.
  induction a as [|x a IH]; [reflexivity|].
  cbn [xor_bytes length repeat]. rewrite IH, N.lxor_nilpotent. reflexivity.
Qed.

Lemma xor_bytes_zero a n : (length a <= n)%nat -> xor_bytes a (repeat 0 n) = a.
Proof.
  revert n. induction a as [|x a IH]; intros [|n] H; cbn [length] in H;
    try reflexivity; [lia|].
  cbn [repeat xor_bytes]. rewrite IH by lia. rewrite N.lxor_0_r. reflexivity.
Qed.

(** ** Padding *)

Lemma last_repeat {A} (x d : A) n : (0 < n)%nat -> last (repeat x n) d = x.
Proof.
  induction n as [|n IH]; [lia|]. intros _.
  destruct n as [|n]; [reflexivity|].
  change (repeat x (S (S n))) with (x :: repeat x (S n)).
  change (last (x :: repeat x (S n)) d) with (last (repeat x (S n)) d).
  apply IH. lia.
Qed.

Lemma last_app_nonempty {A} (l m : list A) d : m <> [] -> last (l ++ m) d = last m d.
Proof.
  intros Hm. induction l as [|x l IH]; [reflexivity|].
  cbn [app]. destruct (l ++ m) eqn:E.
  - destruct l; [cbn in E; contradiction|discriminate].
  - rewrite <- IH. reflexivity.
Qed.

Lemma forallb_repeat {A} (f : A -> bool) x n :
  f x = true -> forallb f (repeat x n) = true.
Proof. intros H. induction n; cbn; [reflexivity|]. rewrite H, IHn. reflexivity. Qed.

Lemma pkcs7_pad_length partial :
  (length partial < 16)%nat -> length (pkcs7_pad partial) = 16%nat.
Proof.
  intros H. unfold pkcs7_pad. rewrite length_app, repeat_length. lia.
Qed.

Lemma pkcs7_pad_octets partial :
  octets partial -> octets (pkcs7_pad partial).
Proof.
  intros H. unfold pkcs7_pad. apply Forall_app. split; [exact H|].
  apply Forall_forall. intros x Hx. apply repeat_spec in Hx. subst x.
  unfold octet. lia.
Qed.

Lemma pkcs7_unpad_pad partial :
  (length partial < 16)%nat -> pkcs7_unpad (pkcs7_pad partial) = Some partial.
Proof.
  intros H. unfold pkcs7_unpad, pkcs7_pad.
  set (n := (16 - length partial)%nat).
  assert (Hn : (0 < n <= 16)%nat) by (unfold n; lia).
  rewrite last_app_nonempty
    by (destruct n; [lia|cbn; congruence]).
  rewrite last_repeat by lia.
  destruct (N.eqb_spec (N.of_nat n) 0); [lia|].
  destruct (N.ltb_spec 16 (N.of_nat n)); [lia|]. cbn [orb].
  rewrite Nat2N.id.
  replace (16 - n)%nat with (length partial) by (unfold n; lia).
  rewrite skipn_app, skipn_all, Nat.sub_diag. cbn [skipn app].
  rewrite forallb_repeat by apply N.eqb_refl.
  rewrite firstn_app, firstn_all, Nat.sub_diag. cbn [firstn].
  rewrite app_nil_r. reflexivity.
Qed.

(** ** Cipher block chaining *)

Lemma firstn_plus {A} (a b : nat) (l : list A) :
  firstn (a + b) l = firstn a l ++ firstn b (skipn a l).
Proof.
  revert l. induction a as [|a IH]; intros l; [reflexivity|].
  destruct l as [|x l]; cbn [Nat.add firstn skipn app].
  - rewrite firstn_nil. reflexivity.
  - rewrite IH. reflexivity.
Qed.

Lemma octets_firstn n bs : octets bs -> octets (firstn n bs).
Proof.
  intros H. rewrite <- (firstn_skipn n bs) in H.
  apply Forall_app in H. apply H.
Qed.

Lemma octets_skipn n bs : octets bs -> octets (skipn n bs).
Proof.
  intros H. rewrite <- (firstn_skipn n bs) in H.
  apply Forall_app in H. apply H.
Qed.

Section Chaining.

Variable P : Platform.
Variable key : bytes.
Let E := aes256_encrypt_block P key.
Let D := aes256_decrypt_block P key.

Hypothesis D_E : forall block,
  length block = 16%nat -> octets block -> D (E block) = block.
Hypothesis E_length : forall block,
  length block = 16%nat -> length (E block) = 16%nat.
Hypothesis E_octets : forall block,
  length block = 16%nat -> octets block -> octets (E block).

Lemma cbc_encrypt_shape n : forall chain data,
  length chain = 16%nat -> octets chain -> octets data ->
  (16 * n <= length data)%nat ->
  let r := cbc_encrypt P n key chain data in
  length (fst r) = (16 * n)%nat /\ octets (fst r)
  /\ length (snd r) = 16%nat /\ octets (snd r).
Proof.
  induction n as [|n IH]; intros chain data Hc Oc Od Hn; cbn [cbc_encrypt].
  - cbn. repeat split; auto. constructor.
  - set (c := aes256_encrypt_block P key (xor_bytes (firstn 16 data) chain)).
    assert (Hx : length (xor_bytes (firstn 16 data) chain) = 16%nat)
      by (rewrite xor_bytes_length, length_firstn; lia).
    assert (Ox : octets (xor_bytes (firstn 16 data) chain))
      by (apply xor_bytes_octets; [apply octets_firstn|]; assumption).
    assert (Lc : length c = 16%nat) by (apply E_length; exact Hx).
    assert (Oc' : octets c) by (apply E_octets; assumption).
    specialize (IH c (skipn 16 data) Lc Oc' (octets_skipn _ _ Od)).
    rewrite length_skipn in IH. specialize (IH ltac:(lia)).
    destruct (cbc_encrypt P n key c (skipn 16 data)) as [out last].
    cbn [fst snd] in *. destruct IH as (L1 & O1 & L2 & O2).
    repeat split; auto.
    + rewrite length_app. lia.
    + apply Forall_app. split; assumption.
Qed.

Lemma cbc_decrypt_encrypt n : forall chain data rest,
  length chain = 16%nat -> octets chain -> octets data ->
  (16 * n <= length data)%nat ->
  cbc_decrypt P n key chain (fst (cbc_encrypt P n key chain data) ++ rest)
  = (firstn (16 * n) data, snd (cbc_encrypt P n key chain data)).
Proof.
  induction n as [|n IH]; intros chain data rest Hc Oc Od Hn;
    cbn [cbc_encrypt cbc_decrypt].
  - reflexivity.
  - set (c := aes256_encrypt_block P key (xor_bytes (firstn 16 data) chain)).
    assert (Hx : length (xor_bytes (firstn 16 data) chain) = 16%nat)
      by (rewrite xor_bytes_length, length_firstn; lia).
    assert (Ox : octets (xor_bytes (firstn 16 data) chain))
      by (apply xor_bytes_octets; [apply octets_firstn|]; assumption).
    assert (Lc : length c = 16%nat) by (apply E_length; exact Hx).
    assert (Oc' : octets c) by (apply E_octets; assumption).
    specialize (IH c (skipn 16 data) rest Lc Oc' (octets_skipn _ _ Od)).
    rewrite length_skipn in IH. specialize (IH ltac:(lia)).
    destruct (cbc_encrypt P n key c (skipn 16 data)) as [out last].
    cbn [fst snd] in *.
    rewrite <- app_assoc.
    rewrite firstn_app, Lc, Nat.sub_diag, firstn_all2 by lia.
    cbn [firstn]. rewrite app_nil_r.
    rewrite skipn_app, Lc, Nat.sub_diag, skipn_all2 by lia.
    cbn [skipn app]. rewrite IH.
    fold c. unfold c at 1. fold E D. rewrite D_E by assumption.
    rewrite xor_bytes_cancel by (rewrite length_firstn; lia).
    replace (16 * S n)%nat with (16 + 16 * n)%nat by lia.
    rewrite firstn_plus. reflexivity.
Qed.

(** Under another initial block only the first block of plaintext
    changes, by the difference of the two initial blocks. *)
Lemma cbc_decrypt_foreign m : forall chain chain' data rest,
  length chain = 16%nat -> octets chain ->
  length chain' = 16%nat -> octets data ->
  (16 * S m <= length data)%nat ->
  cbc_decrypt P (S m) key chain'
    (fst (cbc_encrypt P (S m) key chain data) ++ rest)
  = (xor_bytes (firstn 16 data) (xor_bytes chain chain')
     ++ firstn (16 * m) (skipn 16 data),
     snd (cbc_encrypt P (S m) key chain data)).
Proof.
  intros chain chain' data rest Hc Oc Hc' Od Hn.
  cbn [cbc_encrypt cbc_decrypt].
  set (c := aes256_encrypt_block P key (xor_bytes (firstn 16 data) chain)).
  assert (Hx : length (xor_bytes (firstn 16 data) chain) = 16%nat)
    by (rewrite xor_bytes_length, length_firstn; lia).
  assert (Ox : octets (xor_bytes (firstn 16 data) chain))
    by (apply xor_bytes_octets; [apply octets_firstn|]; assumption).
  assert (Lc : length c = 16%nat) by (apply E_length; exact Hx).
  assert (Oc' : octets c) by (apply E_octets; assumption).
  pose proof (cbc_decrypt_encrypt m c (skipn 16 data) rest Lc Oc'
                (octets_skipn _ _ Od)) as IH.
  rewrite length_skipn in IH. specialize (IH ltac:(lia)).
  destruct (cbc_encrypt P m key c (skipn 16 data)) as [out last].
  cbn [fst snd] in *.
  rewrite <- app_assoc.
  rewrite firstn_app, Lc, Nat.sub_diag, firstn_all2 by lia.
  cbn [firstn]. rewrite app_nil_r.
  rewrite skipn_app, Lc, Nat.sub_diag, skipn_all2 by lia.
  cbn [skipn app]. rewrite IH.
  fold c. unfold c at 1. fold E D. rewrite D_E by assumption.
  rewrite xor_bytes_assoc. reflexivity.
Qed.

End Chaining.

(** ** The pieces of a split text *)

Lemma split_pieces text :
  nth_error (split 46 text) 0 = Some (before_dot text)
  /\ nth_error (split 46 text) 1 = option_map before_dot (after_dot text).
Proof.
  induction text as [|c r [IH0 IH1]]; [split; reflexivity|].
  cbn [split before_dot after_dot].
  destruct (N.eqb_spec c 46) as [_|_].
  - split; [reflexivity|]. cbn [nth_error option_map]. exact IH0.
  - destruct (split 46 r) as [|h t] eqn:E.
    + discriminate.
    + cbn [nth_error] in *. injection IH0 as ->. split; [reflexivity|exact IH1].
Qed.

Lemma before_dot_plain a : Forall plain a -> before_dot a = a.
Proof.
  induction 1 as [|c r [_ Hc] _ IH]; [reflexivity|].
  cbn [before_dot]. rewrite IH.
  destruct (N.eqb_spec c 46); [contradiction|reflexivity].
Qed.

Lemma before_dot_app a b : Forall plain a -> before_dot (a ++ 46 :: b) = a.
Proof.
  induction 1 as [|c r [_ Hc] _ IH]; [reflexivity|].
  cbn [app before_dot]. rewrite IH.
  destruct (N.eqb_spec c 46); [contradiction|reflexivity].
Qed.

Lemma after_dot_app a b : Forall plain a -> after_dot (a ++ 46 :: b) = Some b.
Proof.
  induction 1 as [|c r [_ Hc] _ IH]; [reflexivity|].
  cbn [app after_dot]. rewrite IH.
  destruct (N.eqb_spec c 46); [contradiction|reflexivity].
Qed.

Lemma after_dot_none s : ~ In 46 s -> after_dot s = None.
Proof.
  induction s as [|c r IH]; intros H; [reflexivity|].
  cbn [after_dot]. destruct (N.eqb_spec c 46) as [->|_].
  - exfalso. apply H. left. reflexivity.
  - apply IH. intros I. apply H. right. exact I.
Qed.

Lemma before_dot_none s : ~ In 46 s -> before_dot s = s.
Proof.
  induction s as [|c r IH]; intros H; [reflexivity|].
  cbn [before_dot]. destruct (N.eqb_spec c 46) as [->|_].
  - exfalso. apply H. left. reflexivity.
  - rewrite IH; [reflexivity|]. intros I. apply H. right. exact I.
Qed.

(** ** Running the handlers *)

Ltac run :=
  unfold decode, decode_decrypt, decode_verify, encode, JSON_stringify, btoa,
    atob, JSON_parse, Buffer_from, createHmac, hmac_update, hmac_digest,
    createCipheriv, cipher_update, cipher_final, createDecipheriv,
    decipher_update, decipher_final, toString, randomBytes, try_catch, bind,
    Buffer_from_string,
    record, ret, throw;
  cbv beta iota.

(** Case analysis on whatever blocks the computation. *)
Ltac branch :=
  match goal with
  | |- context [match ?x with _ => _ end] =>
      lazymatch x with
      | context [match _ with _ => _ end] => fail
      | _ => destruct x eqn:?
      end
  end; cbv beta iota; cbn [fst snd calls logged].

Section Runs.

Variable P : Platform.

Lemma decode_verify_verdict decrypted w :
  fst (decode_verify P decrypted w) = verdict P decrypted.
Proof.
  unfold verdict. run.
  destruct (split_pieces (Utf8.decode decrypted)) as [-> ->].
  destruct (before_dot (Utf8.decode decrypted)) as [|c encoded];
    [reflexivity|].
  cbv beta iota. unfold signature_of. cbn [hmac_key hmac_data app].
  repeat branch; reflexivity.
Qed.

Lemma decode_verify_steady decrypted : steady (decode_verify P decrypted).
Proof. intros w w'. rewrite !decode_verify_verdict. reflexivity. Qed.

Lemma decode_decrypt_steady t c : steady (decode_decrypt P t c).
Proof.
  intros w w'. run. cbn [cipher_pending cipher_key cipher_chain app].
  repeat branch; try reflexivity; try congruence.
Qed.

Lemma decode_missing body w :
  truthy (member body (str "token")) = false
  \/ truthy (member body (str "context")) = false ->
  decode P body w = (Returned (bad_request "MissingParams"), w).
Proof.
  intros H. unfold decode.
  destruct H as [-> | ->]; cbn [negb orb]; [reflexivity|].
  rewrite orb_true_r. reflexivity.
Qed.

Lemma decode_present body w :
  truthy (member body (str "token")) = true ->
  truthy (member body (str "context")) = true ->
  decode P body w
  = try_catch
      (decrypted <- decode_decrypt P (member body (str "token"))
                      (member body (str "context")) ;;
       decode_verify P decrypted)
      (fun _ => ret (bad_request "InvalidParams")) w.
Proof. intros Ht Hc. unfold decode. rewrite Ht, Hc. reflexivity. Qed.

(** The answer of [decode] when both fields are there: the verdict on
    what the token decrypts to, with every exception turned into
    [InvalidParams]. *)
Lemma decode_result body w :
  truthy (member body (str "token")) = true ->
  truthy (member body (str "context")) = true ->
  fst (decode P body w)
  = caught
      match fst (decode_decrypt P (member body (str "token"))
                   (member body (str "context")) w) with
      | Returned decrypted => verdict P decrypted
      | Thrown e => Thrown e
      end.
Proof.
  intros Ht Hc. rewrite decode_present by assumption.
  unfold try_catch, bind.
  destruct (decode_decrypt P _ _ w) as [[d|e] w']; cbn [fst]; [|reflexivity].
  rewrite <- (decode_verify_verdict d w').
  destruct (decode_verify P d w') as [[r|e] w'']; reflexivity.
Qed.

Lemma decode_returns body w : exists r, fst (decode P body w) = Returned r.
Proof.
  destruct (truthy (member body (str "token"))) eqn:Ht;
    [destruct (truthy (member body (str "context"))) eqn:Hc|].
  - rewrite decode_result by assumption.
    destruct (fst (decode_decrypt P _ _ w)) as [d|e]; cbn [caught].
    + destruct (verdict P d); cbn [caught]; eauto.
    + eauto.
  - rewrite decode_missing by auto. cbn [fst]. eauto.
  - rewrite decode_missing by auto. cbn [fst]. eauto.
Qed.

Lemma decode_decrypt_calls t c w decrypted :
  fst (decode_decrypt P t c w) = Returned decrypted ->
  calls (snd (decode_decrypt P t c w)) = calls w ++ decrypt_calls.
Proof.
  run. cbn [cipher_pending cipher_key cipher_chain app].
  repeat branch; intros H; try discriminate H;
    unfold decrypt_calls; rewrite <- !app_assoc; reflexivity.
Qed.

(** The calls of lines 85 to 102 when [encoded] is not empty: the HMAC
    of the decoded octets of [encoded] is computed, and only when it is
    the signature found are [atob] and [JSON.parse] called. *)
Lemma decode_verify_calls decrypted w :
  let text := Utf8.decode decrypted in
  let encoded := before_dot text in
  let signature := option_map before_dot (after_dot text) in
  encoded <> [] ->
  exists rest,
    calls (snd (decode_verify P decrypted w))
    = calls w ++ verify_calls P encoded ++ rest
    /\ (loose_neq signature (signature_of P encoded) = true -> rest = [])
    /\ (loose_neq signature (signature_of P encoded) = false ->
        rest = [call_atob]
        \/ rest = [call_atob; call_JSON_parse]).
Proof.
  cbv zeta. run.
  destruct (split_pieces (Utf8.decode decrypted)) as [-> ->].
  destruct (before_dot (Utf8.decode decrypted)) as [|c encoded];
    [congruence|]. intros _.
  cbv beta iota. unfold signature_of, verify_calls.
  cbn [hmac_key hmac_data app].
  destruct (loose_neq _ _).
  - exists []. cbn [snd calls logged]. rewrite <- !app_assoc.
    repeat split; try reflexivity. discriminate.
  - destruct (atob_valid (c :: encoded)); cbv beta iota.
    + exists [call_atob; call_JSON_parse].
      destruct (JSON_parse_text P _); cbn [snd calls logged];
        rewrite <- !app_assoc; repeat split; auto; discriminate.
    + exists [call_atob]. cbn [snd calls logged]. rewrite <- !app_assoc.
      repeat split; auto; discriminate.
Qed.

Lemma caught_verdict decrypted :
  caught (verdict P decrypted) = Returned (bad_request "InvalidParams")
  \/ caught (verdict P decrypted) = Returned (bad_request "Unauthorized")
  \/ exists v, caught (verdict P decrypted)
               = Returned (send StatusCode.SuccessOK v).
Proof.
  unfold verdict.
  destruct (before_dot _); [left; reflexivity|].
  destruct (loose_neq _ _); [right; left; reflexivity|].
  destruct (atob_valid _); [|left; reflexivity].
  destruct (JSON_parse_text P _) as [v|]; [|left; reflexivity].
  right; right. exists v. reflexivity.
Qed.

Lemma random_bytes_length n rnd : length (random_bytes n rnd) = n.
Proof. unfold random_bytes. rewrite length_map, length_seq. reflexivity. Qed.

Lemma random_bytes_octets n rnd : octets (random_bytes n rnd).
Proof.
  unfold random_bytes. apply Forall_forall. intros x Hx.
  apply in_map_iff in Hx. destruct Hx as (i & <- & _).
  unfold octet. apply N.mod_lt. lia.
Qed.

Lemma encode_run body text w :
  JSON.serialize body = Some text ->
  latin1 text = true ->
  length (encryption_key P) = 32%nat ->
  encode P body w
  = (Returned (send StatusCode.SuccessOK
                 (JObj (issued P text (random_bytes 16 (entropy w))))),
     {| calls := calls w ++ encode_calls P text;
        entropy := fun i => entropy w (i + 16)%nat |}).
Proof.
  intros Hs Hl Hk. run. rewrite Hs. cbv beta iota. rewrite Hl.
  cbv beta iota. rewrite random_bytes_length.
  unfold encryption_key in Hk. rewrite Hk. cbn [Nat.eqb negb].
  cbv beta iota. cbn [cipher_pending cipher_key cipher_chain app hmac_key hmac_data].
  unfold issued, issued_token, sealed, aes_256_cbc, signed_block,
    signature_of, encryption_key.
  destruct (cbc_encrypt P _ _ _ _) as [out chain].
  cbv beta iota. cbn [cipher_pending cipher_key cipher_chain].
  f_equal. unfold logged, drawn, encode_calls. cbn [calls entropy].
  f_equal. rewrite <- !app_assoc. reflexivity.
Qed.

End Runs.

Lemma xor_head_same iv data :
  length iv = 16%nat -> xor_head (xor_bytes iv iv) data = data.
Proof.
  intros H. unfold xor_head. rewrite xor_bytes_self, H.
  rewrite xor_bytes_zero by (rewrite length_firstn; lia).
  apply firstn_skipn.
Qed.

(** ** Tokens that [encode] issued *)

Section Issued.

Variable P : Platform.
Hypothesis L : Laws P.

Let key := encryption_key P.

Lemma aes_256_cbc_shape iv data :
  length iv = 16%nat -> octets iv -> octets data ->
  length (aes_256_cbc P key iv data) = (16 * (length data / 16) + 16)%nat
  /\ octets (aes_256_cbc P key iv data).
Proof.
  intros Hi Oi Od. unfold aes_256_cbc.
  set (n := (length data / 16)%nat).
  assert (Hn : (16 * n <= length data)%nat)
    by (unfold n; apply Nat.Div0.mul_div_le).
  assert (Hr : (length data < 16 * n + 16)%nat).
  { unfold n. pose proof (Nat.div_mod_eq (length data) 16).
    pose proof (Nat.mod_upper_bound (length data) 16). lia. }
  pose proof (cbc_encrypt_shape P key (encrypt_block_length P L)
                (encrypt_block_octets P L) n iv data Hi Oi Od Hn) as Sh.
  cbv zeta in Sh.
  destruct (cbc_encrypt P n key iv data) as [out chain].
  cbn [fst snd] in Sh. destruct Sh as (L1 & O1 & L2 & O2).
  assert (Lp : length (pkcs7_pad (skipn (16 * n) data)) = 16%nat)
    by (apply pkcs7_pad_length; rewrite length_skipn; lia).
  assert (Lx : length (xor_bytes (pkcs7_pad (skipn (16 * n) data)) chain)
               = 16%nat) by (rewrite xor_bytes_length; lia).
  split.
  - rewrite length_app, L1. f_equal.
    apply (encrypt_block_length P L). exact Lx.
  - apply Forall_app. split; [exact O1|].
    apply (encrypt_block_octets P L); [exact Lx|].
    apply xor_bytes_octets; [|exact O2].
    apply pkcs7_pad_octets, octets_skipn, Od.
Qed.

(** What a token decrypts to under a context of 16 octets: the
    plaintext with the difference of the two IVs added to its first 16
    octets. *)
Lemma decrypt_under data iv iv' w :
  length iv = 16%nat -> octets iv ->
  length iv' = 16%nat -> octets iv' ->
  octets data -> (16 <= length data)%nat ->
  fst (decode_decrypt P (Some (JStr (sealed P data iv)))
         (Some (JStr (Hex.encode iv'))) w)
  = Returned (xor_head (xor_bytes iv iv') data).
Proof.
  intros Hi Oi Hi' Oi' Od Hd.
  destruct (aes_256_cbc_shape iv data Hi Oi Od) as [Lct Oct].
  unfold sealed, key in *. run. rewrite base64_decode_encode by exact Oct.
  rewrite hex_decode_encode by exact Oi'.
  rewrite Hi'. fold (encryption_key P).
  rewrite (encryption_key_length P L). cbn [Nat.eqb negb].
  cbv beta iota. cbn [cipher_pending cipher_key cipher_chain app].
  rewrite Lct.
  set (n := (length data / 16)%nat) in *.
  assert (Hn : (16 * n <= length data)%nat)
    by (unfold n; apply Nat.Div0.mul_div_le).
  assert (Hr : (length data < 16 * n + 16)%nat).
  { unfold n. pose proof (Nat.div_mod_eq (length data) 16).
    pose proof (Nat.mod_upper_bound (length data) 16). lia. }
  destruct n as [|m] eqn:En; [lia|].
  replace (16 * S m + 16)%nat with (S (S m) * 16)%nat by lia.
  rewrite Nat.Div0.mod_mul, Nat.div_mul by lia.
  cbn [Nat.eqb]. replace (S (S m) - 1)%nat with (S m) by lia.
  unfold aes_256_cbc. fold n. rewrite En.
  pose proof (cbc_decrypt_foreign P (encryption_key P) (decrypt_encrypt_block P L)
                (encrypt_block_length P L) (encrypt_block_octets P L)
                m iv iv' data) as F.
  pose proof (cbc_encrypt_shape P (encryption_key P) (encrypt_block_length P L)
                (encrypt_block_octets P L) (S m) iv data Hi Oi Od Hn) as Sh.
  cbv zeta in Sh.
  destruct (cbc_encrypt P (S m) (encryption_key P) iv data) as [out chain].
  cbn [fst snd] in *. destruct Sh as (L1 & O1 & L2 & O2).
  cbv beta iota.
  rewrite (F _ Hi Oi Hi' Od Hn). cbv beta iota.
  cbn [cipher_pending cipher_key cipher_chain].
  rewrite skipn_app, L1, Nat.sub_diag, skipn_all2 by lia.
  rewrite skipn_O. cbn [app].
  assert (Lp : length (pkcs7_pad (skipn (16 * S m) data)) = 16%nat)
    by (apply pkcs7_pad_length; rewrite length_skipn; lia).
  assert (Lx : length (xor_bytes (pkcs7_pad (skipn (16 * S m) data)) chain)
               = 16%nat) by (rewrite xor_bytes_length; lia).
  rewrite (encrypt_block_length P L) by exact Lx. cbn [Nat.eqb negb].
  rewrite (decrypt_encrypt_block P L); [|exact Lx|].
  2:{ apply xor_bytes_octets; [|exact O2].
      apply pkcs7_pad_octets, octets_skipn, Od. }
  rewrite xor_bytes_cancel by lia.
  rewrite pkcs7_unpad_pad by (rewrite length_skipn; lia).
  cbn [fst]. f_equal. unfold xor_head.
  rewrite <- app_assoc. f_equal.
  rewrite <- (firstn_skipn (16 * m) (skipn 16 data)) at 2.
  f_equal. rewrite skipn_skipn. f_equal. lia.
Qed.

(** A message shorter than a block is one padded block. *)
Lemma decrypt_short data iv w :
  length iv = 16%nat -> octets iv ->
  octets data -> (length data < 16)%nat ->
  fst (decode_decrypt P (Some (JStr (sealed P data iv)))
         (Some (JStr (Hex.encode iv))) w)
  = Returned data.
Proof.
  intros Hi Oi Od Hd.
  destruct (aes_256_cbc_shape iv data Hi Oi Od) as [Lct Oct].
  unfold sealed, key in *. run. rewrite base64_decode_encode by exact Oct.
  rewrite hex_decode_encode by exact Oi.
  rewrite Hi. fold (encryption_key P).
  rewrite (encryption_key_length P L). cbn [Nat.eqb negb].
  cbv beta iota. cbn [cipher_pending cipher_key cipher_chain app].
  rewrite Lct. rewrite (Nat.div_small (length data) 16) by exact Hd.
  cbn [Nat.mul Nat.add Nat.modulo Nat.divmod Nat.div fst snd Nat.sub
         Nat.eqb cbc_decrypt].
  cbv beta iota. cbn [cipher_pending cipher_key cipher_chain].
  rewrite skipn_O. unfold aes_256_cbc.
  rewrite (Nat.div_small (length data) 16) by exact Hd.
  cbn [cbc_encrypt Nat.mul]. rewrite skipn_O. cbn [app].
  assert (Lp : length (pkcs7_pad data) = 16%nat)
    by (apply pkcs7_pad_length; exact Hd).
  assert (Lx : length (xor_bytes (pkcs7_pad data) iv) = 16%nat)
    by (rewrite xor_bytes_length; lia).
  rewrite (encrypt_block_length P L) by exact Lx. cbn [Nat.eqb negb].
  rewrite (decrypt_encrypt_block P L); [|exact Lx|].
  2:{ apply xor_bytes_octets; [|exact Oi]. apply pkcs7_pad_octets, Od. }
  rewrite xor_bytes_cancel by lia.
  rewrite pkcs7_unpad_pad by exact Hd. reflexivity.
Qed.

(** Under its own IV a token decrypts to what was sealed. *)
Lemma decrypt_sealed data iv w :
  length iv = 16%nat -> octets iv -> octets data ->
  fst (decode_decrypt P (Some (JStr (sealed P data iv)))
         (Some (JStr (Hex.encode iv))) w)
  = Returned data.
Proof.
  intros Hi Oi Od.
  destruct (Nat.lt_ge_cases (length data) 16) as [Hd|Hd].
  - apply decrypt_short; assumption.
  - rewrite decrypt_under by assumption.
    rewrite xor_head_same by exact Hi. reflexivity.
Qed.

End Issued.

(** ** The signed block *)

Lemma latin1_octets s : latin1 s = true -> octets s.
Proof.
  unfold latin1. intros H. apply Forall_forall. intros c Hc.
  eapply forallb_forall in H; [|exact Hc].
  apply N.leb_le in H. unfold octet. lia.
Qed.

Lemma decimal_nonempty z : Number.decimal z <> [].
Proof.
  unfold Number.decimal. destruct (N.to_uint (Z.to_N z)); discriminate.
Qed.

Lemma render_nonempty s n k : Number.render s n k <> [].
Proof.
  unfold Number.render. pose proof (decimal_nonempty s) as D.
  destruct (Number.decimal s) as [|d r]; [contradiction|].
  repeat match goal with
         | |- context [if ?b then _ else _] => destruct b
         end;
    try destruct r; intros E; apply (f_equal (@length N)) in E;
    rewrite ?length_app in E; cbn [length] in E; lia.
Qed.

Lemma number_to_string_nonempty n : JSON.number_to_string n <> [].
Proof.
  destruct n as [s|s m e|s|]; try discriminate.
  cbn [JSON.number_to_string Number.to_string].
  destruct (Number.digits m e) as [[d x] k].
  pose proof (render_nonempty d x k).
  destruct s; [discriminate|assumption].
Qed.

Lemma serialize_nonempty v text : JSON.serialize v = Some text -> text <> [].
Proof.
  destruct v as [|[|]|n|n|s|l|l]; cbn [JSON.serialize]; intros H.
  - injection H as <-. discriminate.
  - injection H as <-. discriminate.
  - injection H as <-. discriminate.
  - injection H as <-. apply number_to_string_nonempty.
  - discriminate.
  - injection H as <-. discriminate.
  - destruct ((fix elements (l : list jsvalue) := _) l); [|discriminate].
    injection H as <-. discriminate.
  - destruct ((fix properties (l : list (jsstring * jsvalue)) := _) l);
      [|discriminate].
    injection H as <-. discriminate.
Qed.

Section SignedBlock.

Variable P : Platform.

Lemma signed_block_ascii text : Forall ascii (signed_block P text).
Proof.
  unfold signed_block. apply Forall_app. split.
  - apply plain_ascii, base64_encode_plain.
  - apply Forall_cons; [reflexivity|].
    apply plain_ascii, base64_encode_plain.
Qed.

Lemma signed_block_utf8 text :
  Utf8.decode (Utf8.encode (signed_block P text)) = signed_block P text.
Proof.
  rewrite utf8_encode_ascii by apply signed_block_ascii.
  apply utf8_decode_ascii, signed_block_ascii.
Qed.

Lemma signed_block_length text :
  (forall key data, length (hmac_sha256 P key data) = 32%nat) ->
  (16 <= length (Utf8.encode (signed_block P text)))%nat.
Proof.
  intros H. rewrite utf8_encode_ascii by apply signed_block_ascii.
  unfold signed_block, signature_of. rewrite !length_app.
  set (mac := hmac_sha256 P _ _).
  assert (M : mac <> []) by (intros E; specialize (H (Utf8.encode (SECRET_SIGNATURE_KEY P)) (Base64.decode (Base64.encode text))); fold mac in H; rewrite E in H; discriminate).
  pose proof (base64_encode_longer mac M) as Hl.
  unfold mac in Hl at 1. rewrite H in Hl. lia.
Qed.

(** The signed block of a text passes the check of its signature, and
    its payload is the text. *)
Lemma verdict_signed_block text :
  text <> [] -> latin1 text = true ->
  verdict P (Utf8.encode (signed_block P text))
  = match JSON_parse_text P text with
    | Some v => Returned (send StatusCode.SuccessOK v)
    | None => Thrown SyntaxError
    end.
Proof.
  intros Ht Hl.
  assert (B : before_dot (signed_block P text) = Base64.encode text)
    by (apply before_dot_app, base64_encode_plain).
  assert (A : after_dot (signed_block P text)
              = Some (signature_of P (Base64.encode text)))
    by (apply after_dot_app, base64_encode_plain).
  unfold verdict. cbv zeta. rewrite signed_block_utf8, !B, !A.
  cbn [option_map].
  rewrite (before_dot_plain (signature_of P (Base64.encode text)))
    by apply base64_encode_plain.
  unfold loose_neq. rewrite jsstring_eqb_refl. cbn [negb].
  rewrite atob_valid_encode.
  rewrite base64_decode_encode by (apply latin1_octets; exact Hl).
  destruct (Base64.encode text) as [|c e] eqn:E; [|reflexivity].
  exfalso. eapply base64_encode_nonempty; eassumption.
Qed.

End SignedBlock.

(** ** Round trip *)

Lemma member_token (t c : jsvalue) :
  member [(str "token", t); (str "context", c)] (str "token") = Some t.
Proof. reflexivity. Qed.

Lemma member_context (t c : jsvalue) :
  member [(str "token", t); (str "context", c)] (str "context") = Some c.
Proof. reflexivity. Qed.

Section RoundTrip.

Variable P : Platform.
Hypothesis L : Laws P.

Lemma issued_truthy text iv :
  length iv = 16%nat -> octets iv ->
  truthy (member (issued P text iv) (str "token")) = true
  /\ truthy (member (issued P text iv) (str "context")) = true.
Proof.
  intros Hi Oi. unfold issued. rewrite member_token, member_context.
  cbn [truthy]. split.
  - unfold issued_token, sealed.
    destruct (aes_256_cbc_shape P L iv (Utf8.encode (signed_block P text))
                Hi Oi) as [Hl _].
    { apply ascii_octets. rewrite utf8_encode_ascii;
        apply signed_block_ascii. }
    destruct (aes_256_cbc P _ iv _) as [|x r] eqn:E;
      [cbn [length] in Hl; lia|].
    destruct (Base64.encode (x :: r)) eqn:E'; [|reflexivity].
    exfalso. eapply base64_encode_nonempty; [|exact E']. discriminate.
  - destruct iv as [|x r]; [discriminate|reflexivity].
Qed.

(** What [decode] answers to the token of one call of [encode] paired
    with a context of 16 octets. *)
Lemma decode_issued_under text iv iv' w :
  text <> [] -> latin1 text = true ->
  length iv = 16%nat -> octets iv ->
  length iv' = 16%nat -> octets iv' ->
  fst (decode P [(str "token", JStr (issued_token P text iv));
                 (str "context", JStr (Hex.encode iv'))] w)
  = caught (verdict P (xor_head (xor_bytes iv iv')
                         (Utf8.encode (signed_block P text)))).
Proof.
  intros Ht Hl Hi Oi Hi' Oi'.
  destruct (issued_truthy text iv Hi Oi) as [T _].
  destruct (issued_truthy text iv' Hi' Oi') as [_ C].
  unfold issued in T, C. rewrite member_token in T.
  rewrite member_context in C.
  rewrite decode_result; rewrite ?member_token, ?member_context;
    try assumption.
  unfold issued_token. rewrite decrypt_under; try assumption.
  - reflexivity.
  - apply ascii_octets. rewrite utf8_encode_ascii;
      apply signed_block_ascii.
  - apply signed_block_length. apply (hmac_sha256_length P L).
Qed.

(** Every payload whose JSON text is made of code units up to 0xFF,
    and which [JSON.parse] reads back from that text, comes back from
    [decode] when [decode] is given what [encode] answered. *)
Theorem round_trip body text w w' :
  JSON.serialize body = Some text ->
  latin1 text = true ->
  JSON_parse_text P text = Some body ->
  exists answer,
    fst (encode P body w) = Returned (send StatusCode.SuccessOK (JObj answer))
    /\ fst (decode P answer w') = Returned (send StatusCode.SuccessOK body).
Proof.
  intros Hs Hl Hp.
  exists (issued P text (random_bytes 16 (entropy w))). split.
  - rewrite (encode_run P body text w Hs Hl (encryption_key_length P L)).
    reflexivity.
  - unfold issued. rewrite decode_issued_under;
      try apply random_bytes_length; try apply random_bytes_octets;
      try assumption; [|eapply serialize_nonempty; exact Hs].
    rewrite xor_head_same by apply random_bytes_length.
    rewrite verdict_signed_block, Hp;
      [reflexivity|eapply serialize_nonempty; exact Hs|exact Hl].
Qed.

End RoundTrip.

(** ** AES-256: decryption undoes encryption *)

Lemma octets_check bs : forallb (fun b => b <? 256) bs = true -> octets bs.
Proof.
  intros H. apply Forall_forall. intros b Hb.
  eapply forallb_forall in H; [|exact Hb]. apply N.ltb_lt in H. exact H.
Qed.

Lemma below_check2 (f : N -> N -> bool) (n m : nat) :
  forallb (fun x => forallb (f x) (map N.of_nat (seq 0 m)))
    (map N.of_nat (seq 0 n)) = true ->
  forall x y, x < N.of_nat n -> y < N.of_nat m -> f x y = true.
Proof.
  intros H x y Hx Hy.
  pose proof (below_check _ n H x Hx) as Hr. cbv beta in Hr.
  exact (below_check _ m Hr y Hy).
Qed.

Lemma xtime_octet a : octet a -> octet (AES.xtime a).
Proof.
  intros Ha. apply N.ltb_lt.
  refine (below_check (fun a => AES.xtime a <? 256) 256 _ a Ha).
  vm_compute. reflexivity.
Qed.

Lemma xtime_lxor a b :
  octet a -> octet b ->
  AES.xtime (N.lxor a b) = N.lxor (AES.xtime a) (AES.xtime b).
Proof.
  intros Ha Hb. apply N.eqb_eq.
  refine (below_check2
            (fun a b => AES.xtime (N.lxor a b)
                        =? N.lxor (AES.xtime a) (AES.xtime b))
            256 256 _ a b Ha Hb).
  vm_compute. reflexivity.
Qed.

Lemma lxor_swap a b c d :
  N.lxor (N.lxor a b) (N.lxor c d) = N.lxor (N.lxor a c) (N.lxor b d).
Proof. apply N.bits_inj. intros n. rewrite !N.lxor_spec. btauto. Qed.

Lemma times_octet n : forall a b, octet a -> octet (AES.times n a b).
Proof.
  induction n as [|n IH]; intros a b Ha; cbn [AES.times].
  - unfold octet. lia.
  - apply lxor_octet.
    + destruct (N.odd b); [exact Ha|unfold octet; lia].
    + apply IH, xtime_octet, Ha.
Qed.

Lemma times_lxor n : forall a a' c,
  octet a -> octet a' ->
  AES.times n (N.lxor a a') c = N.lxor (AES.times n a c) (AES.times n a' c).
Proof.
  induction n as [|n IH]; intros a a' c Ha Ha'; cbn [AES.times].
  - reflexivity.
  - rewrite xtime_lxor by assumption.
    rewrite IH by (apply xtime_octet; assumption).
    destruct (N.odd c).
    + apply lxor_swap.
    + rewrite !N.lxor_0_l. reflexivity.
Qed.

Lemma mul_octet a c : octet a -> octet (AES.mul a c).
Proof. apply times_octet. Qed.

Lemma mul_lxor a a' c :
  octet a -> octet a' ->
  AES.mul (N.lxor a a') c = N.lxor (AES.mul a c) (AES.mul a' c).
Proof. apply times_lxor. Qed.

Lemma mul_lxor4 p q r s c :
  octet p -> octet q -> octet r -> octet s ->
  AES.mul (N.lxor p (N.lxor q (N.lxor r s))) c
  = N.lxor (AES.mul p c)
      (N.lxor (AES.mul q c) (N.lxor (AES.mul r c) (AES.mul s c))).
Proof.
  intros Hp Hq Hr Hs.
  rewrite !mul_lxor; auto using lxor_octet.
Qed.

Lemma lxor_transpose p0 p1 p2 p3 q0 q1 q2 q3 r0 r1 r2 r3 s0 s1 s2 s3 :
  N.lxor (N.lxor p0 (N.lxor p1 (N.lxor p2 p3)))
    (N.lxor (N.lxor q0 (N.lxor q1 (N.lxor q2 q3)))
       (N.lxor (N.lxor r0 (N.lxor r1 (N.lxor r2 r3)))
          (N.lxor s0 (N.lxor s1 (N.lxor s2 s3)))))
  = N.lxor (N.lxor p0 (N.lxor q0 (N.lxor r0 s0)))
      (N.lxor (N.lxor p1 (N.lxor q1 (N.lxor r1 s1)))
         (N.lxor (N.lxor p2 (N.lxor q2 (N.lxor r2 s2)))
            (N.lxor p3 (N.lxor q3 (N.lxor r3 s3))))).
Proof. apply N.bits_inj. intros n. rewrite !N.lxor_spec. btauto. Qed.

Lemma column_facts a :
  octet a ->
  N.lxor (AES.mul (AES.mul a 2) 14) (N.lxor (AES.mul a 11) (N.lxor (AES.mul a 13) (AES.mul (AES.mul a 3) 9))) = a
  /\ N.lxor (AES.mul (AES.mul a 3) 14) (N.lxor (AES.mul (AES.mul a 2) 11) (N.lxor (AES.mul a 13) (AES.mul a 9))) = 0
  /\ N.lxor (AES.mul a 14) (N.lxor (AES.mul (AES.mul a 3) 11) (N.lxor (AES.mul (AES.mul a 2) 13) (AES.mul a 9))) = 0
  /\ N.lxor (AES.mul a 14) (N.lxor (AES.mul a 11) (N.lxor (AES.mul (AES.mul a 3) 13) (AES.mul (AES.mul a 2) 9))) = 0
  /\ N.lxor (AES.mul (AES.mul a 2) 9) (N.lxor (AES.mul a 14) (N.lxor (AES.mul a 11) (AES.mul (AES.mul a 3) 13))) = 0
  /\ N.lxor (AES.mul (AES.mul a 3) 9) (N.lxor (AES.mul (AES.mul a 2) 14) (N.lxor (AES.mul a 11) (AES.mul a 13))) = a
  /\ N.lxor (AES.mul a 9) (N.lxor (AES.mul (AES.mul a 3) 14) (N.lxor (AES.mul (AES.mul a 2) 11) (AES.mul a 13))) = 0
  /\ N.lxor (AES.mul a 9) (N.lxor (AES.mul a 14) (N.lxor (AES.mul (AES.mul a 3) 11) (AES.mul (AES.mul a 2) 13))) = 0
  /\ N.lxor (AES.mul (AES.mul a 2) 13) (N.lxor (AES.mul a 9) (N.lxor (AES.mul a 14) (AES.mul (AES.mul a 3) 11))) = 0
  /\ N.lxor (AES.mul (AES.mul a 3) 13) (N.lxor (AES.mul (AES.mul a 2) 9) (N.lxor (AES.mul a 14) (AES.mul a 11))) = 0
  /\ N.lxor (AES.mul a 13) (N.lxor (AES.mul (AES.mul a 3) 9) (N.lxor (AES.mul (AES.mul a 2) 14) (AES.mul a 11))) = a
  /\ N.lxor (AES.mul a 13) (N.lxor (AES.mul a 9) (N.lxor (AES.mul (AES.mul a 3) 14) (AES.mul (AES.mul a 2) 11))) = 0
  /\ N.lxor (AES.mul (AES.mul a 2) 11) (N.lxor (AES.mul a 13) (N.lxor (AES.mul a 9) (AES.mul (AES.mul a 3) 14))) = 0
  /\ N.lxor (AES.mul (AES.mul a 3) 11) (N.lxor (AES.mul (AES.mul a 2) 13) (N.lxor (AES.mul a 9) (AES.mul a 14))) = 0
  /\ N.lxor (AES.mul a 11) (N.lxor (AES.mul (AES.mul a 3) 13) (N.lxor (AES.mul (AES.mul a 2) 9) (AES.mul a 14))) = 0
  /\ N.lxor (AES.mul a 11) (N.lxor (AES.mul a 13) (N.lxor (AES.mul (AES.mul a 3) 9) (AES.mul (AES.mul a 2) 14))) = a.
Proof.
  intros Ha.
  assert (C : column_check a = true).
  { refine (below_check column_check 256 _ a Ha). vm_compute. reflexivity. }
  unfold column_check in C.
  repeat (apply andb_true_iff in C; destruct C as [C ?]).
  repeat split; apply N.eqb_eq; assumption.
Qed.

Lemma column_inverse a0 a1 a2 a3 r :
  octet a0 -> octet a1 -> octet a2 -> octet a3 ->
  AES.inv_mix_columns (AES.mix_columns (a0 :: a1 :: a2 :: a3 :: r))
  = a0 :: a1 :: a2 :: a3 :: AES.inv_mix_columns (AES.mix_columns r).
Proof.
  intros H0 H1 H2 H3.
  destruct (column_facts a0 H0)
    as (A00 & A01 & A02 & A03 & A10 & A11 & A12 & A13
        & A20 & A21 & A22 & A23 & A30 & A31 & A32 & A33).
  destruct (column_facts a1 H1)
    as (B00 & B01 & B02 & B03 & B10 & B11 & B12 & B13
        & B20 & B21 & B22 & B23 & B30 & B31 & B32 & B33).
  destruct (column_facts a2 H2)
    as (C00 & C01 & C02 & C03 & C10 & C11 & C12 & C13
        & C20 & C21 & C22 & C23 & C30 & C31 & C32 & C33).
  destruct (column_facts a3 H3)
    as (D00 & D01 & D02 & D03 & D10 & D11 & D12 & D13
        & D20 & D21 & D22 & D23 & D30 & D31 & D32 & D33).
  cbn [AES.mix_columns AES.inv_mix_columns].
  rewrite !mul_lxor4 by auto using mul_octet.
  rewrite (lxor_transpose (AES.mul (AES.mul a0 2) 14)).
  rewrite (lxor_transpose (AES.mul (AES.mul a0 2) 9)).
  rewrite (lxor_transpose (AES.mul (AES.mul a0 2) 13)).
  rewrite (lxor_transpose (AES.mul (AES.mul a0 2) 11)).
  rewrite A00, B01, C02, D03, A10, B11, C12, D13,
          A20, B21, C22, D23, A30, B31, C32, D33.
  rewrite !N.lxor_0_r, !N.lxor_0_l. reflexivity.
Qed.

Lemma block16 {A} (s : list A) :
  length s = 16%nat ->
  exists a0 a1 a2 a3 a4 a5 a6 a7 a8 a9 a10 a11 a12 a13 a14 a15,
    s = [a0; a1; a2; a3; a4; a5; a6; a7; a8; a9; a10; a11; a12; a13; a14; a15].
Proof.
  intros H.
  do 16 (destruct s as [|? s]; [discriminate H|]).
  destruct s; [|discriminate H].
  repeat eexists.
Qed.

Lemma sbox_inverse b : octet b -> AES.inv_sbox (AES.sbox b) = b.
Proof.
  intros Hb. apply N.eqb_eq.
  refine (below_check (fun b => AES.inv_sbox (AES.sbox b) =? b) 256 _ b Hb).
  vm_compute. reflexivity.
Qed.

Lemma sbox_octet b : octet b -> octet (AES.sbox b).
Proof.
  intros Hb. apply N.ltb_lt.
  refine (below_check (fun b => AES.sbox b <? 256) 256 _ b Hb).
  vm_compute. reflexivity.
Qed.

Lemma sub_bytes_inverse s :
  octets s -> AES.inv_sub_bytes (AES.sub_bytes s) = s.
Proof.
  induction 1 as [|b s Hb _ IH]; [reflexivity|].
  unfold AES.inv_sub_bytes, AES.sub_bytes in *. cbn [map].
  rewrite IH, sbox_inverse by exact Hb. reflexivity.
Qed.

Lemma sub_bytes_octets s : octets s -> octets (AES.sub_bytes s).
Proof.
  induction 1 as [|b s Hb _ IH]; [constructor|].
  unfold AES.sub_bytes in *. cbn [map]. constructor; [|exact IH].
  apply sbox_octet, Hb.
Qed.

Lemma sub_bytes_length s : length (AES.sub_bytes s) = length s.
Proof. apply length_map. Qed.

Lemma shift_rows_inverse s :
  length s = 16%nat -> AES.inv_shift_rows (AES.shift_rows s) = s.
Proof.
  intros H. destruct (block16 s H)
    as (a0 & a1 & a2 & a3 & a4 & a5 & a6 & a7 & a8 & a9 & a10 & a11 & a12
        & a13 & a14 & a15 & ->).
  reflexivity.
Qed.

Lemma shift_rows_length s : length (AES.shift_rows s) = 16%nat.
Proof. reflexivity. Qed.

Lemma shift_rows_octets s : octets s -> octets (AES.shift_rows s).
Proof.
  intros H. unfold AES.shift_rows, AES.pick. apply Forall_forall.
  intros x Hx. apply in_map_iff in Hx. destruct Hx as (i & <- & _).
  destruct (nth_in_or_default i s 0) as [I | ->].
  - revert I. apply Forall_forall. exact H.
  - unfold octet. lia.
Qed.

Lemma mix_columns_shape s :
  length s = 16%nat -> octets s ->
  length (AES.mix_columns s) = 16%nat
  /\ octets (AES.mix_columns s)
  /\ AES.inv_mix_columns (AES.mix_columns s) = s.
Proof.
  intros H O. destruct (block16 s H)
    as (a0 & a1 & a2 & a3 & a4 & a5 & a6 & a7 & a8 & a9 & a10 & a11 & a12
        & a13 & a14 & a15 & ->).
  repeat match goal with
         | O : octets (_ :: _) |- _ => inversion_clear O
         | O : Forall octet (_ :: _) |- _ => inversion_clear O
         end.
  split; [reflexivity|]. split.
  - cbn [AES.mix_columns].
    repeat (apply Forall_cons; [auto 10 using lxor_octet, mul_octet|]).
    apply Forall_nil.
  - rewrite !column_inverse by assumption. reflexivity.
Qed.

Section Rounds.

Variable rk : bytes.
Hypothesis rk_length : length rk = 16%nat.
Hypothesis rk_octets : octets rk.

Lemma round_shape s :
  length s = 16%nat -> octets s ->
  length (AES.round rk s) = 16%nat
  /\ octets (AES.round rk s)
  /\ AES.inv_round rk (AES.round rk s) = s.
Proof.
  intros H O. unfold AES.round, AES.inv_round.
  destruct (mix_columns_shape (AES.shift_rows (AES.sub_bytes s))
              (shift_rows_length _)
              (shift_rows_octets _ (sub_bytes_octets _ O)))
    as (Lm & Om & Im).
  split; [rewrite xor_bytes_length; lia|]. split.
  - apply xor_bytes_octets; assumption.
  - rewrite xor_bytes_cancel by lia.
    rewrite Im, shift_rows_inverse by (rewrite sub_bytes_length; exact H).
    apply sub_bytes_inverse, O.
Qed.

Lemma last_round_shape s :
  length s = 16%nat -> octets s ->
  length (AES.last_round rk s) = 16%nat
  /\ octets (AES.last_round rk s)
  /\ AES.inv_last_round rk (AES.last_round rk s) = s.
Proof.
  intros H O. unfold AES.last_round, AES.inv_last_round.
  split; [rewrite xor_bytes_length, shift_rows_length; lia|]. split.
  - apply xor_bytes_octets; [|assumption].
    apply shift_rows_octets, sub_bytes_octets, O.
  - rewrite xor_bytes_cancel by (rewrite shift_rows_length; lia).
    rewrite shift_rows_inverse by (rewrite sub_bytes_length; exact H).
    apply sub_bytes_inverse, O.
Qed.

End Rounds.

Lemma rounds_shape rks :
  Forall (fun rk => length rk = 16%nat /\ octets rk) rks ->
  forall s, length s = 16%nat -> octets s ->
  length (AES.rounds rks s) = 16%nat
  /\ octets (AES.rounds rks s)
  /\ AES.inv_rounds rks (AES.rounds rks s) = s.
Proof.
  induction 1 as [|rk rest [Lk Ok] Hrest IH]; intros s H O.
  - cbn. auto.
  - destruct rest as [|rk' rest'].
    + cbn [AES.rounds AES.inv_rounds]. apply last_round_shape; assumption.
    + change (AES.rounds (rk :: rk' :: rest') s)
        with (AES.rounds (rk' :: rest') (AES.round rk s)).
      change (AES.inv_rounds (rk :: rk' :: rest')
                (AES.rounds (rk' :: rest') (AES.round rk s)))
        with (AES.inv_round rk
                (AES.inv_rounds (rk' :: rest')
                   (AES.rounds (rk' :: rest') (AES.round rk s)))).
      destruct (round_shape rk Lk Ok s H O) as (Lr & Or & Ir).
      destruct (IH (AES.round rk s) Lr Or) as (L' & O' & I').
      split; [exact L'|]. split; [exact O'|].
      rewrite I'. exact Ir.
Qed.

Lemma rounds_length rks :
  Forall (fun rk => length rk = 16%nat /\ octets rk) rks ->
  forall s, length s = 16%nat -> length (AES.rounds rks s) = 16%nat.
Proof.
  induction 1 as [|rk rest [Lk _] Hrest IH]; intros s Ls; [exact Ls|].
  destruct rest as [|rk' rest'].
  - cbn [AES.rounds]. unfold AES.last_round.
    rewrite xor_bytes_length, shift_rows_length, Lk. reflexivity.
  - change (AES.rounds (rk :: rk' :: rest') s)
      with (AES.rounds (rk' :: rest') (AES.round rk s)).
    apply IH. unfold AES.round. rewrite xor_bytes_length, Lk.
    destruct (block16 (AES.shift_rows (AES.sub_bytes s))
                (shift_rows_length _))
      as (a0 & a1 & a2 & a3 & a4 & a5 & a6 & a7 & a8 & a9 & a10 & a11
          & a12 & a13 & a14 & a15 & ->).
    reflexivity.
Qed.

Lemma keys_shape key :
  key_ok key = true ->
  exists rk0 rks,
    AES.round_keys key = rk0 :: rks
    /\ length rk0 = 16%nat /\ octets rk0
    /\ Forall (fun rk => length rk = 16%nat /\ octets rk) rks.
Proof.
  unfold key_ok. intros K.
  generalize dependent (AES.round_keys key). intros l K.
  apply andb_true_iff in K.
  destruct K as [K1 K2]. apply Nat.eqb_eq in K1.
  assert (F : Forall (fun rk => length rk = 16%nat /\ octets rk) l).
  { apply Forall_forall. intros rk Hrk.
    eapply forallb_forall in K2; [|exact Hrk].
    apply andb_true_iff in K2. destruct K2 as [A B].
    apply Nat.eqb_eq in A. split; [exact A|apply octets_check, B]. }
  destruct l as [|rk0 rks]; [discriminate K1|].
  inversion_clear F as [|? ? [L0 O0] Frks].
  exists rk0, rks. auto.
Qed.

Lemma aes_encrypt_length key block :
  key_ok key = true ->
  length block = 16%nat ->
  length (AES.encrypt_block key block) = 16%nat.
Proof.
  intros K H.
  destruct (keys_shape key K) as (rk0 & rks & E & L0 & O0 & Frks).
  unfold AES.encrypt_block. rewrite E.
  apply rounds_length; [exact Frks|].
  rewrite xor_bytes_length; lia.
Qed.

(** On blocks of 16 octets, AES decryption undoes AES encryption, which
    yields blocks of 16 octets. *)
Theorem aes_decrypt_encrypt key block :
  key_ok key = true ->
  length block = 16%nat -> octets block ->
  octets (AES.encrypt_block key block)
  /\ AES.decrypt_block key (AES.encrypt_block key block) = block.
Proof.
  intros K H O.
  destruct (keys_shape key K) as (rk0 & rks & E & L0 & O0 & Frks).
  unfold AES.encrypt_block, AES.decrypt_block. rewrite E.
  assert (Lx : length (xor_bytes block rk0) = 16%nat)
    by (rewrite xor_bytes_length; lia).
  assert (Ox : octets (xor_bytes block rk0))
    by (apply xor_bytes_octets; assumption).
  destruct (rounds_shape rks Frks _ Lx Ox) as (Lr & Or & Ir).
  split; [exact Or|].
  rewrite Ir. apply xor_bytes_cancel. lia.
Qed.

Lemma sha256_length message : length (SHA256.hash message) = 32%nat.
Proof.
  unfold SHA256.hash.
  destruct (fold_left SHA256.compress _ SHA256.initial)
    as [[[[[[[a b] c] d] e] f] g] h].
  reflexivity.
Qed.

Lemma node_key_ok : key_ok (encryption_key Node.platform) = true.
Proof. vm_compute. reflexivity. Qed.

Lemma node_laws : Laws Node.platform.
Proof.
  split.
  - reflexivity.
  - intros block H O.
    apply (aes_decrypt_encrypt (encryption_key Node.platform) block
             node_key_ok H O).
  - intros block H.
    apply (aes_encrypt_length (encryption_key Node.platform) block
             node_key_ok H).
  - intros block H O.
    apply (aes_decrypt_encrypt (encryption_key Node.platform) block
             node_key_ok H O).
  - intros key data. apply sha256_length.
Qed.

(** The vectors of the standards: FIPS 197 C.3, the SHA-256 of ["abc"],
    and the second test case of RFC 4231. *)
Example standard_vectors :
  let key :=
    Hex.decode
      (str "000102030405060708090a0b0c0d0e0f101112131415161718191a1b1c1d1e1f") in
  AES.encrypt_block key (Hex.decode (str "00112233445566778899aabbccddeeff"))
  = Hex.decode (str "8ea2b7ca516745bfeafc49904b496089")
  /\ AES.decrypt_block key (Hex.decode (str "8ea2b7ca516745bfeafc49904b496089"))
     = Hex.decode (str "00112233445566778899aabbccddeeff")
  /\ SHA256.hash (str "abc")
     = Hex.decode
         (str "ba7816bf8f01cfea414140de5dae2223b00361a396177a9cb410ff61f20015ad")
  /\ SHA256.hmac (str "Jefe") (str "what do ya want for nothing?")
     = Hex.decode
         (str "5bdcc146bf60754e6a042426089575c75a003f089d2739839dec58b964ec3843").
Proof. vm_compute. repeat split. Qed.

(** * The claims *)

(** ** C1: round trip *)

(** [encode] throws as soon as the JSON text of the payload has a code
    unit above 0xFF: [btoa] refuses it, and nothing catches. *)
Lemma encode_beyond_latin1 P body text w :
  JSON.serialize body = Some text ->
  latin1 text = false ->
  encode P body w
  = (Thrown InvalidCharacterError,
     logged call_btoa (logged call_JSON_stringify w)).
Proof. intros Hs Hl. run. rewrite Hs. cbv beta iota. rewrite Hl. reflexivity. Qed.

(** C1 (code bug).  The claim is that every JSON-serializable payload
    survives [encode] followed by [decode].  The payload
    [{"name": "\u2603"}] is JSON-serializable, and [encode] does not answer
    it at all: on every platform and in every world, [btoa] throws
    [InvalidCharacterError] out of the handler, after [JSON.stringify] and
    before any token exists. *)
Theorem encode_snowman_throws :
  JSON.serialize snowman
  = Some ([123; 34] ++ str "name" ++ [34; 58; 34; 9731; 34; 125])
  /\ forall P w,
       fst (encode P snowman w) = Thrown InvalidCharacterError
       /\ calls (snd (encode P snowman w))
          = calls w ++ [call_JSON_stringify; call_btoa].
Proof.
  split; [reflexivity|]. intros P w.
  rewrite (encode_beyond_latin1 P snowman _ w eq_refl eq_refl).
  split; [reflexivity|].
  cbn [snd calls logged]. rewrite <- app_assoc. reflexivity.
Qed.

(** ** C2: a changed ciphertext *)

Lemma loose_neq_false a b : loose_neq a b = false -> a = Some b.
Proof.
  destruct a as [a|]; cbn [loose_neq]; [|discriminate].
  intros H. apply negb_false_iff, jsstring_eqb_eq in H. congruence.
Qed.

(** A payload is only ever answered when the plaintext carries, as its
    second piece, the HMAC of the decoded octets of its first piece, and
    the payload is what [JSON.parse] reads from those octets. *)
Lemma accepted_is_signed P body w payload :
  fst (decode P body w) = Returned (send 200 payload) ->
  exists decrypted encoded,
    fst (decode_decrypt P (member body (str "token"))
           (member body (str "context")) w) = Returned decrypted
    /\ pieces (Utf8.decode decrypted)
       = (Some encoded, Some (signature_of P encoded))
    /\ encoded <> []
    /\ atob_valid encoded = true
    /\ JSON_parse_text P (Base64.decode encoded) = Some payload.
Proof.
  intros H.
  destruct (truthy (member body (str "token"))) eqn:Ht;
    [destruct (truthy (member body (str "context"))) eqn:Hc|];
    try (rewrite decode_missing in H by auto; discriminate H).
  rewrite decode_result in H by assumption.
  destruct (fst (decode_decrypt P _ _ w)) as [d|e]; [|discriminate H].
  exists d, (before_dot (Utf8.decode d)).
  unfold verdict in H. cbv zeta in H.
  unfold pieces. destruct (split_pieces (Utf8.decode d)) as [-> ->].
  destruct (before_dot (Utf8.decode d)) as [|c e] eqn:E; [discriminate H|].
  destruct (loose_neq _ _) eqn:N; [discriminate H|].
  apply loose_neq_false in N. rewrite N.
  destruct (atob_valid (c :: e)); [|discriminate H].
  destruct (JSON_parse_text P _) as [v|]; [|discriminate H].
  injection H as ->. repeat split; congruence.
Qed.

Lemma flip_length j delta b : length (flip j delta b) = length b.
Proof.
  unfold flip. rewrite <- (firstn_skipn j b) at 3. rewrite !length_app.
  f_equal. destruct (skipn j b); reflexivity.
Qed.

(** C2, as stated, fails.  With the secrets of the example platform,
    [encode] answers the payload [{}] under the IV
    [7f9359175a3c0f0a4280b07e634761f8] with the token below; complementing
    octet 61 of its ciphertext, in the last block, gives a token that
    decrypts to the signed block followed by a full stop and 13 more
    octets, and [decode] answers it with the payload, at status 200. *)
Lemma changed_ciphertext_counterexample :
  let context := str "7f9359175a3c0f0a4280b07e634761f8" in
  let token :=
    str "S8fVeBbW1ewkuieXh9ngxwoGOPAW2jod9mDyTzyhV0/44x79zmzN7iYG6m+GpdMILOEZz0kIujtamuvo7G+U7A==" in
  let token' :=
    str "S8fVeBbW1ewkuieXh9ngxwoGOPAW2jod9mDyTzyhV0/44x79zmzN7iYG6m+GpdMILOEZz0kIujtamuvo7JCU7A==" in
  fst (encode Node.platform (JObj []) (fresh lucky))
  = Returned (send 200 (JObj (request (JStr token) (JStr context))))
  /\ Base64.decode token' = flip 61 255 (Base64.decode token)
  /\ token' = Base64.encode (flip 61 255 (Base64.decode token))
  /\ fst (decode_decrypt Node.platform (Some (JStr token'))
            (Some (JStr context)) (fresh zeros))
     = Returned (Utf8.encode (signed_block Node.platform (str "{}"))
                 ++ [46; 13; 32; 236; 57; 214; 18; 57; 244; 239; 204; 13;
                     101; 24])
  /\ fst (decode Node.platform (request (JStr token') (JStr context))
            (fresh zeros))
     = Returned (send 200 (JObj [])).
Proof. cbv zeta. vm_compute. repeat split. Qed.

(** C2, amended.  When one octet of the ciphertext of a token that
    [encode] issued is changed, [decode] answers with InvalidParams, with
    Unauthorized, or with a payload at status 200; and it answers with a
    payload only when the changed plaintext still carries, as its second
    piece, the HMAC of the decoded octets of its first piece, the payload
    being what [JSON.parse] reads from those octets. *)
Theorem changed_ciphertext P body text w j delta w' :
  Laws P ->
  JSON.serialize body = Some text -> latin1 text = true ->
  let iv := random_bytes 16 (entropy w) in
  let ciphertext :=
    aes_256_cbc P (encryption_key P) iv (Utf8.encode (signed_block P text)) in
  let token' := Base64.encode (flip j delta ciphertext) in
  let answer :=
    fst (decode P (request (JStr token') (JStr (Hex.encode iv))) w') in
  fst (encode P body w)
  = Returned (send 200 (JObj (request (JStr (Base64.encode ciphertext))
                                (JStr (Hex.encode iv)))))
  /\ (answer = Returned (next {| statusCode := 400;
                                 message := str "InvalidParams" |})
      \/ answer = Returned (next {| statusCode := 400;
                                    message := str "Unauthorized" |})
      \/ exists payload, answer = Returned (send 200 payload))
  /\ (forall payload,
         answer = Returned (send 200 payload) ->
         exists decrypted encoded,
           fst (decode_decrypt P (Some (JStr token'))
                  (Some (JStr (Hex.encode iv))) w') = Returned decrypted
           /\ pieces (Utf8.decode decrypted)
              = (Some encoded,
                 Some (Base64.encode
                         (hmac_sha256 P (Utf8.encode (SECRET_SIGNATURE_KEY P))
                            (Base64.decode encoded))))
           /\ JSON_parse_text P (Base64.decode encoded) = Some payload).
Proof.
  intros L Hs Hl. cbv zeta.
  set (iv := random_bytes 16 (entropy w)).
  assert (Hi : length iv = 16%nat) by apply random_bytes_length.
  assert (Oi : octets iv) by apply random_bytes_octets.
  set (ciphertext := aes_256_cbc P (encryption_key P) iv
                       (Utf8.encode (signed_block P text))).
  split; [|split].
  - rewrite (encode_run P body text w Hs Hl (encryption_key_length P L)).
    reflexivity.
  - assert (Ht : truthy (member (request
                  (JStr (Base64.encode (flip j delta ciphertext)))
                  (JStr (Hex.encode iv))) (str "token")) = true).
    { unfold request. rewrite member_token. cbn [truthy].
      destruct (aes_256_cbc_shape P L iv (Utf8.encode (signed_block P text))
                  Hi Oi) as [Hlen _].
      { apply ascii_octets. rewrite utf8_encode_ascii;
          apply signed_block_ascii. }
      fold ciphertext in Hlen.
      pose proof (flip_length j delta ciphertext) as Hf.
      destruct (flip j delta ciphertext) as [|x r] eqn:E;
        [cbn [length] in Hf; lia|].
      destruct (Base64.encode (x :: r)) eqn:E'; [|reflexivity].
      exfalso. eapply base64_encode_nonempty; [|exact E']. discriminate. }
    assert (Hc : truthy (member (request
                  (JStr (Base64.encode (flip j delta ciphertext)))
                  (JStr (Hex.encode iv))) (str "context")) = true).
    { unfold request. rewrite member_context. cbn [truthy].
      destruct iv; [discriminate Hi|reflexivity]. }
    rewrite decode_result by assumption.
    destruct (fst (decode_decrypt P _ _ w')) as [d|e].
    + apply caught_verdict.
    + left. reflexivity.
  - intros payload H.
    destruct (accepted_is_signed P _ w' payload H)
      as (d & encoded & Hd & Hp & _ & _ & Hj).
    unfold request in Hd. rewrite member_token, member_context in Hd.
    exists d, encoded. auto.
Qed.

Lemma changed_ciphertext_witness :
  let iv := random_bytes 16 lucky in
  let ciphertext :=
    aes_256_cbc Node.platform (encryption_key Node.platform) iv
      (Utf8.encode (signed_block Node.platform (str "{}"))) in
  let token' := Base64.encode (flip 61 255 ciphertext) in
  Laws Node.platform
  /\ JSON.serialize (JObj []) = Some (str "{}")
  /\ latin1 (str "{}") = true
  /\ fst (decode Node.platform (request (JStr token') (JStr (Hex.encode iv)))
            (fresh zeros))
     = Returned (send 200 (JObj []))
  /\ exists decrypted encoded,
       fst (decode_decrypt Node.platform (Some (JStr token'))
              (Some (JStr (Hex.encode iv))) (fresh zeros)) = Returned decrypted
       /\ pieces (Utf8.decode decrypted)
          = (Some encoded,
             Some (Base64.encode
                     (hmac_sha256 Node.platform
                        (Utf8.encode (SECRET_SIGNATURE_KEY Node.platform))
                        (Base64.decode encoded))))
       /\ JSON_parse_text Node.platform (Base64.decode encoded)
          = Some (JObj []).
Proof.
  cbv zeta.
  assert (A : fst (decode Node.platform
                     (request
                        (JStr (Base64.encode
                                 (flip 61 255
                                    (aes_256_cbc Node.platform
                                       (encryption_key Node.platform)
                                       (random_bytes 16 lucky)
                                       (Utf8.encode
                                          (signed_block Node.platform
                                             (str "{}")))))))
                        (JStr (Hex.encode (random_bytes 16 lucky))))
                     (fresh zeros))
              = Returned (send 200 (JObj [])))
    by (vm_compute; reflexivity).
  split; [exact node_laws|]. split; [reflexivity|]. split; [reflexivity|].
  split; [exact A|].
  exact (proj2 (proj2 (changed_ciphertext Node.platform (JObj []) (str "{}")
                         (fresh lucky) 61%nat 255 (fresh zeros)
                         node_laws eq_refl eq_refl))
           (JObj []) A).
Defined.

(** ** C5: missing fields *)

(** C5.  When the token field or the context field of the request is
    absent or is the empty string, [decode] answers [next] with the
    error MissingParams at status 400, and the world is the one it
    started in: not one library call has been made, so nothing has been
    decoded, decrypted or authenticated. *)
Theorem missing_params_first P body w :
  member body (str "token") = None
  \/ member body (str "token") = Some (JStr [])
  \/ member body (str "context") = None
  \/ member body (str "context") = Some (JStr []) ->
  decode P body w
  = (Returned (next {| statusCode := 400; message := str "MissingParams" |}),
     w).
Proof.
  intros H. apply decode_missing.
  destruct H as [-> | [-> | [-> | ->]]]; auto.
Qed.

Lemma missing_params_first_witness :
  (member [(str "token", JStr (str "x"))] (str "token") = None
   \/ member [(str "token", JStr (str "x"))] (str "token") = Some (JStr [])
   \/ member [(str "token", JStr (str "x"))] (str "context") = None
   \/ member [(str "token", JStr (str "x"))] (str "context") = Some (JStr []))
  /\ decode Node.platform [(str "token", JStr (str "x"))] (fresh zeros)
     = (Returned (next {| statusCode := 400; message := str "MissingParams" |}),
        fresh zeros).
Proof.
  split.
  - right; right; left. reflexivity.
  - apply missing_params_first. right; right; left. reflexivity.
Defined.

(** The three requests of the test suite. *)
Example missing_params_tests P w :
  fst (decode P [] w) = Returned (bad_request "MissingParams")
  /\ fst (decode P [(str "token", JStr (str "meh"))] w)
     = Returned (bad_request "MissingParams")
  /\ fst (decode P [(str "context", JStr (str "meh"))] w)
     = Returned (bad_request "MissingParams").
Proof. repeat split. Qed.

(** ** C6: every failure of the [try] block is InvalidParams *)

(** C6.  [decode] never lets an exception out: whatever the request, it
    answers.  When both fields are there, an exception thrown while the
    buffers are made and the token is decrypted (a field that is no
    string, an IV that has not 16 octets, a ciphertext that is no whole
    number of blocks, a padding that is wrong), and an exception thrown
    after the signature was accepted ([atob] or [JSON.parse] refusing the
    payload), are all answered with InvalidParams at status 400. *)
Theorem decode_failures_are_invalid_params P body w :
  (exists r, fst (decode P body w) = Returned r)
  /\ (truthy (member body (str "token")) = true ->
      truthy (member body (str "context")) = true ->
      (forall e,
          fst (decode_decrypt P (member body (str "token"))
                 (member body (str "context")) w) = Thrown e ->
          fst (decode P body w)
          = Returned (next {| statusCode := 400;
                              message := str "InvalidParams" |}))
      /\ (forall decrypted e w',
             fst (decode_decrypt P (member body (str "token"))
                    (member body (str "context")) w) = Returned decrypted ->
             fst (decode_verify P decrypted w') = Thrown e ->
             fst (decode P body w)
             = Returned (next {| statusCode := 400;
                                 message := str "InvalidParams" |}))).
Proof.
  split; [apply decode_returns|]. intros Ht Hc. split.
  - intros e He. rewrite decode_result, He by assumption. reflexivity.
  - intros d e w' Hd He. rewrite decode_result, Hd by assumption.
    rewrite decode_verify_verdict in He. rewrite He. reflexivity.
Qed.

Lemma decode_failures_are_invalid_params_witness :
  let body := request (JStr (str "asdf")) (JStr (str "potato")) in
  truthy (member body (str "token")) = true
  /\ truthy (member body (str "context")) = true
  /\ fst (decode_decrypt Node.platform (member body (str "token"))
            (member body (str "context")) (fresh zeros))
     = Thrown ERR_CRYPTO_INVALID_IV
  /\ fst (decode Node.platform body (fresh zeros))
     = Returned (next {| statusCode := 400; message := str "InvalidParams" |}).
Proof.
  cbv zeta. split; [reflexivity|]. split; [reflexivity|].
  split; [reflexivity|].
  exact (proj1 (proj2 (decode_failures_are_invalid_params Node.platform
                         (request (JStr (str "asdf")) (JStr (str "potato")))
                         (fresh zeros)) eq_refl eq_refl)
           ERR_CRYPTO_INVALID_IV eq_refl).
Defined.

(** The request of the test suite, on any platform: ["potato"] holds no
    pair of hexadecimal digits, so the IV is empty. *)
Example invalid_params_test P w :
  fst (decode P (request (JStr (str "asdf")) (JStr (str "potato"))) w)
  = Returned (bad_request "InvalidParams").
Proof.
  rewrite decode_result by reflexivity.
  unfold request. rewrite member_token, member_context.
  run. reflexivity.
Qed.

(** One request for each way of failing, on the platform of the
    examples: a token that is a number, a ciphertext of 3 octets, a block
    whose padding is wrong, a signed block whose payload is not JSON. *)
Example invalid_params_stages :
  let context := JStr (Hex.encode (repeat 0 16%nat)) in
  let answer body := fst (decode Node.platform body (fresh zeros)) in
  let stage t :=
    fst (decode_decrypt Node.platform (Some t) (Some context) (fresh zeros)) in
  stage (JNum (Number.of_integer 5)) = Thrown TypeError
  /\ answer (request (JNum (Number.of_integer 5)) context) = Returned (bad_request "InvalidParams")
  /\ stage (JStr (str "asdf")) = Thrown ERR_OSSL_WRONG_FINAL_BLOCK_LENGTH
  /\ answer (request (JStr (str "asdf")) context)
     = Returned (bad_request "InvalidParams")
  /\ stage (JStr (Base64.encode (repeat 0 16%nat))) = Thrown ERR_OSSL_BAD_DECRYPT
  /\ answer (request (JStr (Base64.encode (repeat 0 16%nat))) context)
     = Returned (bad_request "InvalidParams")
  /\ verdict Node.platform (Utf8.encode (signed_block Node.platform (str "{")))
     = Thrown SyntaxError
  /\ answer (request (JStr (issued_token Node.platform (str "{")
                             (repeat 0 16%nat))) context)
     = Returned (bad_request "InvalidParams").
Proof. vm_compute. repeat split. Qed.

(** ** C7: a signature that does not match *)

(** C7.  When the token decrypts, the first piece of the plaintext is
    not empty and the second piece is not the HMAC recomputed over the
    decoded octets of the first, [decode] answers with the error
    Unauthorized at status 400, and the calls it has made end with the
    digest of the HMAC: neither [atob] nor [JSON.parse] has been called,
    so the payload has not been looked at. *)
Theorem signature_mismatch_is_unauthorized P body w decrypted encoded :
  truthy (member body (str "token")) = true ->
  truthy (member body (str "context")) = true ->
  fst (decode_decrypt P (member body (str "token"))
         (member body (str "context")) w) = Returned decrypted ->
  nth_error (split 46 (Utf8.decode decrypted)) 0 = Some encoded ->
  encoded <> [] ->
  loose_neq (nth_error (split 46 (Utf8.decode decrypted)) 1)
    (Base64.encode
       (hmac_sha256 P (Utf8.encode (SECRET_SIGNATURE_KEY P))
          (Base64.decode encoded))) = true ->
  fst (decode P body w)
  = Returned (next {| statusCode := 400; message := str "Unauthorized" |})
  /\ calls (snd (decode P body w))
     = calls w
       ++ [call_Buffer_from base64; call_Buffer_from hex;
           call_Buffer_from utf8; call_createDecipheriv;
           call_decipher_update; call_decipher_final;
           call_toString utf8; call_createHmac (SECRET_SIGNATURE_KEY P);
           call_Buffer_from base64;
           call_hmac_update (Base64.decode encoded); call_hmac_digest].
Proof.
  intros Ht Hc Hd H0 Hne Hs.
  destruct (split_pieces (Utf8.decode decrypted)) as [E0 E1].
  rewrite E0 in H0. injection H0 as H0. rewrite E1 in Hs.
  fold (signature_of P encoded) in Hs. split.
  - rewrite decode_result, Hd by assumption. unfold verdict. cbv zeta.
    rewrite H0. destruct encoded as [|c e]; [congruence|].
    rewrite Hs. reflexivity.
  - rewrite decode_present by assumption. unfold try_catch, bind.
    pose proof (decode_decrypt_calls P _ _ w decrypted Hd) as Cd.
    destruct (decode_decrypt P _ _ w) as [[d|e] w1]; cbn [fst] in Hd;
      [|discriminate]. injection Hd as ->. cbn [snd] in Cd.
    pose proof (decode_verify_calls P decrypted w1) as Cv. cbv zeta in Cv.
    rewrite H0 in Cv. destruct (Cv Hne) as (rest & Cv' & Hu & _).
    rewrite (Hu Hs), app_nil_r in Cv'.
    destruct (decode_verify P decrypted w1) as [[r|e] w2];
      cbv beta iota; unfold ret; cbn [snd] in *;
      rewrite Cv', Cd; unfold decrypt_calls, verify_calls;
      rewrite <- app_assoc; reflexivity.
Qed.

Lemma signature_mismatch_is_unauthorized_witness :
  let iv := repeat 0 16%nat in
  let plaintext := Utf8.encode (str "e30=.AAAA") in
  let body := request (JStr (sealed Node.platform plaintext iv))
                (JStr (Hex.encode iv)) in
  truthy (member body (str "token")) = true
  /\ truthy (member body (str "context")) = true
  /\ fst (decode_decrypt Node.platform (member body (str "token"))
            (member body (str "context")) (fresh zeros)) = Returned plaintext
  /\ nth_error (split 46 (Utf8.decode plaintext)) 0 = Some (str "e30=")
  /\ str "e30=" <> []
  /\ loose_neq (nth_error (split 46 (Utf8.decode plaintext)) 1)
       (Base64.encode
          (hmac_sha256 Node.platform
             (Utf8.encode (SECRET_SIGNATURE_KEY Node.platform))
             (Base64.decode (str "e30=")))) = true
  /\ fst (decode Node.platform body (fresh zeros))
     = Returned (next {| statusCode := 400; message := str "Unauthorized" |}).
Proof.
  cbv zeta.
  assert (H1 : truthy (member (request (JStr (sealed Node.platform
                (Utf8.encode (str "e30=.AAAA")) (repeat 0 16%nat)))
                (JStr (Hex.encode (repeat 0 16%nat)))) (str "token")) = true)
    by (vm_compute; reflexivity).
  assert (H2 : truthy (member (request (JStr (sealed Node.platform
                (Utf8.encode (str "e30=.AAAA")) (repeat 0 16%nat)))
                (JStr (Hex.encode (repeat 0 16%nat)))) (str "context")) = true)
    by (vm_compute; reflexivity).
  assert (H3 : fst (decode_decrypt Node.platform
                 (member (request (JStr (sealed Node.platform
                    (Utf8.encode (str "e30=.AAAA")) (repeat 0 16%nat)))
                    (JStr (Hex.encode (repeat 0 16%nat)))) (str "token"))
                 (member (request (JStr (sealed Node.platform
                    (Utf8.encode (str "e30=.AAAA")) (repeat 0 16%nat)))
                    (JStr (Hex.encode (repeat 0 16%nat)))) (str "context"))
                 (fresh zeros))
               = Returned (Utf8.encode (str "e30=.AAAA")))
    by (vm_compute; reflexivity).
  assert (H4 : nth_error (split 46 (Utf8.decode (Utf8.encode (str "e30=.AAAA")))) 0
               = Some (str "e30=")) by (vm_compute; reflexivity).
  assert (H5 : str "e30=" <> []) by discriminate.
  assert (H6 : loose_neq
                 (nth_error (split 46 (Utf8.decode (Utf8.encode (str "e30=.AAAA")))) 1)
                 (Base64.encode
                    (hmac_sha256 Node.platform
                       (Utf8.encode (SECRET_SIGNATURE_KEY Node.platform))
                       (Base64.decode (str "e30=")))) = true)
    by (vm_compute; reflexivity).
  repeat (split; [assumption|]).
  exact (proj1 (signature_mismatch_is_unauthorized Node.platform _ (fresh zeros)
                  _ _ H1 H2 H3 H4 H5 H6)).
Defined.

(** ** C10: a plaintext without a full stop *)

(** With both fields there, the answer is the verdict on the plaintext. *)
Lemma decode_of_plaintext P body w decrypted :
  truthy (member body (str "token")) = true ->
  truthy (member body (str "context")) = true ->
  fst (decode_decrypt P (member body (str "token"))
         (member body (str "context")) w) = Returned decrypted ->
  fst (decode P body w) = caught (verdict P decrypted).
Proof. intros Ht Hc Hd. rewrite decode_result, Hd by assumption. reflexivity. Qed.

(** On every platform that satisfies the laws, the token of the empty
    plaintext decrypts, and [decode] answers InvalidParams. *)
Lemma empty_plaintext_is_invalid_params P (L : Laws P) iv w :
  length iv = 16%nat -> octets iv ->
  let body := request (JStr (sealed P [] iv)) (JStr (Hex.encode iv)) in
  fst (decode_decrypt P (member body (str "token"))
         (member body (str "context")) w) = Returned []
  /\ fst (decode P body w) = Returned (bad_request "InvalidParams").
Proof.
  intros Hi Oi body.
  assert (D : fst (decode_decrypt P (member body (str "token"))
                     (member body (str "context")) w) = Returned []).
  { unfold body, request. rewrite member_token, member_context.
    apply decrypt_sealed; try assumption. constructor. }
  split; [exact D|].
  rewrite (decode_of_plaintext P body w []); [reflexivity| | |exact D].
  - unfold body, request. rewrite member_token. cbn [truthy].
    unfold sealed.
    destruct (aes_256_cbc_shape P L iv [] Hi Oi (Forall_nil _)) as [Hl _].
    destruct (aes_256_cbc P _ iv []) as [|x r] eqn:E;
      [cbn [length] in Hl; lia|].
    destruct (Base64.encode (x :: r)) eqn:E'; [|reflexivity].
    exfalso. eapply base64_encode_nonempty; [|exact E']. discriminate.
  - unfold body, request. rewrite member_context. cbn [truthy].
    destruct iv; [discriminate|reflexivity].
Qed.

(** C10, as stated, fails: the token below decrypts, to the empty
    plaintext, in which there is no full stop; [decode] answers
    InvalidParams, not Unauthorized. *)
Lemma no_full_stop_counterexample :
  let iv := repeat 0 16%nat in
  let body := request (JStr (str "zKGJcn0+JLNUCgiokKlCUw=="))
                (JStr (str "00000000000000000000000000000000")) in
  sealed Node.platform [] iv = str "zKGJcn0+JLNUCgiokKlCUw=="
  /\ fst (decode_decrypt Node.platform (member body (str "token"))
            (member body (str "context")) (fresh zeros)) = Returned []
  /\ ~ In 46 (Utf8.decode [])
  /\ fst (decode Node.platform body (fresh zeros))
     = Returned (next {| statusCode := 400; message := str "InvalidParams" |})
  /\ fst (decode Node.platform body (fresh zeros))
     <> Returned (next {| statusCode := 400; message := str "Unauthorized" |}).
Proof.
  cbv zeta. split; [vm_compute; reflexivity|].
  split; [vm_compute; reflexivity|].
  split; [intros []|].
  assert (E : fst (decode Node.platform
                     (request (JStr (str "zKGJcn0+JLNUCgiokKlCUw=="))
                        (JStr (str "00000000000000000000000000000000")))
                     (fresh zeros))
              = Returned (next {| statusCode := 400;
                                  message := str "InvalidParams" |}))
    by (vm_compute; reflexivity).
  split; [exact E|]. rewrite E. discriminate.
Qed.

(** C10, amended.  When the token decrypts to a plaintext that is not
    empty and holds no full stop, the whole plaintext is [encoded], the
    signature is [undefined], and [decode] answers with the error
    Unauthorized at status 400. *)
Theorem no_full_stop_is_unauthorized P body w decrypted :
  truthy (member body (str "token")) = true ->
  truthy (member body (str "context")) = true ->
  fst (decode_decrypt P (member body (str "token"))
         (member body (str "context")) w) = Returned decrypted ->
  Utf8.decode decrypted <> [] ->
  ~ In 46 (Utf8.decode decrypted) ->
  nth_error (split 46 (Utf8.decode decrypted)) 0 = Some (Utf8.decode decrypted)
  /\ nth_error (split 46 (Utf8.decode decrypted)) 1 = None
  /\ fst (decode P body w)
     = Returned (next {| statusCode := 400; message := str "Unauthorized" |}).
Proof.
  intros Ht Hc Hd Hne Hno.
  destruct (split_pieces (Utf8.decode decrypted)) as [E0 E1].
  rewrite E0, E1, (before_dot_none _ Hno), (after_dot_none _ Hno).
  split; [reflexivity|]. split; [reflexivity|].
  rewrite (decode_of_plaintext P body w decrypted) by assumption.
  unfold verdict. cbv zeta.
  rewrite (before_dot_none _ Hno), (after_dot_none _ Hno).
  destruct (Utf8.decode decrypted); [congruence|reflexivity].
Qed.

Lemma no_full_stop_is_unauthorized_witness :
  let iv := repeat 0 16%nat in
  let plaintext := Utf8.encode (str "hello") in
  let body := request (JStr (sealed Node.platform plaintext iv))
                (JStr (Hex.encode iv)) in
  truthy (member body (str "token")) = true
  /\ truthy (member body (str "context")) = true
  /\ fst (decode_decrypt Node.platform (member body (str "token"))
            (member body (str "context")) (fresh zeros)) = Returned plaintext
  /\ Utf8.decode plaintext <> []
  /\ ~ In 46 (Utf8.decode plaintext)
  /\ fst (decode Node.platform body (fresh zeros))
     = Returned (next {| statusCode := 400; message := str "Unauthorized" |}).
Proof.
  cbv zeta.
  assert (H1 : truthy (member (request (JStr (sealed Node.platform
                (Utf8.encode (str "hello")) (repeat 0 16%nat)))
                (JStr (Hex.encode (repeat 0 16%nat)))) (str "token")) = true)
    by (vm_compute; reflexivity).
  assert (H2 : truthy (member (request (JStr (sealed Node.platform
                (Utf8.encode (str "hello")) (repeat 0 16%nat)))
                (JStr (Hex.encode (repeat 0 16%nat)))) (str "context")) = true)
    by (vm_compute; reflexivity).
  assert (H3 : fst (decode_decrypt Node.platform
                 (member (request (JStr (sealed Node.platform
                    (Utf8.encode (str "hello")) (repeat 0 16%nat)))
                    (JStr (Hex.encode (repeat 0 16%nat)))) (str "token"))
                 (member (request (JStr (sealed Node.platform
                    (Utf8.encode (str "hello")) (repeat 0 16%nat)))
                    (JStr (Hex.encode (repeat 0 16%nat)))) (str "context"))
                 (fresh zeros))
               = Returned (Utf8.encode (str "hello")))
    by (vm_compute; reflexivity).
  assert (H4 : Utf8.decode (Utf8.encode (str "hello")) <> [])
    by (vm_compute; discriminate).
  assert (H5 : ~ In 46 (Utf8.decode (Utf8.encode (str "hello")))).
  { vm_compute. intros H. repeat (destruct H as [H|H]; [discriminate H|]).
    exact H. }
  repeat (split; [assumption|]).
  exact (proj2 (proj2 (no_full_stop_is_unauthorized Node.platform _
                         (fresh zeros) _ H1 H2 H3 H4 H5))).
Defined.

(** ** C8: how the plaintext is split *)

(** C8, as stated, fails: the signature that the handler compares is
    the second piece of the split, not all of the text after the first
    full stop.  On ["a.b.c"] the two differ; and the token below, whose
    plaintext is the signed block of [{}] followed by [".junk"], is
    accepted although the text after the first full stop is not the
    recomputed HMAC. *)
Lemma split_first_counterexample :
  let iv := repeat 0 16%nat in
  let plaintext :=
    Utf8.encode (signed_block Node.platform (str "{}") ++ str ".junk") in
  let body := request (JStr (sealed Node.platform plaintext iv))
                (JStr (Hex.encode iv)) in
  pieces (str "a.b.c") = (Some (str "a"), Some (str "b"))
  /\ Spec.split_first (str "a.b.c") = (Some (str "a"), Some (str "b.c"))
  /\ pieces (str "a.b.c") <> Spec.split_first (str "a.b.c")
  /\ fst (decode_decrypt Node.platform (member body (str "token"))
            (member body (str "context")) (fresh zeros)) = Returned plaintext
  /\ loose_neq (snd (Spec.split_first (Utf8.decode plaintext)))
       (signature_of Node.platform (str "e30=")) = true
  /\ fst (decode Node.platform body (fresh zeros))
     = Returned (send 200 (JObj [])).
Proof.
  cbv zeta. split; [reflexivity|]. split; [reflexivity|].
  split; [discriminate|]. vm_compute. repeat split.
Qed.

(** C8, amended.  The plaintext is split at every full stop; [encoded]
    is the text before the first one, the signature is the text between
    the first and the second one (up to the end when there is no second,
    [undefined] when there is none at all), the answer is the verdict on
    these two, and it is InvalidParams when [encoded] is empty. *)
Theorem split_takes_two_pieces P decrypted :
  let text := Utf8.decode decrypted in
  pieces text = (Some (before_dot text), option_map before_dot (after_dot text))
  /\ (forall w, fst (decode_verify P decrypted w) = verdict P decrypted)
  /\ (before_dot text = [] ->
      (forall w, fst (decode_verify P decrypted w)
                 = Returned (next {| statusCode := 400;
                                     message := str "InvalidParams" |}))
      /\ (forall body w,
             truthy (member body (str "token")) = true ->
             truthy (member body (str "context")) = true ->
             fst (decode_decrypt P (member body (str "token"))
                    (member body (str "context")) w) = Returned decrypted ->
             fst (decode P body w)
             = Returned (next {| statusCode := 400;
                                 message := str "InvalidParams" |}))).
Proof.
  cbv zeta. split; [|split].
  - unfold pieces. destruct (split_pieces (Utf8.decode decrypted)) as [-> ->].
    reflexivity.
  - intros w. apply decode_verify_verdict.
  - intros He.
    assert (V : verdict P decrypted = Returned (bad_request "InvalidParams"))
      by (unfold verdict; cbv zeta; rewrite He; reflexivity).
    split.
    + intros w. rewrite decode_verify_verdict. exact V.
    + intros body w Ht Hc Hd.
      rewrite (decode_of_plaintext P body w decrypted), V by assumption.
      reflexivity.
Qed.

Lemma split_takes_two_pieces_witness :
  let iv := repeat 0 16%nat in
  let plaintext := Utf8.encode (str ".e30=") in
  let body := request (JStr (sealed Node.platform plaintext iv))
                (JStr (Hex.encode iv)) in
  before_dot (Utf8.decode plaintext) = []
  /\ truthy (member body (str "token")) = true
  /\ truthy (member body (str "context")) = true
  /\ fst (decode_decrypt Node.platform (member body (str "token"))
            (member body (str "context")) (fresh zeros)) = Returned plaintext
  /\ fst (decode Node.platform body (fresh zeros))
     = Returned (next {| statusCode := 400; message := str "InvalidParams" |}).
Proof.
  cbv zeta.
  assert (H0 : before_dot (Utf8.decode (Utf8.encode (str ".e30="))) = [])
    by reflexivity.
  assert (H1 : truthy (member (request (JStr (sealed Node.platform
                (Utf8.encode (str ".e30=")) (repeat 0 16%nat)))
                (JStr (Hex.encode (repeat 0 16%nat)))) (str "token")) = true)
    by (vm_compute; reflexivity).
  assert (H2 : truthy (member (request (JStr (sealed Node.platform
                (Utf8.encode (str ".e30=")) (repeat 0 16%nat)))
                (JStr (Hex.encode (repeat 0 16%nat)))) (str "context")) = true)
    by (vm_compute; reflexivity).
  assert (H3 : fst (decode_decrypt Node.platform
                 (member (request (JStr (sealed Node.platform
                    (Utf8.encode (str ".e30=")) (repeat 0 16%nat)))
                    (JStr (Hex.encode (repeat 0 16%nat)))) (str "token"))
                 (member (request (JStr (sealed Node.platform
                    (Utf8.encode (str ".e30=")) (repeat 0 16%nat)))
                    (JStr (Hex.encode (repeat 0 16%nat)))) (str "context"))
                 (fresh zeros))
               = Returned (Utf8.encode (str ".e30=")))
    by (vm_compute; reflexivity).
  repeat (split; [assumption|]).
  exact (proj2 (proj2 (proj2 (split_takes_two_pieces Node.platform
                                (Utf8.encode (str ".e30="))))
                  H0) _ (fresh zeros) H1 H2 H3).
Defined.

(** ** C9: errors of [encode] *)

Lemma encode_unserializable P body w :
  JSON.serialize body = None ->
  encode P body w = (Thrown TypeError, logged call_JSON_stringify w).
Proof. intros Hs. run. rewrite Hs. reflexivity. Qed.

(** C9, as stated, fails.  The payload [{"city": "\u0141\u00f3d\u017a"}]
    is JSON-serializable and [encode] has an error condition for it: on
    every platform [btoa] throws out of the handler, which is no
    structured error, SerializationError or other.  Nor is there one for
    a payload that [JSON.stringify] refuses, as [{"n": 1n}]: its
    [TypeError] leaves the handler. *)
Lemma serialization_error_counterexample :
  JSON.serialize lodz
  = Some ([123; 34] ++ str "city"
          ++ [34; 58; 34; 321; 243; 100; 378; 34; 125])
  /\ JSON.serialize (JObj [(str "n", JBigInt 1)]) = None
  /\ forall P w,
       fst (encode P lodz w) = Thrown InvalidCharacterError
       /\ fst (encode P (JObj [(str "n", JBigInt 1)]) w) = Thrown TypeError
       /\ forall body status,
            In body [lodz; JObj [(str "n", JBigInt 1)]] ->
            fst (encode P body w)
            <> Returned (next {| statusCode := status;
                                 message := str "SerializationError" |}).
Proof.
  split; [reflexivity|]. split; [reflexivity|]. intros P w.
  assert (A : fst (encode P lodz w) = Thrown InvalidCharacterError)
    by (rewrite (encode_beyond_latin1 P lodz _ w eq_refl eq_refl);
        reflexivity).
  assert (B : fst (encode P (JObj [(str "n", JBigInt 1)]) w)
              = Thrown TypeError)
    by (rewrite encode_unserializable by reflexivity; reflexivity).
  split; [exact A|]. split; [exact B|].
  intros body status [<-|[<-|[]]]; [rewrite A|rewrite B]; discriminate.
Qed.

(** C9, amended.  The handler has one answer, at status 200, and no
    error of its own.  With a key of 32 octets, [encode] answers every
    payload whose JSON text is made of code units up to 0xFF with a
    token and a context; when [JSON.stringify] refuses the payload, its
    [TypeError] leaves the handler uncaught; and [next] is never called,
    with SerializationError or with any other error. *)
Theorem encode_answers_or_throws P body w :
  length (encryption_key P) = 32%nat ->
  (forall text,
      JSON.serialize body = Some text -> latin1 text = true ->
      let iv := random_bytes 16 (entropy w) in
      fst (encode P body w)
      = Returned (send 200 (JObj [(str "token", JStr (issued_token P text iv));
                                  (str "context", JStr (Hex.encode iv))])))
  /\ (JSON.serialize body = None ->
      fst (encode P body w) = Thrown TypeError)
  /\ forall error, fst (encode P body w) <> Returned (next error).
Proof.
  intros Hk.
  assert (A : forall text,
            JSON.serialize body = Some text -> latin1 text = true ->
            fst (encode P body w)
            = Returned (send 200
                          (JObj [(str "token",
                                  JStr (issued_token P text
                                          (random_bytes 16 (entropy w))));
                                 (str "context",
                                  JStr (Hex.encode
                                          (random_bytes 16 (entropy w))))]))).
  { intros text Hs Hl. rewrite (encode_run P body text w Hs Hl Hk).
    reflexivity. }
  assert (C : JSON.serialize body = None ->
              fst (encode P body w) = Thrown TypeError).
  { intros Hs. rewrite encode_unserializable by exact Hs. reflexivity. }
  repeat split; try assumption.
  intros error. destruct (JSON.serialize body) as [text|] eqn:Hs.
  - destruct (latin1 text) eqn:Hl.
    + rewrite (A text eq_refl Hl). discriminate.
    + rewrite (encode_beyond_latin1 P body text w Hs Hl). discriminate.
  - rewrite (C eq_refl). discriminate.
Qed.

Lemma encode_answers_or_throws_witness :
  length (encryption_key Node.platform) = 32%nat
  /\ JSON.serialize a_one = Some [123; 34; 97; 34; 58; 49; 125]
  /\ latin1 [123; 34; 97; 34; 58; 49; 125] = true
  /\ fst (encode Node.platform a_one (fresh zeros))
     = Returned
         (send 200
            (JObj [(str "token",
                    JStr (issued_token Node.platform
                            [123; 34; 97; 34; 58; 49; 125]
                            (random_bytes 16 zeros)));
                   (str "context", JStr (Hex.encode (random_bytes 16 zeros)))])).
Proof.
  split; [reflexivity|]. split; [vm_compute; reflexivity|].
  split; [reflexivity|].
  exact (proj1 (encode_answers_or_throws Node.platform a_one (fresh zeros)
                  eq_refl) [123; 34; 97; 34; 58; 49; 125]
           ltac:(vm_compute; reflexivity) eq_refl).
Defined.

(** ** C4: what the HMAC is computed over *)

(** C4.  In [encode], the HMAC is created with the signature key and
    fed the octets that [Buffer.from(encoded, 'base64')] makes of the
    base64 text [encoded]: they are the octets of the JSON text, not
    those of [encoded] itself, and the token holds [encoded], a full stop
    and the base64 of that HMAC.  In [decode], whenever [encoded] is not
    empty, the HMAC is created with the same key and fed the decoded
    octets of [encoded] in the same way, and the answer is Unauthorized
    exactly when the signature found is not the base64 of that HMAC. *)
Theorem signature_over_decoded_octets P body text w :
  JSON.serialize body = Some text ->
  latin1 text = true ->
  length (encryption_key P) = 32%nat ->
  let key := SECRET_SIGNATURE_KEY P in
  let encoded := Base64.encode text in
  let data := Base64.decode encoded in
  let iv := random_bytes 16 (entropy w) in
  calls (snd (encode P body w))
  = calls w
    ++ [call_JSON_stringify; call_btoa; call_createHmac key;
        call_Buffer_from base64; call_hmac_update data; call_hmac_digest;
        call_randomBytes 16; call_Buffer_from utf8; call_createCipheriv;
        call_cipher_update; call_cipher_final; call_toString base64;
        call_toString hex]
  /\ data = text
  /\ data <> Utf8.encode encoded
  /\ fst (encode P body w)
     = Returned
         (send 200
            (JObj [(str "token",
                    JStr (sealed P
                            (Utf8.encode
                               (encoded ++ str "."
                                ++ Base64.encode
                                     (hmac_sha256 P (Utf8.encode key) data)))
                            iv));
                   (str "context", JStr (Hex.encode iv))]))
  /\ forall decrypted w',
       let encoded' := before_dot (Utf8.decode decrypted) in
       let signature := option_map before_dot (after_dot (Utf8.decode decrypted)) in
       encoded' <> [] ->
       (exists rest,
           calls (snd (decode_verify P decrypted w'))
           = calls w'
             ++ [call_toString utf8; call_createHmac key;
                 call_Buffer_from base64;
                 call_hmac_update (Base64.decode encoded'); call_hmac_digest]
             ++ rest)
       /\ (fst (decode_verify P decrypted w')
           = Returned (next {| statusCode := 400;
                               message := str "Unauthorized" |})
           <-> loose_neq signature
                 (Base64.encode
                    (hmac_sha256 P (Utf8.encode key) (Base64.decode encoded')))
               = true).
Proof.
  intros Hs Hl Hk. cbv zeta.
  assert (Ht : text <> []) by (eapply serialize_nonempty; exact Hs).
  rewrite (encode_run P body text w Hs Hl Hk). cbn [fst snd calls].
  split; [reflexivity|]. split; [|split; [|split; [reflexivity|]]].
  - apply base64_decode_encode, latin1_octets, Hl.
  - rewrite base64_decode_encode by (apply latin1_octets; exact Hl).
    rewrite utf8_encode_ascii by apply plain_ascii, base64_encode_plain.
    intros E. pose proof (base64_encode_longer text Ht) as Hlen.
    rewrite <- E in Hlen. lia.
  - intros decrypted w' Hne. split.
    + destruct (decode_verify_calls P decrypted w' Hne) as (rest & Hc & _).
      exists rest. exact Hc.
    + rewrite decode_verify_verdict. unfold verdict. cbv zeta.
      fold (signature_of P (before_dot (Utf8.decode decrypted))).
      destruct (before_dot (Utf8.decode decrypted)) as [|c e];
        [congruence|].
      destruct (loose_neq _ _); [split; reflexivity|].
      destruct (atob_valid _); [|split; discriminate].
      destruct (JSON_parse_text P _); split; discriminate.
Qed.

Lemma signature_over_decoded_octets_witness :
  JSON.serialize a_one = Some [123; 34; 97; 34; 58; 49; 125]
  /\ latin1 [123; 34; 97; 34; 58; 49; 125] = true
  /\ length (encryption_key Node.platform) = 32%nat
  /\ Base64.encode [123; 34; 97; 34; 58; 49; 125] = str "eyJhIjoxfQ=="
  /\ calls (snd (encode Node.platform a_one (fresh zeros)))
     = [call_JSON_stringify; call_btoa;
        call_createHmac (str "signature secret");
        call_Buffer_from base64;
        call_hmac_update [123; 34; 97; 34; 58; 49; 125]; call_hmac_digest;
        call_randomBytes 16; call_Buffer_from utf8; call_createCipheriv;
        call_cipher_update; call_cipher_final; call_toString base64;
        call_toString hex].
Proof.
  split; [reflexivity|]. split; [reflexivity|]. split; [reflexivity|].
  split; [reflexivity|].
  exact (proj1 (signature_over_decoded_octets Node.platform a_one
                  [123; 34; 97; 34; 58; 49; 125] (fresh zeros)
                  eq_refl eq_refl eq_refl)).
Defined.

(** ** C3: a token with the context of another *)

(** On every platform that satisfies the laws and reads [{"a":1}] back,
    the token of [{"a": 1}] is accepted with a context that differs from
    its own in the low two bits of the tenth octet: in the plaintext that
    turns the base64 digit [Q] into [R], which decodes to the same
    octets. *)
Lemma foreign_context_accepted P (L : Laws P) ivA w :
  length ivA = 16%nat -> octets ivA ->
  JSON_parse_text P [123; 34; 97; 34; 58; 49; 125] = Some a_one ->
  let ivB := xor_bytes ivA (repeat 0 9%nat ++ 3 :: repeat 0 6%nat) in
  fst (decode P (request (JStr (issued_token P [123; 34; 97; 34; 58; 49; 125] ivA))
                   (JStr (Hex.encode ivB))) w)
  = Returned (send 200 a_one).
Proof.
  intros Hi Oi Hp ivB.
  set (delta := repeat 0 9%nat ++ 3 :: repeat 0 6%nat) in *.
  assert (Ld : length delta = 16%nat) by reflexivity.
  assert (Od : octets delta) by (apply octets_check; reflexivity).
  assert (Hb : length ivB = 16%nat)
    by (unfold ivB; rewrite xor_bytes_length, Hi, Ld; reflexivity).
  assert (Ob : octets ivB) by (apply xor_bytes_octets; assumption).
  unfold request.
  rewrite (decode_issued_under P L) by (try assumption; discriminate || reflexivity).
  assert (X : xor_bytes ivA ivB = delta).
  { unfold ivB. rewrite <- xor_bytes_assoc, xor_bytes_self, Hi.
    clear. unfold delta. reflexivity. }
  rewrite X.
  set (sig := signature_of P (Base64.encode [123; 34; 97; 34; 58; 49; 125])).
  assert (Sb : signed_block P [123; 34; 97; 34; 58; 49; 125]
               = str "eyJhIjoxfQ==" ++ 46 :: sig) by reflexivity.
  assert (A : xor_head delta (Utf8.encode (signed_block P [123; 34; 97; 34; 58; 49; 125]))
              = str "eyJhIjoxfR==" ++ 46 :: sig).
  { rewrite utf8_encode_ascii by apply signed_block_ascii. rewrite Sb.
    unfold xor_head, delta.
    change (str "eyJhIjoxfQ==" ++ 46 :: sig)
      with (101 :: 121 :: 74 :: 104 :: 73 :: 106 :: 111 :: 120 :: 102 :: 81
            :: 61 :: 61 :: 46 :: sig).
    change (firstn 16 (101 :: 121 :: 74 :: 104 :: 73 :: 106 :: 111 :: 120
                       :: 102 :: 81 :: 61 :: 61 :: 46 :: sig))
      with (101 :: 121 :: 74 :: 104 :: 73 :: 106 :: 111 :: 120 :: 102 :: 81
            :: 61 :: 61 :: 46 :: firstn 3 sig).
    change (skipn 16 (101 :: 121 :: 74 :: 104 :: 73 :: 106 :: 111 :: 120
                      :: 102 :: 81 :: 61 :: 61 :: 46 :: sig))
      with (skipn 3 sig).
    change (repeat 0 9%nat ++ 3 :: repeat 0 6%nat)
      with (0 :: 0 :: 0 :: 0 :: 0 :: 0 :: 0 :: 0 :: 0 :: 3 :: 0 :: 0 :: 0
            :: repeat 0 3%nat).
    cbn [xor_bytes N.lxor Pos.lxor Pos.succ].
    rewrite xor_bytes_zero by (rewrite length_firstn; lia).
    cbn [app]. rewrite firstn_skipn. reflexivity. }
  rewrite A. unfold verdict. cbv zeta.
  assert (Ps : Forall plain sig) by apply base64_encode_plain.
  assert (Pe : Forall plain (str "eyJhIjoxfR=="))
    by (repeat (apply Forall_cons; [split; [reflexivity|discriminate]|]);
        apply Forall_nil).
  rewrite utf8_decode_ascii.
  2:{ apply Forall_app. split; [apply plain_ascii, Pe|].
      apply Forall_cons; [reflexivity|apply plain_ascii, Ps]. }
  rewrite before_dot_app, after_dot_app by exact Pe.
  cbn [option_map]. rewrite (before_dot_plain sig Ps).
  change (str "eyJhIjoxfR==") with (101 :: str "yJhIjoxfR==").
  cbv beta iota.
  change (101 :: str "yJhIjoxfR==") with (str "eyJhIjoxfR==").
  assert (S' : signature_of P (str "eyJhIjoxfR==") = sig) by reflexivity.
  rewrite S'. unfold loose_neq. rewrite jsstring_eqb_refl. cbn [negb].
  change (atob_valid (str "eyJhIjoxfR==")) with true. cbv beta iota.
  change (Base64.decode (str "eyJhIjoxfR=="))
    with [123; 34; 97; 34; 58; 49; 125].
  rewrite Hp. reflexivity.
Qed.

(** C3, as stated, fails: two calls of [encode], whose contexts differ,
    and [decode] accepts the token of the first with the context of the
    second. *)
Lemma context_binding_counterexample :
  let tokenA :=
    str "fwJJcvSBeFB0WQ0o1QxSAn5LqgaQMBZQYOUm1la61qobPKD3+4JmzrLVoqzt3jqKUCOg/uRyUY2SlzF5Jyn2ew==" in
  let contextA := str "00000000000000000000000000000000" in
  let tokenB :=
    str "Q7NPFr6B28POIbHveJKw9Z4yQ72qA0oAf7uEIOyESjq/Hr8W5m63OBXxTcM42lrQvAM5+cNPgx8j0ayYnBiVlg==" in
  let contextB := str "00000000000000000003000000000000" in
  fst (encode Node.platform a_one (fresh zeros))
  = Returned (send 200 (JObj (request (JStr tokenA) (JStr contextA))))
  /\ fst (encode Node.platform (JObj []) (fresh tenth))
     = Returned (send 200 (JObj (request (JStr tokenB) (JStr contextB))))
  /\ contextA <> contextB
  /\ fst (decode Node.platform (request (JStr tokenA) (JStr contextB))
            (fresh zeros))
     = Returned (send 200 a_one).
Proof.
  cbv zeta. split; [vm_compute; reflexivity|].
  split; [vm_compute; reflexivity|]. split; [discriminate|].
  vm_compute. reflexivity.
Qed.

(** C3, amended.  The token of one call of [encode] paired with the
    context of another is not always refused.  [decode] answers as lines
    85 to 102 do on the signed block of the first call with the
    difference of the two IVs added to its first 16 octets: with
    InvalidParams, with Unauthorized, or with a payload at status 200. *)
Theorem foreign_context P bodyA textA wA bodyB textB wB w :
  Laws P ->
  JSON.serialize bodyA = Some textA -> latin1 textA = true ->
  JSON.serialize bodyB = Some textB -> latin1 textB = true ->
  let ivA := random_bytes 16 (entropy wA) in
  let ivB := random_bytes 16 (entropy wB) in
  let tokenA := issued_token P textA ivA in
  let tokenB := issued_token P textB ivB in
  let answer :=
    fst (decode P (request (JStr tokenA) (JStr (Hex.encode ivB))) w) in
  fst (encode P bodyA wA)
  = Returned (send 200 (JObj (request (JStr tokenA) (JStr (Hex.encode ivA)))))
  /\ fst (encode P bodyB wB)
     = Returned (send 200 (JObj (request (JStr tokenB) (JStr (Hex.encode ivB)))))
  /\ answer
     = caught (verdict P (xor_head (xor_bytes ivA ivB)
                            (Utf8.encode (signed_block P textA))))
  /\ (answer = Returned (next {| statusCode := 400;
                                 message := str "InvalidParams" |})
      \/ answer = Returned (next {| statusCode := 400;
                                    message := str "Unauthorized" |})
      \/ exists payload, answer = Returned (send 200 payload)).
Proof.
  intros L HsA HlA HsB HlB. cbv zeta.
  rewrite (encode_run P bodyA textA wA HsA HlA (encryption_key_length P L)).
  rewrite (encode_run P bodyB textB wB HsB HlB (encryption_key_length P L)).
  split; [reflexivity|]. split; [reflexivity|].
  assert (E : fst (decode P (request
                      (JStr (issued_token P textA (random_bytes 16 (entropy wA))))
                      (JStr (Hex.encode (random_bytes 16 (entropy wB))))) w)
              = caught (verdict P (xor_head
                          (xor_bytes (random_bytes 16 (entropy wA))
                             (random_bytes 16 (entropy wB)))
                          (Utf8.encode (signed_block P textA))))).
  { unfold request. apply (decode_issued_under P L);
      try apply random_bytes_length; try apply random_bytes_octets;
      try assumption. eapply serialize_nonempty; exact HsA. }
  split; [exact E|]. rewrite E. apply caught_verdict.
Qed.

Lemma foreign_context_witness :
  Laws Node.platform
  /\ JSON.serialize a_one = Some [123; 34; 97; 34; 58; 49; 125]
  /\ latin1 [123; 34; 97; 34; 58; 49; 125] = true
  /\ JSON.serialize (JObj []) = Some (str "{}")
  /\ latin1 (str "{}") = true
  /\ fst (decode Node.platform
            (request (JStr (issued_token Node.platform
                              [123; 34; 97; 34; 58; 49; 125]
                              (random_bytes 16 zeros)))
               (JStr (Hex.encode (random_bytes 16 tenth)))) (fresh zeros))
     = caught (verdict Node.platform
                 (xor_head (xor_bytes (random_bytes 16 zeros)
                              (random_bytes 16 tenth))
                    (Utf8.encode (signed_block Node.platform
                                    [123; 34; 97; 34; 58; 49; 125])))).
Proof.
  split; [exact node_laws|]. split; [reflexivity|]. split; [reflexivity|].
  split; [reflexivity|]. split; [reflexivity|].
  exact (proj1 (proj2 (proj2 (foreign_context Node.platform a_one
                                [123; 34; 97; 34; 58; 49; 125] (fresh zeros)
                                (JObj []) (str "{}") (fresh tenth) (fresh zeros)
                                node_laws eq_refl eq_refl eq_refl eq_refl)))).
Defined.

(** * More of the code *)

(** ** The earlier revision of [decode] *)

(** One statement of a handler: what follows it is looked at when it
    returns. *)
Ltac step :=
  match goal with
  | |- context [match ?c with pair _ _ => _ end] =>
      lazymatch c with
      | context [match _ with _ => _ end] => fail
      | _ => destruct c as [[?|?] ?]
      end
  end; cbv beta iota; cbn [fst]; try reflexivity.

Section PreviousRuns.

Variable P : Platform.

Lemma previous_encode_same body : Previous.encode P body = encode P body.
Proof. reflexivity. Qed.

Lemma previous_decode_missing body w :
  truthy (member body (str "token")) = false
  \/ truthy (member body (str "context")) = false ->
  Previous.decode P body w = (Returned (bad_request "Missing Params"), w).
Proof.
  intros H. unfold Previous.decode.
  destruct H as [-> | ->]; cbn [negb orb]; [reflexivity|].
  rewrite orb_true_r. reflexivity.
Qed.

Lemma previous_decode_result body w :
  truthy (member body (str "token")) = true ->
  truthy (member body (str "context")) = true ->
  fst (Previous.decode P body w)
  = match fst (decode_decrypt P (member body (str "token"))
                 (member body (str "context")) w) with
    | Returned decrypted => Previous.verdict P decrypted
    | Thrown e => Thrown e
    end.
Proof.
  intros Ht Hc. unfold Previous.decode. rewrite Ht, Hc. cbn [negb orb].
  unfold decode_decrypt, toString, bind, record, ret.
  repeat step.
  destruct a3 as [decrypted decipher]. cbv beta iota.
  step. cbn [fst].
  unfold Previous.verdict.
  destruct (split_pieces (Utf8.decode (decrypted ++ a3))) as [E0 E1].
  rewrite E0, E1.
  destruct (before_dot _) as [|c encoded]; [reflexivity|].
  destruct (option_map before_dot _) as [[|s signature]|]; try reflexivity.
  run. unfold signature_of. cbn [hmac_key hmac_data app].
  repeat branch; reflexivity.
Qed.

End PreviousRuns.

Lemma signature_of_nonempty P encoded :
  (forall key data, length (hmac_sha256 P key data) = 32%nat) ->
  signature_of P encoded <> [].
Proof.
  intros H. unfold signature_of. apply base64_encode_nonempty.
  intros E. specialize (H (Utf8.encode (SECRET_SIGNATURE_KEY P))
                          (Base64.decode encoded)).
  rewrite E in H. discriminate H.
Qed.

(** The two revisions on a decrypted block: they part on a plaintext
    without a signature, and on what becomes of an exception. *)
Lemma verdict_revised P decrypted :
  (forall key data, length (hmac_sha256 P key data) = 32%nat) ->
  match Previous.verdict P decrypted with
  | Thrown _ =>
      caught (verdict P decrypted) = Returned (bad_request "InvalidParams")
  | Returned (send status payload) =>
      verdict P decrypted = Returned (send status payload)
  | Returned (next error) =>
      (error = {| statusCode := 400; message := str "Invalid Token" |}
       /\ (verdict P decrypted = Returned (bad_request "InvalidParams")
           \/ verdict P decrypted = Returned (bad_request "Unauthorized")))
      \/ (error = {| statusCode := 400; message := str "Invalid Signature" |}
          /\ verdict P decrypted = Returned (bad_request "Unauthorized"))
  end.
Proof.
  intros H. unfold Previous.verdict, verdict. cbv zeta.
  destruct (before_dot (Utf8.decode decrypted)) as [|c encoded].
  - left. split; [reflexivity|]. left. reflexivity.
  - destruct (option_map before_dot (after_dot (Utf8.decode decrypted)))
      as [[|s signature]|].
    + left. split; [reflexivity|]. right.
      unfold loose_neq.
      destruct (jsstring_eqb [] (signature_of P (c :: encoded))) eqn:E;
        [|reflexivity].
      apply jsstring_eqb_eq in E. symmetry in E.
      apply signature_of_nonempty in E; [contradiction|exact H].
    + destruct (loose_neq _ _).
      * right. split; reflexivity.
      * destruct (atob_valid _); [|reflexivity].
        destruct (JSON_parse_text P _); reflexivity.
    + left. split; [reflexivity|]. right. reflexivity.
Qed.

Lemma verdict_accepted P decrypted status payload :
  (forall key data, length (hmac_sha256 P key data) = 32%nat) ->
  verdict P decrypted = Returned (send status payload) ->
  Previous.verdict P decrypted = Returned (send status payload).
Proof.
  intros H. unfold Previous.verdict, verdict. cbv zeta.
  destruct (before_dot (Utf8.decode decrypted)) as [|c encoded];
    [discriminate|].
  destruct (option_map before_dot (after_dot (Utf8.decode decrypted)))
    as [[|s signature]|]; try (cbn [loose_neq]; discriminate).
  - unfold loose_neq.
    destruct (jsstring_eqb [] (signature_of P (c :: encoded))) eqn:E;
      [|discriminate].
    apply jsstring_eqb_eq in E. symmetry in E.
    apply signature_of_nonempty in E; [contradiction|exact H].
  - destruct (loose_neq _ _); [discriminate|auto].
Qed.

(** X8.  The revision that put the body of [decode] into a [try] block:
    where the earlier handler lets an exception out, the later one
    answers InvalidParams; "Missing Params" became MissingParams and
    "Invalid Signature" became Unauthorized; "Invalid Token" became
    InvalidParams or, for a plaintext whose signature is missing,
    Unauthorized; and the two revisions answer the same requests with a
    payload, and with the same payload. *)
Theorem try_block_revision P body w :
  Laws P ->
  match fst (Previous.decode P body w) with
  | Thrown _ =>
      fst (decode P body w) = Returned (bad_request "InvalidParams")
  | Returned (send status payload) =>
      fst (decode P body w) = Returned (send status payload)
  | Returned (next error) =>
      statusCode error = 400
      /\ ((message error = str "Missing Params"
           /\ fst (decode P body w) = Returned (bad_request "MissingParams"))
          \/ (message error = str "Invalid Signature"
              /\ fst (decode P body w) = Returned (bad_request "Unauthorized"))
          \/ (message error = str "Invalid Token"
              /\ (fst (decode P body w)
                  = Returned (bad_request "InvalidParams")
                  \/ fst (decode P body w)
                     = Returned (bad_request "Unauthorized"))))
  end
  /\ forall status payload,
       fst (decode P body w) = Returned (send status payload) ->
       fst (Previous.decode P body w) = Returned (send status payload).
Proof.
  intros L. pose proof (hmac_sha256_length P L) as H.
  destruct (truthy (member body (str "token"))) eqn:Ht;
    [destruct (truthy (member body (str "context"))) eqn:Hc|].
  - rewrite previous_decode_result, decode_result by assumption.
    destruct (fst (decode_decrypt P _ _ w)) as [d|e].
    + split.
      * pose proof (verdict_revised P d H) as V.
        destruct (Previous.verdict P d) as [[status payload|error]|e].
        -- rewrite V. reflexivity.
        -- destruct V as [[-> [V|V]]|[-> V]]; rewrite V;
             (split; [reflexivity|]); auto.
        -- exact V.
      * intros status payload E. apply verdict_accepted; [exact H|].
        destruct (verdict P d) as [r|e]; [exact E|discriminate E].
    + split; [reflexivity|discriminate].
  - rewrite previous_decode_missing, decode_missing by auto. cbn [fst].
    split; [|discriminate]. split; [reflexivity|]. left. split; reflexivity.
  - rewrite previous_decode_missing, decode_missing by auto. cbn [fst].
    split; [|discriminate]. split; [reflexivity|]. left. split; reflexivity.
Qed.

Lemma try_block_revision_witness :
  Laws Node.platform
  /\ fst (Previous.decode Node.platform
            (request (JStr (str "asdf")) (JStr (str "potato"))) (fresh zeros))
     = Thrown ERR_CRYPTO_INVALID_IV
  /\ fst (decode Node.platform
            (request (JStr (str "asdf")) (JStr (str "potato"))) (fresh zeros))
     = Returned (bad_request "InvalidParams").
Proof.
  split; [exact node_laws|]. split; [reflexivity|].
  exact (proj1 (try_block_revision Node.platform
                  (request (JStr (str "asdf")) (JStr (str "potato")))
                  (fresh zeros) node_laws)).
Defined.

(** What lines 164 to 169 throw, and the later [try] block catches. *)
Lemma decrypt_invalid_iv P token context w :
  length (Hex.decode context) <> 16%nat ->
  fst (decode_decrypt P (Some (JStr token)) (Some (JStr context)) w)
  = Thrown ERR_CRYPTO_INVALID_IV.
Proof.
  intros H. run. apply Nat.eqb_neq in H. rewrite H. reflexivity.
Qed.

Lemma decrypt_wrong_length P token context w :
  length (Hex.decode context) = 16%nat ->
  length (encryption_key P) = 32%nat ->
  (length (Base64.decode token) mod 16 <> 0)%nat
  \/ Base64.decode token = [] ->
  fst (decode_decrypt P (Some (JStr token)) (Some (JStr context)) w)
  = Thrown ERR_OSSL_WRONG_FINAL_BLOCK_LENGTH.
Proof.
  intros Hi Hk Hl. run. rewrite Hi. unfold encryption_key in Hk. rewrite Hk.
  cbn [Nat.eqb negb]. cbv beta iota.
  cbn [cipher_pending cipher_key cipher_chain app].
  set (all := Base64.decode token) in *.
  set (n := if (length all mod 16 =? 0)%nat then _ else _).
  destruct (cbc_decrypt P n _ _ all) as [out chain]. cbv beta iota.
  cbn [cipher_pending].
  assert (E : (length (skipn (16 * n) all) =? 16)%nat = false).
  { apply Nat.eqb_neq. rewrite length_skipn. unfold n.
    destruct Hl as [Hl|Hl].
    - apply Nat.eqb_neq in Hl. rewrite Hl.
      pose proof (Nat.div_mod_eq (length all) 16).
      pose proof (Nat.mod_upper_bound (length all) 16). lia.
    - rewrite Hl. cbn. lia. }
  rewrite E. reflexivity.
Qed.

(** X9.  The earlier [decode] has no [try] block: a request whose
    context does not hold the 16 octets of an IV, or whose token does not
    hold whole blocks of ciphertext, is not answered; the exception of
    [createDecipheriv] or of [decipher.final] leaves the handler. *)
Theorem previous_decode_throws P token context w :
  token <> [] -> context <> [] ->
  (length (Hex.decode context) <> 16%nat ->
   fst (Previous.decode P (request (JStr token) (JStr context)) w)
   = Thrown ERR_CRYPTO_INVALID_IV)
  /\ (length (Hex.decode context) = 16%nat ->
      length (encryption_key P) = 32%nat ->
      (length (Base64.decode token) mod 16 <> 0)%nat
      \/ Base64.decode token = [] ->
      fst (Previous.decode P (request (JStr token) (JStr context)) w)
      = Thrown ERR_OSSL_WRONG_FINAL_BLOCK_LENGTH).
Proof.
  intros Ht Hc.
  assert (T : truthy (member (request (JStr token) (JStr context))
                        (str "token")) = true)
    by (unfold request; rewrite member_token; cbn [truthy];
        destruct token; [contradiction|reflexivity]).
  assert (C : truthy (member (request (JStr token) (JStr context))
                        (str "context")) = true)
    by (unfold request; rewrite member_context; cbn [truthy];
        destruct context; [contradiction|reflexivity]).
  split; intros; rewrite previous_decode_result by assumption;
    unfold request; rewrite member_token, member_context.
  - rewrite decrypt_invalid_iv by assumption. reflexivity.
  - rewrite decrypt_wrong_length by assumption. reflexivity.
Qed.

(** The request of the test "returns InvalidParams for invalid token",
    and a token of three octets under the context of the documentation. *)
Lemma previous_decode_throws_witness :
  fst (Previous.decode Node.platform
         (request (JStr (str "asdf")) (JStr (str "potato"))) (fresh zeros))
  = Thrown ERR_CRYPTO_INVALID_IV
  /\ fst (Previous.decode Node.platform
            (request (JStr (str "asdf"))
               (JStr (str "91ab24590b32603f80c3472d4d3ffef6"))) (fresh zeros))
     = Thrown ERR_OSSL_WRONG_FINAL_BLOCK_LENGTH.
Proof.
  split.
  - apply (previous_decode_throws Node.platform (str "asdf") (str "potato")
             (fresh zeros)); [discriminate|discriminate|].
    vm_compute. discriminate.
  - apply (previous_decode_throws Node.platform (str "asdf")
             (str "91ab24590b32603f80c3472d4d3ffef6") (fresh zeros));
      [discriminate|discriminate|reflexivity|reflexivity|].
    left. vm_compute. discriminate.
Defined.

(** ** What [encode] answers *)

Lemma base64_encode_length bs :
  length (Base64.encode bs) = base64_length (length bs).
Proof.
  unfold base64_length.
  induction bs as [|a|a b|a b c r IH] using list_ind3; try reflexivity.
  cbn [Base64.encode length]. rewrite IH.
  replace (S (S (S (length r))) + 2)%nat with (1 * 3 + (length r + 2))%nat
    by lia.
  rewrite Nat.div_add_l by lia. lia.
Qed.

Lemma base64_encode_alphabet bs :
  Forall (fun c => in_alphabet c || (c =? 61) = true) (Base64.encode bs).
Proof.
  assert (D : forall v, in_alphabet (Base64.digit v) || (Base64.digit v =? 61)
                        = true).
  { intros v. unfold in_alphabet.
    pose proof (digit_alphabet v) as H. cbv zeta in H.
    destruct H as [H|[H|[H|[H|H]]]].
    - replace ((65 <=? Base64.digit v) && (Base64.digit v <=? 90)) with true;
        [reflexivity|].
      symmetry. apply andb_true_iff. split; apply N.leb_le; lia.
    - replace ((97 <=? Base64.digit v) && (Base64.digit v <=? 122)) with true;
        [rewrite orb_true_r; reflexivity|].
      symmetry. apply andb_true_iff. split; apply N.leb_le; lia.
    - replace ((48 <=? Base64.digit v) && (Base64.digit v <=? 57)) with true;
        [rewrite !orb_true_r; reflexivity|].
      symmetry. apply andb_true_iff. split; apply N.leb_le; lia.
    - rewrite H. reflexivity.
    - rewrite H. reflexivity. }
  induction bs as [|a|a b|a b c r IH] using list_ind3;
    cbn [Base64.encode]; repeat apply Forall_cons; auto.
Qed.

Lemma hex_encode_lower bs : forallb lower_hex (Hex.encode bs) = true.
Proof.
  assert (D : forall v, lower_hex (Hex.digit v) = true).
  { intros v. unfold Hex.digit. cbv zeta.
    assert (H : v mod 16 < 16) by (apply N.mod_lt; lia).
    revert H. generalize (v mod 16). intros x H.
    assert (A : forallb (fun x => lower_hex (if x <? 10 then 48 + x
                                             else 97 + (x - 10)))
                  (map N.of_nat (seq 0 16)) = true)
      by (vm_compute; reflexivity).
    exact (below_check _ 16 A x H). }
  induction bs as [|b r IH]; [reflexivity|].
  unfold Hex.encode in *. cbn [flat_map app forallb].
  rewrite !D, IH. reflexivity.
Qed.

(** X2.  For a payload whose JSON text is made of code units up to 0xFF,
    [encode] answers 200 with exactly the two fields [token] and
    [context]; the context is the 32 lower-case hexadecimal digits of the
    16 octets drawn from the random source; the token is base64 text
    whose length is a function of the length of the JSON text alone; and
    no other octet of the random source is consumed. *)
Theorem encode_answer_shape P body text w :
  Laws P ->
  JSON.serialize body = Some text -> latin1 text = true ->
  exists token context,
    fst (encode P body w)
    = Returned (send 200 (JObj [(str "token", JStr token);
                                (str "context", JStr context)]))
    /\ context = Hex.encode (random_bytes 16 (entropy w))
    /\ length context = 32%nat
    /\ forallb lower_hex context = true
    /\ length token = token_length (length text)
    /\ Forall (fun c => in_alphabet c || (c =? 61) = true) token
    /\ forall i, entropy (snd (encode P body w)) i = entropy w (i + 16)%nat.
Proof.
  intros L Hs Hl.
  rewrite (encode_run P body text w Hs Hl (encryption_key_length P L)).
  set (iv := random_bytes 16 (entropy w)).
  exists (issued_token P text iv), (Hex.encode iv).
  split; [reflexivity|]. split; [reflexivity|].
  split; [rewrite hex_encode_length; unfold iv;
          rewrite random_bytes_length; reflexivity|].
  split; [apply hex_encode_lower|].
  split; [|split; [apply base64_encode_alphabet|reflexivity]].
  unfold issued_token, sealed. rewrite base64_encode_length.
  destruct (aes_256_cbc_shape P L iv (Utf8.encode (signed_block P text)))
    as [E _].
  - apply random_bytes_length.
  - apply random_bytes_octets.
  - apply ascii_octets. rewrite utf8_encode_ascii; apply signed_block_ascii.
  - rewrite E. unfold token_length. cbv zeta.
    assert (B : length (Utf8.encode (signed_block P text))
                = (base64_length (length text) + 1 + 44)%nat).
    { rewrite utf8_encode_ascii by apply signed_block_ascii.
      unfold signed_block, signature_of.
      rewrite !length_app, !base64_encode_length, (hmac_sha256_length P L).
      change (length (str ".") + base64_length 32)%nat with 45%nat. lia. }
    rewrite B. reflexivity.
Qed.

(** The example of the documentation has 128 characters in its token:
    a JSON text of 31 characters gives such a token. *)
Lemma encode_answer_shape_witness :
  Laws Node.platform
  /\ exists token context,
       fst (encode Node.platform (JObj [(str "name", JStr (str "Ada Lovelace, London"))])
              (fresh zeros))
       = Returned (send 200 (JObj [(str "token", JStr token);
                                   (str "context", JStr context)]))
       /\ context = str "00000000000000000000000000000000"
       /\ length token = 128%nat.
Proof.
  split; [exact node_laws|].
  destruct (encode_answer_shape Node.platform
              (JObj [(str "name", JStr (str "Ada Lovelace, London"))])
              _ (fresh zeros) node_laws eq_refl eq_refl)
    as (token & context & E & C & _ & _ & T & _).
  exists token, context. split; [exact E|]. split; [exact C|exact T].
Defined.

(** ** What [decode] accepts *)

(** X3.  [decode] answers with a payload exactly when both fields are
    there, the token decrypts under the context, the first piece of the
    plaintext is not empty, its second piece is the HMAC of the decoded
    octets of the first, and the payload is what [JSON.parse] reads from
    the text [atob] makes of the first piece.  In particular no payload
    is ever answered for a plaintext whose signature does not match. *)
Theorem decode_accepts_iff P body w payload :
  fst (decode P body w) = Returned (send 200 payload)
  <-> truthy (member body (str "token")) = true
      /\ truthy (member body (str "context")) = true
      /\ exists decrypted encoded,
           fst (decode_decrypt P (member body (str "token"))
                  (member body (str "context")) w) = Returned decrypted
           /\ pieces (Utf8.decode decrypted)
              = (Some encoded,
                 Some (Base64.encode
                         (hmac_sha256 P (Utf8.encode (SECRET_SIGNATURE_KEY P))
                            (Base64.decode encoded))))
           /\ encoded <> []
           /\ atob_valid encoded = true
           /\ JSON_parse_text P (Base64.decode encoded) = Some payload.
Proof.
  split.
  - intros H.
    destruct (truthy (member body (str "token"))) eqn:Ht;
      [destruct (truthy (member body (str "context"))) eqn:Hc|];
      try (rewrite decode_missing in H by auto; discriminate H).
    split; [reflexivity|]. split; [reflexivity|].
    rewrite decode_result in H by assumption.
    destruct (fst (decode_decrypt P _ _ w)) as [d|e]; [|discriminate H].
    exists d, (before_dot (Utf8.decode d)).
    unfold verdict in H. cbv zeta in H.
    unfold pieces. destruct (split_pieces (Utf8.decode d)) as [-> ->].
    destruct (before_dot (Utf8.decode d)) as [|c e] eqn:E; [discriminate H|].
    destruct (loose_neq _ _) eqn:N; [discriminate H|].
    destruct (option_map before_dot (after_dot (Utf8.decode d))) as [s|];
      [|discriminate N].
    cbn [loose_neq] in N. apply negb_false_iff, jsstring_eqb_eq in N.
    subst s.
    destruct (atob_valid (c :: e)); [|discriminate H].
    destruct (JSON_parse_text P _) as [v|]; [|discriminate H].
    injection H as ->. repeat split; congruence.
  - intros (Ht & Hc & d & encoded & Hd & Hp & Hn & Ha & Hj).
    rewrite decode_result, Hd by assumption.
    unfold verdict. cbv zeta.
    unfold pieces in Hp. destruct (split_pieces (Utf8.decode d)) as [E0 E1].
    rewrite E0, E1 in Hp. injection Hp as -> ->.
    destruct encoded as [|c e]; [congruence|].
    unfold loose_neq, signature_of. rewrite jsstring_eqb_refl. cbn [negb].
    rewrite Ha, Hj. reflexivity.
Qed.

(** ** What [decode] reads of its two fields *)

(** The answer to a request depends on its two fields through what
    they decrypt to only, once both are there or one is missing in both
    requests. *)
Lemma decode_same_plaintext P token token' context context' w :
  truthy (Some token) = truthy (Some token') ->
  truthy (Some context) = truthy (Some context') ->
  fst (decode_decrypt P (Some token) (Some context) w)
  = fst (decode_decrypt P (Some token') (Some context') w) ->
  fst (decode P (request token context) w)
  = fst (decode P (request token' context') w).
Proof.
  intros Et Ec E.
  destruct (truthy (Some token')) eqn:Ht;
    [destruct (truthy (Some context')) eqn:Hc|].
  - rewrite !decode_result; unfold request;
      rewrite ?member_token, ?member_context; try assumption.
    rewrite E. reflexivity.
  - rewrite !decode_missing; try reflexivity; right; unfold request;
      rewrite member_context; assumption.
  - rewrite !decode_missing; try reflexivity; left; unfold request;
      rewrite member_token; assumption.
Qed.

Lemma sextets_skipped a c b :
  skipped c = true -> Base64.sextets (a ++ c :: b) = Base64.sextets (a ++ b).
Proof.
  unfold skipped. intros H.
  induction a as [|x a IH]; cbn [app Base64.sextets]; cbv zeta.
  - destruct (Base64.unbase64 (c mod 256)); [discriminate H|].
    apply negb_true_iff in H. rewrite H. reflexivity.
  - rewrite IH. reflexivity.
Qed.

Lemma unbase64_url_safe c :
  Base64.unbase64 (url_safe c mod 256) = Base64.unbase64 (c mod 256)
  /\ (url_safe c mod 256 =? 61) = (c mod 256 =? 61).
Proof.
  unfold url_safe.
  destruct (N.eqb_spec c 43) as [->|_]; [split; reflexivity|].
  destruct (N.eqb_spec c 47) as [->|_]; split; reflexivity.
Qed.

Lemma sextets_url_safe s :
  Base64.sextets (map url_safe s) = Base64.sextets s.
Proof.
  induction s as [|c r IH]; [reflexivity|].
  cbn [map Base64.sextets]. cbv zeta.
  destruct (unbase64_url_safe c) as [-> ->]. rewrite IH. reflexivity.
Qed.

(** X4.  A token is not one string: [Buffer.from(s, 'base64')] skips
    every character outside the base64 alphabets and reads the URL-safe
    alphabet too, so a token with such characters put into it (a line
    break, a space), and a token written with [-] and [_] for [+] and
    [/], get the answer of the token itself. *)
Theorem token_is_read_leniently P a c b context w :
  skipped c = true -> a ++ b <> [] ->
  fst (decode P (request (JStr (a ++ c :: b)) context) w)
  = fst (decode P (request (JStr (a ++ b)) context) w)
  /\ fst (decode P (request (JStr (map url_safe (a ++ b))) context) w)
     = fst (decode P (request (JStr (a ++ b)) context) w).
Proof.
  intros Hc Hn.
  assert (D : forall t t', t <> [] -> t' <> [] ->
            Base64.decode t = Base64.decode t' ->
            fst (decode P (request (JStr t) context) w)
            = fst (decode P (request (JStr t') context) w)).
  { intros t t' Ht Ht' E. apply decode_same_plaintext; [|reflexivity|].
    - destruct t, t'; try contradiction; reflexivity.
    - run. rewrite E. reflexivity. }
  split; apply D; try assumption.
  - destruct a; discriminate.
  - unfold Base64.decode. rewrite sextets_skipped by exact Hc. reflexivity.
  - destruct (a ++ b); [contradiction|discriminate].
  - unfold Base64.decode. rewrite sextets_url_safe. reflexivity.
Qed.

Lemma token_is_read_leniently_witness :
  let context := JStr (str "7f9359175a3c0f0a4280b07e634761f8") in
  let a := str "S8fVeBbW1ewkuieXh9ngxwoGOPAW2jod9mDyTzyhV0/44x79zmzN7iYG6m+" in
  let b := str "GpdMILOEZz0kIujtamuvo7G+U7A==" in
  fst (decode Node.platform (request (JStr (a ++ 10 :: b)) context)
         (fresh zeros))
  = Returned (send 200 (JObj []))
  /\ fst (decode Node.platform
            (request (JStr (map url_safe (a ++ b))) context) (fresh zeros))
     = Returned (send 200 (JObj [])).
Proof.
  cbv zeta.
  assert (A : fst (decode Node.platform
                     (request
                        (JStr (str "S8fVeBbW1ewkuieXh9ngxwoGOPAW2jod9mDyTzyhV0/44x79zmzN7iYG6m+"
                               ++ str "GpdMILOEZz0kIujtamuvo7G+U7A=="))
                        (JStr (str "7f9359175a3c0f0a4280b07e634761f8")))
                     (fresh zeros))
              = Returned (send 200 (JObj [])))
    by (vm_compute; reflexivity).
  destruct (token_is_read_leniently Node.platform
              (str "S8fVeBbW1ewkuieXh9ngxwoGOPAW2jod9mDyTzyhV0/44x79zmzN7iYG6m+")
              10 (str "GpdMILOEZz0kIujtamuvo7G+U7A==")
              (JStr (str "7f9359175a3c0f0a4280b07e634761f8")) (fresh zeros)
              eq_refl ltac:(discriminate)) as [E1 E2].
  split; [rewrite E1|rewrite E2]; exact A.
Defined.

Lemma unhex_upper_case c :
  Hex.unhex (upper_case c mod 256) = Hex.unhex (c mod 256).
Proof.
  destruct (N.lt_ge_cases c 256) as [H|H].
  - apply option_N_eqb_eq.
    assert (A : forallb
                  (fun c => option_N_eqb (Hex.unhex (upper_case c mod 256))
                              (Hex.unhex (c mod 256)))
                  (map N.of_nat (seq 0 256)) = true)
      by (vm_compute; reflexivity).
    exact (below_check _ 256 A c H).
  - unfold upper_case.
    replace (c <=? 122) with false by (symmetry; apply N.leb_gt; lia).
    rewrite andb_false_r. reflexivity.
Qed.

Lemma hex_decode_upper_case s : Hex.decode (map upper_case s) = Hex.decode s.
Proof.
  induction s as [|a|a b r IH] using list_ind2; try reflexivity.
  cbn [map Hex.decode]. rewrite !unhex_upper_case, IH. reflexivity.
Qed.

Lemma hex_decode_app bs rest :
  octets bs -> Hex.decode (Hex.encode bs ++ rest) = bs ++ Hex.decode rest.
Proof.
  induction 1 as [|b r Hb _ IH]; [reflexivity|].
  unfold Hex.encode in *. cbn [flat_map app Hex.decode].
  rewrite !hex_digit_octet, !unhex_digit, IH. unfold octet in Hb.
  quotients b 16.
  rewrite (N.mod_small q 16), (N.mod_small r0 16) by lia.
  f_equal. lia.
Qed.

(** X5.  Nor is a context one string: [Buffer.from(s, 'hex')] reads
    upper-case digits as well, and stops at the first pair of characters
    that is not hexadecimal, so the context in upper case, and the
    context followed by text that does not start with two hexadecimal
    digits, get the answer of the context itself. *)
Theorem context_is_read_leniently P token iv rest w :
  octets iv -> iv <> [] -> Hex.decode rest = [] ->
  fst (decode P (request token (JStr (map upper_case (Hex.encode iv)))) w)
  = fst (decode P (request token (JStr (Hex.encode iv))) w)
  /\ fst (decode P (request token (JStr (Hex.encode iv ++ rest))) w)
     = fst (decode P (request token (JStr (Hex.encode iv))) w).
Proof.
  intros Oi Hn Hr.
  assert (N : exists c r, Hex.encode iv = c :: r)
    by (destruct iv as [|x r]; [contradiction|cbn; eauto]).
  destruct N as (c & r & N).
  split; apply decode_same_plaintext; try reflexivity.
  - rewrite N. reflexivity.
  - run. rewrite hex_decode_upper_case. reflexivity.
  - rewrite N. reflexivity.
  - run. rewrite hex_decode_app, Hr, app_nil_r by exact Oi.
    rewrite hex_decode_encode by exact Oi. reflexivity.
Qed.

Lemma context_is_read_leniently_witness :
  let token :=
    JStr (str "S8fVeBbW1ewkuieXh9ngxwoGOPAW2jod9mDyTzyhV0/44x79zmzN7iYG6m+GpdMILOEZz0kIujtamuvo7G+U7A==") in
  fst (decode Node.platform
         (request token (JStr (str "7F9359175A3C0F0A4280B07E634761F8")))
         (fresh zeros))
  = Returned (send 200 (JObj []))
  /\ fst (decode Node.platform
            (request token
               (JStr (str "7f9359175a3c0f0a4280b07e634761f8; expired")))
            (fresh zeros))
     = Returned (send 200 (JObj [])).
Proof.
  cbv zeta.
  assert (A : fst (decode Node.platform
                     (request
                        (JStr (str "S8fVeBbW1ewkuieXh9ngxwoGOPAW2jod9mDyTzyhV0/44x79zmzN7iYG6m+GpdMILOEZz0kIujtamuvo7G+U7A=="))
                        (JStr (Hex.encode (random_bytes 16 lucky))))
                     (fresh zeros))
              = Returned (send 200 (JObj [])))
    by (vm_compute; reflexivity).
  destruct (context_is_read_leniently Node.platform
              (JStr (str "S8fVeBbW1ewkuieXh9ngxwoGOPAW2jod9mDyTzyhV0/44x79zmzN7iYG6m+GpdMILOEZz0kIujtamuvo7G+U7A=="))
              (random_bytes 16 lucky) (str "; expired") (fresh zeros)
              (random_bytes_octets 16 lucky) ltac:(discriminate) eq_refl)
    as [E1 E2].
  split; [rewrite <- A, <- E1|rewrite <- A, <- E2]; reflexivity.
Defined.

(** ** What [decode] keeps, and what [encode] draws *)

Lemma record_entropy c w : entropy (snd (record c w)) = entropy w.
Proof. reflexivity. Qed.

Lemma decode_decrypt_entropy P t c w :
  entropy (snd (decode_decrypt P t c w)) = entropy w.
Proof.
  run. cbn [cipher_pending cipher_key cipher_chain app].
  repeat branch; reflexivity.
Qed.

Lemma decode_verify_entropy P decrypted w :
  entropy (snd (decode_verify P decrypted w)) = entropy w.
Proof.
  run. repeat branch; reflexivity.
Qed.

(** X6.  [decode] keeps no state and draws no randomness: its answer
    depends on the request alone, whatever calls were made before and
    whatever the random source holds, so a token that was accepted once
    is accepted again, with the same payload; nothing in the handler
    makes a token expire or tells a second use from the first. *)
Theorem decode_is_replayable P body w w' :
  fst (decode P body w) = fst (decode P body w')
  /\ forall i, entropy (snd (decode P body w)) i = entropy w i.
Proof.
  split.
  - destruct (truthy (member body (str "token"))) eqn:Ht;
      [destruct (truthy (member body (str "context"))) eqn:Hc|].
    + rewrite !decode_result by assumption.
      rewrite (decode_decrypt_steady P _ _ w w'). reflexivity.
    + rewrite !decode_missing by auto. reflexivity.
    + rewrite !decode_missing by auto. reflexivity.
  - intros i.
    destruct (truthy (member body (str "token"))) eqn:Ht;
      [destruct (truthy (member body (str "context"))) eqn:Hc|].
    + rewrite decode_present by assumption. unfold try_catch, bind.
      pose proof (decode_decrypt_entropy P (member body (str "token"))
                    (member body (str "context")) w) as E1.
      destruct (decode_decrypt P _ _ w) as [[d|e] w1]; cbn [snd] in *.
      * pose proof (decode_verify_entropy P d w1) as E2.
        destruct (decode_verify P d w1) as [[r|e] w2]; cbn [snd] in *;
          unfold ret; cbn [snd]; congruence.
      * unfold ret. cbn [snd]. congruence.
    + rewrite decode_missing by auto. reflexivity.
    + rewrite decode_missing by auto. reflexivity.
Qed.

Lemma xor_bytes_same a : forall d,
  length a = length d -> xor_bytes a d = a -> d = repeat 0 (length d).
Proof.
  induction a as [|x a IH]; intros [|y d] Hl E; try discriminate Hl;
    [reflexivity|].
  cbn [xor_bytes] in E. injection E as Ex E. cbn [length] in Hl.
  cbn [length repeat]. f_equal.
  - assert (Y : y = N.lxor x (N.lxor x y))
      by (rewrite <- N.lxor_assoc, N.lxor_nilpotent, N.lxor_0_l;
          reflexivity).
    rewrite Y, Ex. apply N.lxor_nilpotent.
  - apply IH; [lia|exact E].
Qed.

Lemma xor_bytes_equal a : forall b,
  length a = length b -> xor_bytes a b = repeat 0 (length a) -> a = b.
Proof.
  induction a as [|x a IH]; intros [|y b] Hl E; try discriminate Hl;
    [reflexivity|].
  cbn [xor_bytes length repeat] in E. injection E as Ex E.
  cbn [length] in Hl. f_equal.
  - apply N.lxor_eq. exact Ex.
  - apply IH; [lia|exact E].
Qed.

(** X7.  For one payload, the token and the context determine each
    other: two answers of [encode] with the same context carry the same
    token, and two answers whose contexts differ carry different tokens,
    so that a token is never issued twice unless the random source
    repeats an IV. *)
Theorem token_follows_context P body text w w' token context token' context' :
  Laws P ->
  JSON.serialize body = Some text -> latin1 text = true ->
  fst (encode P body w)
  = Returned (send 200 (JObj (request (JStr token) (JStr context)))) ->
  fst (encode P body w')
  = Returned (send 200 (JObj (request (JStr token') (JStr context')))) ->
  (token = token' <-> context = context').
Proof.
  intros L Hs Hl E E'.
  rewrite (encode_run P body text w Hs Hl (encryption_key_length P L)) in E.
  rewrite (encode_run P body text w' Hs Hl (encryption_key_length P L)) in E'.
  cbn [fst] in E, E'.
  set (iv := random_bytes 16 (entropy w)) in *.
  set (iv' := random_bytes 16 (entropy w')) in *.
  assert (Hi : length iv = 16%nat) by apply random_bytes_length.
  assert (Oi : octets iv) by apply random_bytes_octets.
  assert (Hi' : length iv' = 16%nat) by apply random_bytes_length.
  assert (Oi' : octets iv') by apply random_bytes_octets.
  clearbody iv iv'.
  unfold issued, request, issued_token in E, E'.
  set (data := Utf8.encode (signed_block P text)) in *.
  assert (Od : octets data).
  { apply ascii_octets. unfold data.
    rewrite utf8_encode_ascii; apply signed_block_ascii. }
  assert (Ld : (16 <= length data)%nat)
    by (apply signed_block_length, (hmac_sha256_length P L)).
  clearbody data.
  injection E as <- <-. injection E' as <- <-.
  split.
  - intros T.
    pose proof (decrypt_under P L data iv iv' (fresh zeros)
                  Hi Oi Hi' Oi' Od Ld) as D.
    rewrite T in D.
    rewrite (decrypt_sealed P L data iv' (fresh zeros) Hi' Oi' Od) in D.
    injection D as D. unfold xor_head in D.
    rewrite <- (firstn_skipn 16 data) in D at 1.
    apply app_inv_tail in D. symmetry in D.
    apply xor_bytes_same in D.
    + rewrite xor_bytes_length, Hi, Hi' in D. cbn [Nat.min] in D.
      rewrite (xor_bytes_equal iv iv'); [reflexivity|lia|].
      rewrite Hi. exact D.
    + rewrite length_firstn, xor_bytes_length. lia.
  - intros C.
    assert (I : iv = iv').
    { rewrite <- (hex_decode_encode iv Oi), <- (hex_decode_encode iv' Oi').
      rewrite C. reflexivity. }
    rewrite I. reflexivity.
Qed.

Lemma token_follows_context_witness :
  let text := [123; 34; 97; 34; 58; 49; 125] in
  Laws Node.platform
  /\ Hex.encode (random_bytes 16 zeros) <> Hex.encode (random_bytes 16 tenth)
  /\ issued_token Node.platform text (random_bytes 16 zeros)
     <> issued_token Node.platform text (random_bytes 16 tenth).
Proof.
  cbv zeta.
  assert (N : Hex.encode (random_bytes 16 zeros)
              <> Hex.encode (random_bytes 16 tenth))
    by (vm_compute; discriminate).
  split; [exact node_laws|]. split; [exact N|].
  intros H. apply N.
  refine (proj1 (token_follows_context Node.platform a_one
                   [123; 34; 97; 34; 58; 49; 125] (fresh zeros) (fresh tenth)
                   _ _ _ _ node_laws eq_refl eq_refl _ _) H).
  - apply (f_equal fst (encode_run Node.platform a_one _ (fresh zeros)
                          eq_refl eq_refl eq_refl)).
  - apply (f_equal fst (encode_run Node.platform a_one _ (fresh tenth)
                          eq_refl eq_refl eq_refl)).
Defined.

(** ** [generateRandomString] *)

Lemma random_char byte :
  33 <= fromCharCode (33 + byte mod 94) <= 126.
Proof.
  unfold fromCharCode.
  assert (H : byte mod 94 < 94) by (apply N.mod_lt; lia).
  set (x := byte mod 94) in *. clearbody x.
  rewrite N.mod_small by lia. lia.
Qed.

Lemma random_string length w :
  (0 <= length <= 65536)%Z ->
  exists s,
    fst (generateRandomString length w) = Some s
    /\ List.length s = Z.to_nat length
    /\ Forall (fun c => 33 <= c <= 126) s
    /\ forall i, entropy (snd (generateRandomString length w)) i
                 = entropy w (i + Z.to_nat length)%nat.
Proof.
  intros [H0 H1]. unfold generateRandomString.
  replace (length <? 0)%Z with false by (symmetry; apply Z.ltb_ge; lia).
  replace (65536 <? length)%Z with false by (symmetry; apply Z.ltb_ge; lia).
  cbn [orb fst snd entropy]. eexists. split; [reflexivity|].
  split; [rewrite length_map; apply random_bytes_length|].
  split; [|reflexivity].
  apply Forall_forall. intros c Hc. apply in_map_iff in Hc.
  destruct Hc as (b & <- & _). apply random_char.
Qed.

(** X10.  [generateRandomString(length)] returns, for a length from 0 to
    65536, a string of exactly that many characters, each of them a
    printable character of ASCII other than the space (['!'] to ['~']),
    and it consumes as many octets of the random source; for any other
    length it throws. *)
Theorem generateRandomString_printable length w :
  if ((0 <=? length) && (length <=? 65536))%Z then
    exists s,
      fst (generateRandomString length w) = Some s
      /\ List.length s = Z.to_nat length
      /\ Forall (fun c => 33 <= c <= 126) s
      /\ forall i, entropy (snd (generateRandomString length w)) i
                   = entropy w (i + Z.to_nat length)%nat
  else fst (generateRandomString length w) = None.
Proof.
  destruct (Z.leb_spec 0 length) as [H0|H0];
    [destruct (Z.leb_spec length 65536) as [H1|H1]|]; cbn [andb].
  - apply random_string. lia.
  - unfold generateRandomString.
    replace (65536 <? length)%Z with true by (symmetry; apply Z.ltb_lt; lia).
    rewrite orb_true_r. reflexivity.
  - unfold generateRandomString.
    replace (length <? 0)%Z with true by (symmetry; apply Z.ltb_lt; lia).
    reflexivity.
Qed.

(** X11.  The characters are not drawn evenly: of the 256 values of an
    octet, three give each of the characters ['!'] to ['d'] and two give
    each of the characters ['e'] to ['~']. *)
Theorem generateRandomString_bias c :
  33 <= c <= 126 ->
  length (drawn_as c) = if c <=? 100 then 3%nat else 2%nat.
Proof.
  intros [H0 H1].
  assert (H : c < N.of_nat 127) by lia.
  assert (A : forallb
                (fun c => (c <? 33)
                          || Nat.eqb (length (drawn_as c))
                               (if c <=? 100 then 3%nat else 2%nat))
                (map N.of_nat (seq 0 127)) = true)
    by (vm_compute; reflexivity).
  pose proof (below_check _ 127 A c H) as B.
  cbv beta in B. apply orb_true_iff in B. destruct B as [B|B].
  - apply N.ltb_lt in B. lia.
  - apply Nat.eqb_eq in B. exact B.
Qed.

Lemma generateRandomString_bias_witness :
  length (drawn_as 33) = 3%nat /\ length (drawn_as 126) = 2%nat.
Proof.
  split.
  - exact (generateRandomString_bias 33 ltac:(lia)).
  - exact (generateRandomString_bias 126 ltac:(lia)).
Defined.

(** ** The reader on the text of a string *)

Lemma hex4_escape c :
  c < 65536 ->
  match JSON.hex4 c with
  | [h1; h2; h3; h4] => Reader.hex4 h1 h2 h3 h4
  | _ => None
  end = Some c.
Proof.
  intros H. unfold JSON.hex4, Reader.hex4. rewrite !unhex_digit.
  f_equal.
  pose proof (N.div_mod c 16 ltac:(lia)).
  pose proof (N.mod_lt c 16 ltac:(lia)).
  pose proof (N.div_mod (c / 16) 16 ltac:(lia)).
  pose proof (N.mod_lt (c / 16) 16 ltac:(lia)).
  pose proof (N.div_mod (c / 16 / 16) 16 ltac:(lia)).
  pose proof (N.mod_lt (c / 16 / 16) 16 ltac:(lia)).
  replace (c / 256) with (c / 16 / 16) by (rewrite N.Div0.div_div; reflexivity).
  replace (c / 4096) with (c / 16 / 16 / 16)
    by (rewrite !N.Div0.div_div; reflexivity).
  assert (c / 16 / 16 / 16 < 16).
  { rewrite !N.Div0.div_div. apply N.Div0.div_lt_upper_bound. lia. }
  rewrite (N.mod_small (c / 16 / 16 / 16) 16) by assumption.
  set (q1 := c / 16) in *. set (q2 := q1 / 16) in *. set (q3 := q2 / 16) in *.
  set (r0 := c mod 16) in *. set (r1 := q1 mod 16) in *.
  set (r2 := q2 mod 16) in *. clearbody q1 q2 q3 r0 r1 r2. lia.
Qed.

Lemma characters_escape c r rest t :
  c < 65536 ->
  Reader.characters r = Some (t, rest) ->
  Reader.characters (JSON.unicode_escape c ++ r) = Some (c :: t, rest).
Proof.
  intros H E. pose proof (hex4_escape c H) as X.
  unfold JSON.unicode_escape, JSON.hex4 in *.
  cbn [app Reader.characters].
  change (92 =? 34) with false. change (92 <? 32) with false.
  change (92 =? 92) with true. cbv beta iota.
  change (117 =? 34) with false. change (117 =? 92) with false.
  change (117 =? 47) with false. change (117 =? 98) with false.
  change (117 =? 102) with false. change (117 =? 110) with false.
  change (117 =? 114) with false. change (117 =? 116) with false.
  change (117 =? 117) with true. cbv beta iota.
  rewrite X, E. reflexivity.
Qed.

Lemma surrogate_below c :
  Utf8.high_surrogate c || Utf8.low_surrogate c = true -> c < 65536.
Proof.
  unfold Utf8.high_surrogate, Utf8.low_surrogate. intros H.
  apply orb_true_iff in H. destruct H as [H|H];
    apply andb_true_iff in H; destruct H as [_ H]; apply N.leb_le in H; lia.
Qed.

(** The reader undoes the quoting of [JSON.stringify], whatever the
    string. *)
Lemma characters_quote_units n : forall s rest,
  (length s <= n)%nat ->
  Reader.characters (JSON.quote_units s ++ 34 :: rest) = Some (s, rest).
Proof.
  induction n as [|n IH]; intros s rest Hn.
  - destruct s; [reflexivity|cbn [length] in Hn; lia].
  - destruct s as [|c r]; [reflexivity|].
    cbn [length] in Hn.
    assert (Hr : Reader.characters (JSON.quote_units r ++ 34 :: rest)
                 = Some (r, rest)) by (apply IH; lia).
    assert (simple : forall e u,
               (e =? 34) || (e =? 92) || (e =? 47) || (e =? 98) || (e =? 102)
               || (e =? 110) || (e =? 114) || (e =? 116) = true ->
               (if e =? 34 then 34 else if e =? 92 then 92
                else if e =? 47 then 47 else if e =? 98 then 8
                else if e =? 102 then 12 else if e =? 110 then 10
                else if e =? 114 then 13 else 9) = u ->
               Reader.characters (92 :: e :: JSON.quote_units r ++ 34 :: rest)
               = Some (u :: r, rest)).
    { intros e u He Hu. cbn [Reader.characters].
      change (92 =? 34) with false. change (92 <? 32) with false.
      change (92 =? 92) with true. cbv beta iota. rewrite Hr.
      destruct (e =? 34); [subst u; reflexivity|].
      destruct (e =? 92); [subst u; reflexivity|].
      destruct (e =? 47); [subst u; reflexivity|].
      destruct (e =? 98); [subst u; reflexivity|].
      destruct (e =? 102); [subst u; reflexivity|].
      destruct (e =? 110); [subst u; reflexivity|].
      destruct (e =? 114); [subst u; reflexivity|].
      destruct (e =? 116); [subst u; reflexivity|discriminate He]. }
    cbn [JSON.quote_units].
    destruct (N.eqb_spec c 34) as [->|H34];
      [apply (simple 34 34); reflexivity|].
    destruct (N.eqb_spec c 92) as [->|H92];
      [apply (simple 92 92); reflexivity|].
    destruct (N.eqb_spec c 8) as [->|H8];
      [apply (simple 98 8); reflexivity|].
    destruct (N.eqb_spec c 12) as [->|H12];
      [apply (simple 102 12); reflexivity|].
    destruct (N.eqb_spec c 10) as [->|H10];
      [apply (simple 110 10); reflexivity|].
    destruct (N.eqb_spec c 13) as [->|H13];
      [apply (simple 114 13); reflexivity|].
    destruct (N.eqb_spec c 9) as [->|H9];
      [apply (simple 116 9); reflexivity|].
    destruct (N.ltb_spec c 32) as [H32|H32].
    { rewrite <- app_assoc. apply characters_escape; [lia|exact Hr]. }
    assert (copy : forall t r',
               Reader.characters r' = Some (t, rest) ->
               Reader.characters (c :: r') = Some (c :: t, rest)).
    { intros t r' E. cbn [Reader.characters].
      apply N.eqb_neq in H34, H92. apply N.ltb_ge in H32.
      rewrite H34, H92, H32, E. reflexivity. }
    destruct (Utf8.high_surrogate c) eqn:Hh.
    + destruct r as [|d r'].
      * cbn [app]. rewrite <- (app_nil_r (JSON.unicode_escape c)).
        rewrite <- app_assoc. apply characters_escape; [|reflexivity].
        apply surrogate_below. rewrite Hh. reflexivity.
      * destruct (Utf8.low_surrogate d) eqn:Hl.
        -- cbn [app]. apply copy.
           cbn [length] in Hn.
           assert (Hr' : Reader.characters
                           (JSON.quote_units r' ++ 34 :: rest)
                         = Some (r', rest)) by (apply IH; lia).
           cbn [Reader.characters].
           unfold Utf8.low_surrogate in Hl. apply andb_true_iff in Hl.
           destruct Hl as [Hl1 Hl2]. apply N.leb_le in Hl1, Hl2.
           replace (d =? 34) with false by (symmetry; apply N.eqb_neq; lia).
           replace (d <? 32) with false by (symmetry; apply N.ltb_ge; lia).
           replace (d =? 92) with false by (symmetry; apply N.eqb_neq; lia).
           rewrite Hr'. reflexivity.
        -- rewrite <- app_assoc. apply characters_escape; [|exact Hr].
           apply surrogate_below. rewrite Hh. reflexivity.
    + destruct (Utf8.low_surrogate c) eqn:Hl.
      * rewrite <- app_assoc. apply characters_escape; [|exact Hr].
        apply surrogate_below. rewrite Hl, orb_true_r. reflexivity.
      * cbn [app]. apply copy. exact Hr.
Qed.

Lemma characters_quote s rest :
  Reader.characters (JSON.quote_units s ++ 34 :: rest) = Some (s, rest).
Proof. apply (characters_quote_units (length s)). apply Nat.le_refl. Qed.

(** ** The reader undoes [JSON.stringify] *)

Lemma jsvalue_induction (Q : jsvalue -> Prop) :
  Q JNull -> (forall b, Q (JBool b)) -> (forall n, Q (JNum n)) ->
  (forall n, Q (JBigInt n)) -> (forall s, Q (JStr s)) ->
  (forall l, Forall Q l -> Q (JArr l)) ->
  (forall l, Forall (fun kv => Q (snd kv)) l -> Q (JObj l)) ->
  forall v, Q v.
Proof.
  intros H0 H1 H2 H3 H4 H5 H6.
  fix F 1. intros [| b | n | n | s | l | l].
  - exact H0.
  - apply H1.
  - apply H2.
  - apply H3.
  - apply H4.
  - apply H5. induction l as [|x r IH]; constructor; [apply F|exact IH].
  - apply H6. induction l as [|[k x] r IH]; constructor; [apply F|exact IH].
Qed.

Lemma value_S fuel s :
  Reader.value (S fuel) s
  = match Reader.skip s with
    | [] => None
    | c :: r =>
        if c =? 123 then
          match Reader.skip r with
          | c' :: r' =>
              if c' =? 125 then Some (JObj [], r')
              else
                match Reader.properties (Reader.value fuel) (length r) [] r with
                | Some (o, r'') => Some (JObj o, r'')
                | None => None
                end
          | [] => None
          end
        else if c =? 91 then
          match Reader.skip r with
          | c' :: r' =>
              if c' =? 93 then Some (JArr [], r')
              else
                match Reader.elements (Reader.value fuel) (length r) r with
                | Some (l, r'') => Some (JArr l, r'')
                | None => None
                end
          | [] => None
          end
        else if c =? 34 then
          match Reader.characters r with
          | Some (t, r') => Some (JStr t, r')
          | None => None
          end
        else if c =? 116 then
          match Reader.word (str "rue") r with
          | Some r' => Some (JBool true, r')
          | None => None
          end
        else if c =? 102 then
          match Reader.word (str "alse") r with
          | Some r' => Some (JBool false, r')
          | None => None
          end
        else if c =? 110 then
          match Reader.word (str "ull") r with
          | Some r' => Some (JNull, r')
          | None => None
          end
        else
          match Reader.number (c :: r) with
          | Some (n, r') => Some (JNum n, r')
          | None => None
          end
    end.
Proof. reflexivity. Qed.

Lemma skip_cons c r :
  Reader.whitespace c = false -> Reader.skip (c :: r) = c :: r.
Proof. intros H. cbn [Reader.skip]. rewrite H. reflexivity. Qed.

(** *** Numbers *)

(** What closes a value is no part of a number. *)
Lemma closing_quiet rest :
  closing rest = true ->
  match rest with
  | [] => True
  | c :: _ =>
      Reader.is_digit c = false /\ (c =? 45) = false /\ (c =? 43) = false
      /\ (c =? 46) = false /\ (c =? 101) = false /\ (c =? 69) = false
      /\ (c =? 48) = false
  end.
Proof.
  destruct rest as [|c r]; [exact (fun _ => I)|].
  cbn [closing]. intros H.
  apply orb_true_iff in H. destruct H as [H|H];
    [apply orb_true_iff in H; destruct H as [H|H]|];
    apply N.eqb_eq in H; subst c; repeat split.
Qed.

Lemma digits_app rest :
  closing rest = true ->
  forall s acc count,
    Reader.digits acc count (s ++ rest)
    = let '(a, c, r) := Reader.digits acc count s in (a, c, r ++ rest).
Proof.
  intros H. pose proof (closing_quiet rest H) as Q.
  induction s as [|x s IH]; intros acc count.
  - cbn [app Reader.digits]. destruct rest as [|c r]; [reflexivity|].
    cbn [Reader.digits]. destruct Q as (-> & _). reflexivity.
  - cbn [app Reader.digits]. destruct (Reader.is_digit x); [apply IH|].
    reflexivity.
Qed.

Lemma natural_app rest s :
  closing rest = true ->
  Reader.natural (s ++ rest)
  = match Reader.natural s with
    | Some (n, r) => Some (n, r ++ rest)
    | None => None
    end.
Proof.
  intros H. pose proof (closing_quiet rest H) as Q.
  destruct s as [|c s].
  - cbn [app Reader.natural]. destruct rest as [|c r]; [reflexivity|].
    cbn [Reader.natural]. destruct Q as (-> & _ & _ & _ & _ & _ & ->).
    reflexivity.
  - cbn [app Reader.natural]. destruct (c =? 48); [reflexivity|].
    destruct (Reader.is_digit c) eqn:D; [|reflexivity].
    change (c :: s ++ rest) with ((c :: s) ++ rest).
    rewrite (digits_app rest H).
    destruct (Reader.digits 0 0 (c :: s)) as [[n k] r]. reflexivity.
Qed.

Lemma fraction_app rest i s :
  closing rest = true ->
  Reader.fraction i (s ++ rest)
  = match Reader.fraction i s with
    | Some (m, count, r) => Some (m, count, r ++ rest)
    | None => None
    end.
Proof.
  intros H. pose proof (closing_quiet rest H) as Q.
  destruct s as [|c s].
  - cbn [app Reader.fraction]. destruct rest as [|c r]; [reflexivity|].
    cbn [Reader.fraction]. destruct Q as (_ & _ & _ & -> & _). reflexivity.
  - cbn [app Reader.fraction]. destruct (c =? 46); [|reflexivity].
    rewrite (digits_app rest H).
    destruct (Reader.digits i 0 s) as [[m k] r].
    destruct (k =? 0); reflexivity.
Qed.

Lemma exponent_app rest s :
  closing rest = true ->
  Reader.exponent (s ++ rest)
  = match Reader.exponent s with
    | Some (x, r) => Some (x, r ++ rest)
    | None => None
    end.
Proof.
  intros H. pose proof (closing_quiet rest H) as Q.
  pose proof (digits_app rest H) as D.
  assert (E : Reader.digits 0 0 rest = (0, 0, rest)) by exact (D [] 0 0).
  destruct s as [|c s].
  - cbn [app Reader.exponent]. destruct rest as [|c r]; [reflexivity|].
    cbn [Reader.exponent]. destruct Q as (_ & _ & _ & _ & -> & -> & _).
    reflexivity.
  - cbn [app Reader.exponent]. destruct ((c =? 101) || (c =? 69));
      [|reflexivity].
    destruct s as [|c' s].
    + cbn [app]. change (Reader.digits 0 0 []) with (0, 0, @nil N).
      change (0 =? 0) with true. cbv beta iota.
      destruct rest as [|x r]; [reflexivity|].
      destruct Q as (_ & -> & -> & _). rewrite E. reflexivity.
    + cbn [app].
      destruct (c' =? 45); [|destruct (c' =? 43)];
        [rewrite D; destruct (Reader.digits 0 0 s) as [[x k] r];
         destruct (k =? 0); reflexivity..|].
      change (c' :: s ++ rest) with ((c' :: s) ++ rest). rewrite D.
      destruct (Reader.digits 0 0 (c' :: s)) as [[x k] r].
      destruct (k =? 0); reflexivity.
Qed.

(** A number is read the same whatever closes it. *)
Lemma number_app rest s :
  closing rest = true ->
  Reader.number (s ++ rest)
  = match Reader.number s with
    | Some (x, r) => Some (x, r ++ rest)
    | None => None
    end.
Proof.
  intros H. pose proof (closing_quiet rest H) as Q.
  assert (B : forall negative s,
            match Reader.natural (s ++ rest) with
            | Some (i, r) =>
                match Reader.fraction i r with
                | Some (m, count, r) =>
                    match Reader.exponent r with
                    | Some (x, r) =>
                        Some (Number.of_decimal negative (Z.of_N m)
                                (x - Z.of_N count), r)
                    | None => None
                    end
                | None => None
                end
            | None => None
            end
            = match
                match Reader.natural s with
                | Some (i, r) =>
                    match Reader.fraction i r with
                    | Some (m, count, r) =>
                        match Reader.exponent r with
                        | Some (x, r) =>
                            Some (Number.of_decimal negative (Z.of_N m)
                                    (x - Z.of_N count), r)
                        | None => None
                        end
                    | None => None
                    end
                | None => None
                end
              with
              | Some (x, r) => Some (x, r ++ rest)
              | None => None
              end).
  { intros negative t. rewrite natural_app by exact H.
    destruct (Reader.natural t) as [[i r]|]; [|reflexivity].
    rewrite fraction_app by exact H.
    destruct (Reader.fraction i r) as [[[m k] r']|]; [|reflexivity].
    rewrite exponent_app by exact H.
    destruct (Reader.exponent r') as [[x r'']|]; reflexivity. }
  unfold Reader.number. destruct s as [|c s].
  - cbn [app]. destruct rest as [|c r]; [reflexivity|].
    destruct Q as (_ & -> & _). exact (B false []).
  - cbn [app]. destruct (c =? 45); [exact (B true s)|exact (B false (c :: s))].
Qed.

Lemma number_eqb_eq x y : Number.eqb x y = true -> x = y.
Proof.
  destruct x as [s|s m e|s|], y as [s'|s' m' e'|s'|]; cbn [Number.eqb];
    intros H; try discriminate H; try reflexivity.
  - apply eqb_prop in H. congruence.
  - apply andb_true_iff in H. destruct H as [H He].
    apply andb_true_iff in H. destruct H as [Hs Hm].
    apply eqb_prop in Hs. apply Pos.eqb_eq in Hm. apply Z.eqb_eq in He.
    congruence.
  - apply eqb_prop in H. congruence.
Qed.

(** A number that the reader gives back from its text is read back
    whatever closes it. *)
Lemma number_text n rest :
  readable (JNum n) = true -> closing rest = true ->
  Reader.number (JSON.number_to_string n ++ rest) = Some (n, rest).
Proof.
  cbn [readable]. intros Hr Hc. rewrite number_app by exact Hc.
  destruct (Reader.number (JSON.number_to_string n)) as [[n' [|c r]]|];
    try discriminate Hr.
  apply number_eqb_eq in Hr. subst n'. reflexivity.
Qed.

(** The text of a number starts with a sign or a digit. *)
Lemma number_first s p :
  Reader.number s = Some p ->
  exists c t, s = c :: t /\ (c =? 45) || Reader.is_digit c = true.
Proof.
  unfold Reader.number. destruct s as [|c t]; [discriminate|].
  intros H. exists c, t. split; [reflexivity|].
  destruct (c =? 45); [reflexivity|]. cbn [orb].
  cbn [Reader.natural] in H. destruct (N.eqb_spec c 48) as [->|_];
    [reflexivity|].
  destruct (Reader.is_digit c); [reflexivity|discriminate H].
Qed.

(** *** Arrays and objects *)

Lemma serialize_array l text :
  JSON.serialize (JArr l) = Some text ->
  exists parts,
    Forall2 (fun x p => JSON.serialize x = Some p) l parts
    /\ text = 91 :: JSON.join parts ++ [93].
Proof.
  cbn [JSON.serialize].
  set (elements := fix elements (l : list jsvalue) : option (list jsstring) :=
         match l with
         | [] => Some []
         | x :: r =>
             match JSON.serialize x, elements r with
             | Some a, Some b => Some (a :: b)
             | _, _ => None
             end
         end).
  assert (E : forall l parts, elements l = Some parts ->
              Forall2 (fun x p => JSON.serialize x = Some p) l parts).
  { clear. induction l as [|x r IH]; intros parts H; cbn in H.
    - injection H as <-. constructor.
    - destruct (JSON.serialize x) as [a|] eqn:A; [|discriminate H].
      destruct (elements r) as [b|] eqn:B; [|discriminate H].
      injection H as <-. constructor; [exact A|]. apply IH. reflexivity. }
  destruct (elements l) as [parts|] eqn:P; [|discriminate].
  intros H. injection H as <-. exists parts. split; [|reflexivity].
  apply E. exact P.
Qed.

Lemma serialize_object l text :
  JSON.serialize (JObj l) = Some text ->
  exists parts,
    Forall2 (fun kv p => JSON.serialize (snd kv) = Some p) l parts
    /\ text
       = 123 :: JSON.join (map (fun kp => JSON.quote (fst (fst kp))
                                          ++ 58 :: snd kp)
                             (combine l parts)) ++ [125].
Proof.
  cbn [JSON.serialize].
  set (properties :=
         fix properties (l : list (jsstring * jsvalue))
           : option (list jsstring) :=
           match l with
           | [] => Some []
           | (k, x) :: r =>
               match JSON.serialize x, properties r with
               | Some a, Some b => Some ((JSON.quote k ++ 58 :: a) :: b)
               | _, _ => None
               end
           end).
  assert (E : forall l texts, properties l = Some texts ->
              exists parts,
                Forall2 (fun kv p => JSON.serialize (snd kv) = Some p) l parts
                /\ texts = map (fun kp => JSON.quote (fst (fst kp))
                                          ++ 58 :: snd kp)
                             (combine l parts)).
  { clear. induction l as [|[k x] r IH]; intros texts H; cbn in H.
    - injection H as <-. exists []. split; [constructor|reflexivity].
    - destruct (JSON.serialize x) as [a|] eqn:A; [|discriminate H].
      destruct (properties r) as [b|] eqn:B; [|discriminate H].
      injection H as <-. destruct (IH b eq_refl) as (parts & F & ->).
      exists (a :: parts). split; [constructor; assumption|reflexivity]. }
  destruct (properties l) as [texts|] eqn:P; [|discriminate].
  intros H. injection H as <-.
  destruct (E l texts P) as (parts & F & ->).
  exists parts. split; [exact F|reflexivity].
Qed.

Lemma number_branch c :
  (c =? 45) || Reader.is_digit c = true ->
  Reader.whitespace c = false
  /\ (c =? 123) = false /\ (c =? 91) = false /\ (c =? 34) = false
  /\ (c =? 116) = false /\ (c =? 102) = false /\ (c =? 110) = false
  /\ opening c = true.
Proof.
  intros H.
  assert (B : c < N.of_nat 58).
  { apply orb_true_iff in H. destruct H as [H|H].
    - apply N.eqb_eq in H. subst c. reflexivity.
    - unfold Reader.is_digit in H. apply andb_true_iff in H.
      destruct H as [_ H]. apply N.leb_le in H. cbn. lia. }
  assert (A : forallb
                (fun c => negb ((c =? 45) || Reader.is_digit c)
                          || (negb (Reader.whitespace c)
                              && negb (c =? 123) && negb (c =? 91)
                              && negb (c =? 34) && negb (c =? 116)
                              && negb (c =? 102) && negb (c =? 110)
                              && opening c))
                (map N.of_nat (seq 0 58)) = true)
    by (vm_compute; reflexivity).
  pose proof (below_check _ 58 A c B) as K. cbv beta in K.
  rewrite H in K. cbn [negb orb] in K.
  repeat (apply andb_true_iff in K; destruct K as [K ?]).
  repeat match goal with
         | X : negb _ = true |- _ => apply negb_true_iff in X
         end.
  repeat split; assumption.
Qed.

Lemma serialize_head v text :
  readable v = true -> JSON.serialize v = Some text ->
  exists c t, text = c :: t /\ opening c = true.
Proof.
  destruct v as [|[|]|n|n|s|l|l]; intros Hr H.
  - injection H as <-. eexists; eexists; split; reflexivity.
  - injection H as <-. eexists; eexists; split; reflexivity.
  - injection H as <-. eexists; eexists; split; reflexivity.
  - injection H as <-. cbn [readable] in Hr.
    destruct (Reader.number (JSON.number_to_string n)) as [p|] eqn:E;
      [|discriminate Hr].
    destruct (number_first _ _ E) as (c & t & -> & Hc).
    exists c, t. split; [reflexivity|]. apply number_branch, Hc.
  - discriminate H.
  - injection H as <-. eexists; eexists; split; reflexivity.
  - destruct (serialize_array l text H) as (parts & _ & ->).
    eexists; eexists; split; reflexivity.
  - destruct (serialize_object l text H) as (parts & _ & ->).
    eexists; eexists; split; reflexivity.
Qed.

Lemma opening_skip c r : opening c = true -> Reader.skip (c :: r) = c :: r.
Proof.
  unfold opening. intros H. apply skip_cons.
  destruct (Reader.whitespace c); [discriminate H|reflexivity].
Qed.

Lemma closing_skip c r :
  (c =? 44) || (c =? 93) || (c =? 125) = true ->
  Reader.skip (c :: r) = c :: r.
Proof.
  intros H. apply skip_cons.
  apply orb_true_iff in H. destruct H as [H|H];
    [apply orb_true_iff in H; destruct H as [H|H]|];
    apply N.eqb_eq in H; subst c; reflexivity.
Qed.

Section Elements.

Variable value : jsstring -> option (jsvalue * jsstring).

(** The elements of an array are read back, when each of them is. *)
Lemma elements_join l : forall parts n rest,
  Forall2 (fun x p => forall rest, closing rest = true ->
                        value (p ++ rest) = Some (x, rest)) l parts ->
  l <> [] -> (length l <= n)%nat ->
  Reader.elements value n (JSON.join parts ++ 93 :: rest) = Some (l, rest).
Proof.
  induction l as [|x r IH]; intros parts n rest F Hl Hn; [congruence|].
  inversion F as [|x' p r' parts' Hx Fr]; subst.
  destruct n as [|n]; [cbn [length] in Hn; lia|].
  cbn [length] in Hn. cbn [Reader.elements].
  destruct r as [|y r].
  - inversion Fr; subst. cbn [JSON.join].
    rewrite Hx by reflexivity. rewrite closing_skip by reflexivity.
    reflexivity.
  - inversion Fr as [|y' q r' parts'' Hy Fr']; subst.
    change (JSON.join (p :: q :: parts''))
      with (p ++ 44 :: JSON.join (q :: parts'')).
    rewrite <- app_assoc. cbn [app].
    rewrite Hx by reflexivity. rewrite closing_skip by reflexivity.
    change (44 =? 44) with true. cbv beta iota.
    rewrite (IH (q :: parts'') n rest Fr); [reflexivity|discriminate|].
    cbn [length] in *. lia.
Qed.

Lemma member_absent o k :
  existsb (jsstring_eqb k) (map fst o) = false -> member o k = None.
Proof.
  induction o as [|[k' v'] r IH]; intros H; [reflexivity|].
  cbn [map fst existsb] in H. apply orb_false_iff in H. destruct H as [H1 H2].
  cbn [member].
  assert (E : jsstring_eqb k' k = false).
  { apply jsstring_eqb_neq. apply jsstring_eqb_neq in H1. congruence. }
  rewrite E. apply IH, H2.
Qed.

Lemma insert_index_last o i k v :
  forallb (fun k' => precedes k' k) (map fst o) = true ->
  Reader.array_index k = Some i ->
  Reader.insert_index o i k v = o ++ [(k, v)].
Proof.
  intros H A. induction o as [|[k' v'] r IH]; [reflexivity|].
  cbn [map fst forallb] in H. apply andb_true_iff in H. destruct H as [H1 H2].
  cbn [Reader.insert_index app]. unfold precedes in H1. rewrite A in H1.
  destruct (Reader.array_index k') as [j|]; [|discriminate H1].
  rewrite H1, IH by exact H2. reflexivity.
Qed.

(** A property whose name is new, and that is enumerated after those
    read so far, is added at their end. *)
Lemma define_fresh o k v :
  existsb (jsstring_eqb k) (map fst o) = false ->
  forallb (fun k' => precedes k' k) (map fst o) = true ->
  Reader.define o k v = o ++ [(k, v)].
Proof.
  intros H O. unfold Reader.define. rewrite member_absent by exact H.
  destruct (Reader.array_index k) as [i|] eqn:A; [|reflexivity].
  apply insert_index_last; assumption.
Qed.

Lemma ordered_app a k b :
  ordered (a ++ k :: b) = true ->
  forallb (fun k' => precedes k' k) a = true.
Proof.
  induction a as [|x a IH]; [reflexivity|].
  cbn [app ordered forallb]. intros H. apply andb_true_iff in H.
  destruct H as [H1 H2]. rewrite (IH H2), andb_true_r.
  rewrite forallb_app in H1. apply andb_true_iff in H1.
  destruct H1 as [_ H1]. cbn [forallb] in H1.
  apply andb_true_iff in H1. apply H1.
Qed.

Lemma distinct_app a k b :
  distinct (a ++ k :: b) = true ->
  existsb (jsstring_eqb k) a = false /\ distinct ((a ++ [k]) ++ b) = true.
Proof.
  intros H. rewrite <- app_assoc. cbn [app]. split; [|exact H].
  induction a as [|x a IH]; [reflexivity|].
  cbn [app distinct existsb] in *. apply andb_true_iff in H.
  destruct H as [H1 H2]. rewrite (IH H2), orb_false_r.
  apply negb_true_iff in H1. rewrite existsb_app in H1.
  apply orb_false_iff in H1. destruct H1 as [_ H1].
  cbn [existsb] in H1. apply orb_false_iff in H1. destruct H1 as [H1 _].
  apply jsstring_eqb_neq. apply jsstring_eqb_neq in H1. congruence.
Qed.

(** The properties of an object are read back, when each value is and
    the names are all different and in the order of enumeration. *)
Lemma properties_join l : forall parts n o rest,
  Forall2 (fun kv p => forall rest, closing rest = true ->
                         value (p ++ rest) = Some (snd kv, rest)) l parts ->
  l <> [] -> (length l <= n)%nat ->
  distinct (map fst (o ++ l)) = true ->
  ordered (map fst (o ++ l)) = true ->
  Reader.properties value n o
    (JSON.join (map (fun kp => JSON.quote (fst (fst kp)) ++ 58 :: snd kp)
                  (combine l parts)) ++ 125 :: rest)
  = Some (o ++ l, rest).
Proof.
  induction l as [|[k x] r IH]; intros parts n o rest F Hl Hn Hd Ho;
    [congruence|].
  inversion F as [|kx p r' parts' Hx Fr]; subst. cbn [snd] in Hx.
  destruct n as [|n]; [cbn [length] in Hn; lia|].
  cbn [length] in Hn.
  rewrite map_app in Hd, Ho. cbn [map fst] in Hd, Ho.
  destruct (distinct_app _ _ _ Hd) as [Hk Hd'].
  pose proof (ordered_app _ _ _ Ho) as Hp.
  assert (one : forall tail,
            Reader.properties value (S n) o
              ((JSON.quote k ++ 58 :: p) ++ tail)
            = match value (p ++ tail) with
              | Some (v, r3) =>
                  match Reader.skip r3 with
                  | c :: r4 =>
                      if c =? 44
                      then Reader.properties value n (Reader.define o k v) r4
                      else if c =? 125
                           then Some (Reader.define o k v, r4)
                           else None
                  | [] => None
                  end
              | None => None
              end).
  { intros tail. cbn [Reader.properties]. unfold JSON.quote.
    cbn [app]. rewrite skip_cons by reflexivity.
    change (34 =? 34) with true. cbv beta iota.
    rewrite <- !app_assoc. cbn [app]. rewrite characters_quote.
    rewrite skip_cons by reflexivity.
    change (58 =? 58) with true. cbv beta iota. reflexivity. }
  destruct r as [|[k' y] r].
  - inversion Fr; subst. cbn [combine map JSON.join].
    rewrite one, Hx by reflexivity. rewrite closing_skip by reflexivity.
    change (125 =? 44) with false. change (125 =? 125) with true.
    cbv beta iota. rewrite define_fresh by assumption. reflexivity.
  - inversion Fr as [|ky q r' parts'' Hy Fr']; subst.
    cbn [combine map fst snd].
    set (texts := map _ (combine r parts'')).
    change (JSON.join ((JSON.quote k ++ 58 :: p)
                       :: (JSON.quote k' ++ 58 :: q) :: texts))
      with ((JSON.quote k ++ 58 :: p)
            ++ 44 :: JSON.join ((JSON.quote k' ++ 58 :: q) :: texts)).
    rewrite <- app_assoc. rewrite one. cbn [app].
    rewrite Hx by reflexivity. rewrite closing_skip by reflexivity.
    change (44 =? 44) with true. cbv beta iota.
    rewrite define_fresh by assumption.
    assert (R := IH (q :: parts'') n (o ++ [(k, x)]) rest Fr).
    cbn [combine map fst snd] in R. fold texts in R.
    rewrite R.
    + rewrite <- app_assoc. reflexivity.
    + discriminate.
    + cbn [length] in *. lia.
    + rewrite !map_app in *. cbn [map fst] in *. exact Hd'.
    + rewrite !map_app. cbn [map fst]. rewrite <- app_assoc. exact Ho.
Qed.

End Elements.

Lemma join_length parts :
  Forall (fun p : jsstring => p <> []) parts ->
  (length parts <= length (JSON.join parts))%nat.
Proof.
  induction 1 as [|p r Hp _ IH]; [apply Nat.le_refl|].
  destruct r as [|q r].
  - cbn [JSON.join length]. destruct p; [contradiction|cbn [length]; lia].
  - change (JSON.join (p :: q :: r)) with (p ++ 44 :: JSON.join (q :: r)).
    rewrite length_app. cbn [length] in *. lia.
Qed.

Lemma join_longest parts p :
  In p parts -> (length p <= length (JSON.join parts))%nat.
Proof.
  induction parts as [|q r IH]; [contradiction|].
  intros [->|H].
  - destruct r as [|q' r]; [apply Nat.le_refl|].
    change (JSON.join (p :: q' :: r)) with (p ++ 44 :: JSON.join (q' :: r)).
    rewrite length_app. lia.
  - destruct r as [|q' r]; [contradiction|].
    change (JSON.join (q :: q' :: r)) with (q ++ 44 :: JSON.join (q' :: r)).
    rewrite length_app. cbn [length]. specialize (IH H). lia.
Qed.

(** A value under [fuel] levels of nesting is read back from its JSON
    text, whatever closes it. *)
Lemma value_serialize v :
  readable v = true ->
  forall text, JSON.serialize v = Some text ->
  forall fuel rest, (depth v < fuel)%nat -> closing rest = true ->
  Reader.value fuel (text ++ rest) = Some (v, rest).
Proof.
  induction v as [|b|n|n|s|l IH|l IH] using jsvalue_induction;
    intros Hr text Hs fuel rest Hf Hc;
    (destruct fuel as [|fuel]; [lia|]).
  - injection Hs as <-. reflexivity.
  - destruct b; injection Hs as <-; reflexivity.
  - injection Hs as <-.
    pose proof (number_text n rest Hr Hc) as N. cbn [readable] in Hr.
    destruct (Reader.number (JSON.number_to_string n)) as [p|] eqn:R;
      [|discriminate Hr].
    destruct (number_first _ _ R) as (c & t & E & Hn).
    destruct (number_branch c Hn) as (W & B1 & B2 & B3 & B4 & B5 & B6 & _).
    rewrite value_S. rewrite E in *. cbn [app] in *.
    rewrite skip_cons by exact W. rewrite B1, B2, B3, B4, B5, B6, N.
    reflexivity.
  - discriminate Hr.
  - injection Hs as <-. rewrite value_S. unfold JSON.quote. cbn [app].
    rewrite skip_cons by reflexivity.
    change (34 =? 123) with false. change (34 =? 91) with false.
    change (34 =? 34) with true. cbv beta iota.
    rewrite <- app_assoc. cbn [app]. rewrite characters_quote. reflexivity.
  - destruct (serialize_array l text Hs) as (parts & F & ->).
    cbn [readable] in Hr. cbn [depth] in Hf.
    assert (G : Forall2 (fun x p => forall rest, closing rest = true ->
                           Reader.value fuel (p ++ rest) = Some (x, rest))
                  l parts
                /\ Forall (fun p : jsstring => p <> []) parts).
    { clear Hs. revert Hr Hf IH. induction F as [|x p l parts Hx F IHF];
        intros Hr Hf IH; [split; constructor|].
      cbn [forallb fold_right] in *. apply andb_true_iff in Hr.
      destruct Hr as [Hr1 Hr2]. inversion IH as [|? ? Q1 Q2]; subst.
      destruct IHF as [G1 G2]; [exact Hr2|lia|exact Q2|].
      split; constructor; try assumption.
      - intros rest' Hc'. apply Q1; [exact Hr1|exact Hx|lia|exact Hc'].
      - eapply serialize_nonempty. exact Hx. }
    destruct G as [G N]. rewrite value_S. cbn [app].
    rewrite skip_cons by reflexivity.
    change (91 =? 123) with false. change (91 =? 91) with true.
    cbv beta iota. rewrite <- app_assoc. cbn [app].
    destruct l as [|x l].
    + inversion F; subst. cbn [JSON.join app].
      rewrite skip_cons by reflexivity. reflexivity.
    + inversion F as [|? p ? parts' Hx F']; subst.
      assert (Rx : readable x = true)
        by (cbn [forallb] in Hr; apply andb_true_iff in Hr; apply Hr).
      destruct (serialize_head x p Rx Hx) as (c & t & -> & Ho).
      pose proof (join_length _ N) as L.
      pose proof (elements_join (Reader.value fuel) (x :: l)
                    ((c :: t) :: parts')
                    (length (JSON.join ((c :: t) :: parts') ++ 93 :: rest))
                    rest G) as E.
      set (j := JSON.join _) in *.
      assert (J : exists t', j = c :: t')
        by (unfold j; destruct parts'; cbn [JSON.join app]; eauto).
      destruct J as (t' & J). clearbody j. subst j. cbn [app] in *.
      rewrite opening_skip by exact Ho.
      unfold opening in Ho. repeat (apply andb_true_iff in Ho;
                                    destruct Ho as [Ho ?]).
      replace (c =? 93) with false by (symmetry; apply negb_true_iff;
                                       assumption).
      rewrite E; [reflexivity|discriminate|].
      apply Forall2_length in F'. cbn [length] in *.
      rewrite length_app. lia.
  - destruct (serialize_object l text Hs) as (parts & F & ->).
    cbn [readable] in Hr. cbn [depth] in Hf.
    apply andb_true_iff in Hr. destruct Hr as [Hd Hr].
    apply andb_true_iff in Hd. destruct Hd as [Hd Ho].
    assert (G : Forall2 (fun kv p => forall rest, closing rest = true ->
                           Reader.value fuel (p ++ rest)
                           = Some (snd kv, rest)) l parts).
    { clear Hs Hd Ho. revert Hr Hf IH. induction F as [|x p l parts Hx F IHF];
        intros Hr Hf IH; [constructor|].
      cbn [forallb fold_right] in *. apply andb_true_iff in Hr.
      destruct Hr as [Hr1 Hr2]. inversion IH as [|? ? Q1 Q2]; subst.
      constructor.
      - intros rest' Hc'. apply Q1; [exact Hr1|exact Hx|lia|exact Hc'].
      - apply IHF; [exact Hr2|lia|exact Q2]. }
    rewrite value_S. cbn [app].
    rewrite skip_cons by reflexivity.
    change (123 =? 123) with true. cbv beta iota.
    rewrite <- app_assoc. cbn [app].
    destruct l as [|[k x] l].
    + inversion F; subst. cbn [combine map JSON.join app].
      rewrite skip_cons by reflexivity. reflexivity.
    + inversion F as [|? p ? parts' Hx F']; subst.
      assert (N : Forall (fun p : jsstring => p <> [])
                    (map (fun kp => JSON.quote (fst (fst kp)) ++ 58 :: snd kp)
                       (combine ((k, x) :: l) (p :: parts')))).
      { apply Forall_forall. intros q Hq. apply in_map_iff in Hq.
        destruct Hq as (kp & <- & _). discriminate. }
      pose proof (join_length _ N) as L.
      rewrite length_map, length_combine in L.
      apply Forall2_length in F'. cbn [length] in L.
      rewrite <- F', Nat.min_id in L.
      pose proof (properties_join (Reader.value fuel) ((k, x) :: l)
                    (p :: parts')
                    (length (JSON.join
                               (map (fun kp => JSON.quote (fst (fst kp))
                                               ++ 58 :: snd kp)
                                  (combine ((k, x) :: l) (p :: parts')))
                             ++ 125 :: rest))
                    [] rest G) as E.
      cbn [combine map fst snd] in *.
      set (j := JSON.join _) in *.
      assert (J : exists t', j = 34 :: t').
      { assert (A : forall first texts, exists t',
                  JSON.join ((34 :: first) :: texts) = 34 :: t')
          by (intros ? [|? ?]; cbn [JSON.join app]; eauto).
        destruct (A ((JSON.quote_units k ++ [34]) ++ 58 :: p)
                    (map (fun kp : jsstring * jsvalue * jsstring =>
                            JSON.quote (fst (fst kp)) ++ 58 :: snd kp)
                       (combine l parts'))) as (t' & Jt).
        exists t'. exact Jt. }
      destruct J as (t' & J). clearbody j. subst j. cbn [app] in *.
      rewrite skip_cons by reflexivity.
      change (34 =? 125) with false. cbv beta iota.
      rewrite E; [reflexivity|discriminate| |exact Hd|exact Ho].
      cbn [length] in *. rewrite length_app. lia.
Qed.

Lemma depth_text v :
  forall text, JSON.serialize v = Some text -> (depth v <= length text)%nat.
Proof.
  induction v as [|b|n|n|s|l IH|l IH] using jsvalue_induction;
    intros text Hs; try (cbn [depth]; lia).
  - destruct (serialize_array l text Hs) as (parts & F & ->).
    cbn [depth length]. rewrite length_app.
    assert (M : (fold_right (fun x d => Nat.max (depth x) d) O l
                 <= length (JSON.join parts))%nat).
    { assert (A : forall p, In p parts ->
                    (length p <= length (JSON.join parts))%nat)
        by (intros p; apply join_longest).
      clear Hs. revert A IH. generalize (length (JSON.join parts)).
      induction F as [|x p l parts Hx F IHF]; intros m A IH;
        cbn [fold_right]; [lia|].
      inversion IH as [|? ? Q1 Q2]; subst.
      specialize (Q1 p Hx). specialize (A p (or_introl eq_refl)) as Ap.
      assert (fold_right (fun x d => Nat.max (depth x) d) O l <= m)%nat.
      { apply IHF; [|exact Q2]. intros q Hq. apply A. right. exact Hq. }
      lia. }
    lia.
  - destruct (serialize_object l text Hs) as (parts & F & ->).
    cbn [depth length]. rewrite length_app.
    match goal with |- context [JSON.join ?m] => set (texts := m) end.
    assert (M : (fold_right (fun kv d => Nat.max (depth (snd kv)) d) O l
                 <= length (JSON.join texts))%nat).
    { assert (A : forall q, In q texts ->
                    (length q <= length (JSON.join texts))%nat)
        by (intros q; apply join_longest).
      clear Hs. revert A IH. generalize (length (JSON.join texts)).
      unfold texts. clear texts.
      induction F as [|x p l parts Hx F IHF]; intros m A IH;
        cbn [fold_right]; [lia|].
      inversion IH as [|? ? Q1 Q2]; subst.
      specialize (Q1 p Hx). cbn [combine map] in A.
      specialize (A _ (or_introl eq_refl)) as Ap.
      rewrite length_app in Ap. cbn [length] in Ap.
      assert (fold_right (fun kv d => Nat.max (depth (snd kv)) d) O l
              <= m)%nat.
      { apply IHF; [|exact Q2]. intros q Hq. apply A. right. exact Hq. }
      cbn [fst snd] in Ap. lia. }
    lia.
Qed.

(** [JSON.parse(JSON.stringify(v))] is [v]. *)
Lemma parse_serialize v text :
  readable v = true -> JSON.serialize v = Some text ->
  Reader.parse text = Some v.
Proof.
  intros Hr Hs. unfold Reader.parse.
  pose proof (value_serialize v Hr text Hs (S (length text)) []) as V.
  rewrite List.app_nil_r in V. rewrite V; [reflexivity| |reflexivity].
  pose proof (depth_text v text Hs). lia.
Qed.

(** ** Round trip *)

(** X1.  On every platform that satisfies the laws, a payload whose JSON
    text is made of code units up to 0xFF, and which the platform's
    [JSON.parse] reads back from that text, comes back from [decode], at
    status 200, when [decode] is given what [encode] answered at status
    200; this holds whatever the random source yields and whatever was
    called before. *)
Theorem encode_decode_round_trip P body text w w' :
  Laws P ->
  JSON.serialize body = Some text -> latin1 text = true ->
  JSON_parse_text P text = Some body ->
  exists answer,
    fst (encode P body w) = Returned (send 200 (JObj answer))
    /\ fst (decode P answer w') = Returned (send 200 body).
Proof.
  intros L Hs Hl Hp. exact (round_trip P L body text w w' Hs Hl Hp).
Qed.

Lemma encode_decode_round_trip_witness :
  exists answer,
    fst (encode Node.platform parcel (fresh zeros))
    = Returned (send 200 (JObj answer))
    /\ fst (decode Node.platform answer (fresh zeros))
       = Returned (send 200 parcel).
Proof.
  refine (encode_decode_round_trip Node.platform parcel _ (fresh zeros)
            (fresh zeros) node_laws _ _ _).
  - vm_compute. reflexivity.
  - vm_compute. reflexivity.
  - vm_compute. reflexivity.
Defined.

(** What [JSON.stringify] and [JSON.parse] make of numbers, on known
    cases: the shortest digits that tell a double from its neighbours,
    an exponent from [1e21] on and below [1e-6], [null] for a number
    that is not finite; the nearest double with ties to even, [-0], and
    infinity from [1e309] on. *)
Example number_vectors :
  map JSON.number_to_string
    [Number.of_integer 0; Number.Zero true; Number.of_integer (-3);
     Number.of_decimal false 5 (-1); Number.of_decimal false 1 (-1);
     Number.of_decimal false 1 21; Number.of_decimal false 1 20;
     Number.of_integer (2 ^ 53 + 1); Number.of_integer (2 ^ 60);
     Number.of_decimal false 1 (-6); Number.of_decimal false 1 (-7);
     Number.of_decimal false 5 (-324); Number.of_decimal false 2 (-324);
     Number.of_decimal false 17976931348623157 292;
     Number.of_decimal false 123456 (-3);
     Number.Infinity false; Number.NaN]
  = [str "0"; str "0"; str "-3"; str "0.5"; str "0.1"; str "1e+21";
     str "100000000000000000000"; str "9007199254740992";
     str "1152921504606847000"; str "0.000001"; str "1e-7"; str "5e-324";
     str "0"; str "1.7976931348623157e+308"; str "123.456"; str "null";
     str "null"]
  /\ map Reader.parse
       [str "0.1e1"; str "-0"; str "1E400"; str "9007199254740993";
        str "1."; str ".5"; str "01"; str "1e"; str "-"; str "2.50e-1"]
     = [Some (JNum (Number.of_integer 1)); Some (JNum (Number.Zero true));
        Some (JNum (Number.Infinity false));
        Some (JNum (Number.of_integer (2 ^ 53))); None; None; None; None;
        None; Some (JNum (Number.Finite false 1 (-2)))].
Proof. vm_compute. split; reflexivity. Qed.

(** The properties of an object that is read: the array indices first,
    in ascending order, then the other names in the order of the text; a
    name that comes twice keeps its first place and its last value. *)
Example property_order :
  let entry k v := JSON.quote k ++ 58 :: v in
  Reader.parse
    (123 :: JSON.join [entry (str "b") (str "1"); entry (str "10") (str "2");
                       entry (str "9") (str "3"); entry (str "b") (str "4");
                       entry (str "4294967295") (str "5");
                       entry (str "01") (str "6")] ++ [125])
  = Some (JObj [(str "9", JNum (Number.of_integer 3));
                (str "10", JNum (Number.of_integer 2));
                (str "b", JNum (Number.of_integer 4));
                (str "4294967295", JNum (Number.of_integer 5));
                (str "01", JNum (Number.of_integer 6))]).
Proof. vm_compute. reflexivity. Qed.

(** ** The test "works for random user data" *)

Lemma quote_units_printable s :
  Forall (fun c => 33 <= c <= 126) s -> latin1 (JSON.quote_units s) = true.
Proof.
  unfold latin1.
  induction 1 as [|c r [H0 H1] _ IH]; [reflexivity|].
  cbn [JSON.quote_units].
  destruct (c =? 34); [cbn [forallb]; rewrite IH; reflexivity|].
  destruct (c =? 92); [cbn [forallb]; rewrite IH; reflexivity|].
  replace (c =? 8) with false by (symmetry; apply N.eqb_neq; lia).
  replace (c =? 12) with false by (symmetry; apply N.eqb_neq; lia).
  replace (c =? 10) with false by (symmetry; apply N.eqb_neq; lia).
  replace (c =? 13) with false by (symmetry; apply N.eqb_neq; lia).
  replace (c =? 9) with false by (symmetry; apply N.eqb_neq; lia).
  replace (c <? 32) with false by (symmetry; apply N.ltb_ge; lia).
  replace (Utf8.high_surrogate c) with false
    by (symmetry; apply andb_false_iff; left; apply N.leb_gt; lia).
  replace (Utf8.low_surrogate c) with false
    by (symmetry; apply andb_false_iff; left; apply N.leb_gt; lia).
  cbn [forallb]. rewrite IH.
  replace (c <=? 255) with true by (symmetry; apply N.leb_le; lia).
  reflexivity.
Qed.

Lemma named_text s :
  Forall (fun c => 33 <= c <= 126) s ->
  exists text,
    JSON.serialize (JObj [(str "name", JStr s)]) = Some text
    /\ latin1 text = true.
Proof.
  intros H. eexists. split; [reflexivity|].
  pose proof (quote_units_printable s H) as Q.
  unfold latin1 in *. unfold JSON.join, JSON.quote.
  repeat (rewrite forallb_app || cbn [forallb app]).
  rewrite Q. reflexivity.
Qed.

(** X12.  The test "works for random user data" passes whatever the
    random source yields, for the name as for the IV: on every platform
    that satisfies the laws and whose [JSON.parse] reads the payloads of
    the test back from their text (the objects [{ name: s }] for the
    strings [s] of the characters [!] to [~]), [encode] answers 200 to
    [{ name: generateRandomString(10) }], and [decode] answers 200 to
    that answer, with a payload whose [name] is the random name. *)
Theorem random_user_data_passes P w :
  Laws P ->
  (forall name text,
     Forall (fun c => 33 <= c <= 126) name ->
     JSON.serialize (JObj [(str "name", JStr name)]) = Some text ->
     JSON_parse_text P text = Some (JObj [(str "name", JStr name)])) ->
  works_for_random_user_data P w = true.
Proof.
  intros L B. unfold works_for_random_user_data.
  destruct (random_string 10 w ltac:(lia)) as (name & Gn & _ & Gp & _).
  destruct (generateRandomString 10 w) as [o w1]. cbn [fst] in Gn. subst o.
  destruct (named_text name Gp) as (text & Hs & Hl).
  rewrite (encode_run P _ text w1 Hs Hl (encryption_key_length P L)).
  change (StatusCode.SuccessOK =? StatusCode.SuccessOK) with true.
  cbn [andb].
  set (w2 := {| calls := _; entropy := _ |}).
  assert (D : fst (decode P (issued P text (random_bytes 16 (entropy w1))) w2)
              = Returned (send StatusCode.SuccessOK
                            (JObj [(str "name", JStr name)]))).
  { unfold issued. rewrite decode_issued_under;
      try apply random_bytes_length; try apply random_bytes_octets;
      try assumption; [|eapply serialize_nonempty; exact Hs].
    rewrite xor_head_same by apply random_bytes_length.
    rewrite verdict_signed_block;
      [|eapply serialize_nonempty; exact Hs|exact Hl].
    rewrite (B name text Gp Hs). reflexivity. }
  destruct (decode P _ w2) as [o w3]. cbn [fst] in D. subst o.
  change (StatusCode.SuccessOK =? StatusCode.SuccessOK) with true.
  cbn [andb]. change (member [(str "name", JStr name)] (str "name"))
    with (Some (JStr name)).
  apply jsstring_eqb_refl.
Qed.

Lemma random_user_data_passes_witness :
  Laws Node.platform
  /\ works_for_random_user_data Node.platform (fresh lucky) = true.
Proof.
  split; [exact node_laws|].
  exact (random_user_data_passes Node.platform (fresh lucky) node_laws
           (fun name text _ Hs =>
              parse_serialize (JObj [(str "name", JStr name)]) text
                eq_refl Hs)).
Defined.

(** ** [isValidEmail] *)

Section Matching.

Variable items : list RegExp.item.
Variable k : nat -> jsstring -> bool.

(** [[...]+]: a prefix of one character of the class or more. *)
Lemma accept_plus_class i s :
  RegExp.accept (RegExp.Plus (RegExp.Class items)) i s k = true
  <-> exists p r,
        p <> [] /\ s = p ++ r
        /\ forallb (RegExp.in_class items) p = true
        /\ k (i + length p)%nat r = true.
Proof.
  cbn [RegExp.accept].
  set (more := fix more (rounds i : nat) (s : jsstring) {struct rounds} :=
         match s with
         | d :: r =>
             RegExp.in_class items d
             && match rounds with
                | S rounds' => more rounds' (S i) r || k (S i) r
                | O => k (S i) r
                end
         | [] => false
         end).
  assert (sound : forall rounds i s, more rounds i s = true ->
            exists p r, p <> [] /\ s = p ++ r
                        /\ forallb (RegExp.in_class items) p = true
                        /\ k (i + length p)%nat r = true).
  { induction rounds as [|rounds IH]; intros j [|d r] H;
      try discriminate H; cbn in H; apply andb_true_iff in H;
      destruct H as [Hd H].
    - exists [d], r. cbn [forallb length app]. rewrite Hd.
      replace (j + 1)%nat with (S j) by lia.
      repeat split; [discriminate|exact H].
    - apply orb_true_iff in H. destruct H as [H|H].
      + destruct (IH _ _ H) as (p & r' & _ & -> & Hp & Hk).
        exists (d :: p), r'. cbn [forallb length app]. rewrite Hd, Hp.
        replace (j + S (length p))%nat with (S j + length p)%nat by lia.
        repeat split; [discriminate|exact Hk].
      + exists [d], r. cbn [forallb length app]. rewrite Hd.
        replace (j + 1)%nat with (S j) by lia.
        repeat split; [discriminate|exact H]. }
  assert (complete : forall p r rounds i,
            p <> [] -> forallb (RegExp.in_class items) p = true ->
            k (i + length p)%nat r = true ->
            (length p <= S rounds)%nat ->
            more rounds i (p ++ r) = true).
  { induction p as [|d p IH]; intros r rounds j Hn Hp Hk Hl; [congruence|].
    cbn [forallb] in Hp. apply andb_true_iff in Hp. destruct Hp as [Hd Hp].
    destruct p as [|d' p]; cbn [length] in *.
    - replace (j + 1)%nat with (S j) in Hk by lia.
      destruct rounds; cbn; rewrite Hd, Hk; [reflexivity|].
      rewrite orb_true_r. reflexivity.
    - destruct rounds as [|rounds]; [lia|].
      cbn [app]. cbn [more]. fold more. rewrite Hd. cbn [andb].
      apply orb_true_iff. left.
      apply (IH r rounds (S j)); [discriminate|exact Hp| |cbn [length]; lia].
      cbn [length].
      replace (S j + S (length p))%nat
        with (j + S (S (length p)))%nat by lia.
      exact Hk. }
  split.
  - apply sound.
  - intros (p & r & Hn & -> & Hp & Hk).
    apply complete; try assumption. rewrite length_app. lia.
Qed.

(** [[...]{2,4}]: a prefix of two to four characters of the class. *)
Lemma accept_times_class i s :
  RegExp.accept (RegExp.Times 2 4 (RegExp.Class items)) i s k = true
  <-> exists p r,
        s = p ++ r /\ (2 <= length p <= 4)%nat
        /\ forallb (RegExp.in_class items) p = true
        /\ k (i + length p)%nat r = true.
Proof.
  cbn [RegExp.accept Nat.sub]. split.
  - destruct s as [|d1 [|d2 r2]]; try discriminate;
      try (rewrite andb_false_r; discriminate).
    intros H. apply andb_true_iff in H. destruct H as [H1 H].
    apply andb_true_iff in H. destruct H as [H2 H].
    apply orb_true_iff in H. destruct H as [H|H].
    + destruct r2 as [|d3 r3]; [discriminate H|].
      apply andb_true_iff in H. destruct H as [H3 H].
      apply orb_true_iff in H. destruct H as [H|H].
      * destruct r3 as [|d4 r4]; [discriminate H|].
        apply andb_true_iff in H. destruct H as [H4 H].
        exists [d1; d2; d3; d4], r4. cbn [forallb length app].
        rewrite H1, H2, H3, H4.
        replace (i + 4)%nat with (S (S (S (S i)))) by lia.
        repeat split; try lia. exact H.
      * exists [d1; d2; d3], r3. cbn [forallb length app].
        rewrite H1, H2, H3.
        replace (i + 3)%nat with (S (S (S i))) by lia.
        repeat split; try lia. exact H.
    + exists [d1; d2], r2. cbn [forallb length app]. rewrite H1, H2.
      replace (i + 2)%nat with (S (S i)) by lia.
      repeat split; try lia. exact H.
  - intros (p & r & -> & [Hl1 Hl2] & Hp & Hk).
    destruct p as [|d1 [|d2 [|d3 [|d4 [|d5 p]]]]];
      cbn [length] in *; try lia;
      cbn [forallb] in Hp;
      repeat (apply andb_true_iff in Hp; destruct Hp as [? Hp]);
      cbn [app];
      repeat match goal with
             | X : RegExp.in_class items _ = true |- _ => rewrite X; clear X
             end;
      cbn [andb].
    + replace (i + 2)%nat with (S (S i)) in Hk by lia.
      rewrite Hk. apply orb_true_r.
    + replace (i + 3)%nat with (S (S (S i))) in Hk by lia.
      rewrite Hk. rewrite orb_true_r. reflexivity.
    + replace (i + 4)%nat with (S (S (S (S i)))) in Hk by lia.
      rewrite Hk. reflexivity.
Qed.

End Matching.

Lemma in_class_local c :
  RegExp.in_class
    [RegExp.Range 97 122; RegExp.Range 65 90; RegExp.Range 48 57;
     RegExp.One 46; RegExp.One 95; RegExp.One 45] c
  = local_character c.
Proof.
  unfold RegExp.in_class, local_character, letter.
  cbn [existsb RegExp.in_item]. rewrite orb_false_r, !orb_assoc.
  reflexivity.
Qed.

Lemma in_class_domain c :
  RegExp.in_class
    [RegExp.Range 97 122; RegExp.Range 65 90; RegExp.Range 48 57;
     RegExp.One 46; RegExp.One 45] c
  = domain_character c.
Proof.
  unfold RegExp.in_class, domain_character, letter.
  cbn [existsb RegExp.in_item]. rewrite orb_false_r, !orb_assoc.
  reflexivity.
Qed.

Lemma in_class_letter c :
  RegExp.in_class [RegExp.Range 97 122; RegExp.Range 65 90] c = letter c.
Proof.
  unfold RegExp.in_class, letter.
  cbn [existsb RegExp.in_item]. rewrite orb_false_r. reflexivity.
Qed.

Lemma forallb_ext_eq {A} (f g : A -> bool) l :
  (forall x, f x = g x) -> forallb f l = forallb g l.
Proof.
  intros H. induction l as [|x r IH]; [reflexivity|].
  cbn [forallb]. rewrite H, IH. reflexivity.
Qed.

(** A regular expression that starts with [^] is only matched from the
    start of the string. *)
Lemma test_anchored p s :
  RegExp.test (RegExp.Then RegExp.Start p) s
  = RegExp.accept p 0 s (fun _ _ => true).
Proof.
  unfold RegExp.test. cbn [seq existsb skipn].
  cbn [RegExp.accept Nat.eqb andb].
  assert (E : forall n start,
            existsb (fun i => RegExp.accept (RegExp.Then RegExp.Start p) i
                                (skipn i s) (fun _ _ => true))
              (seq (S start) n) = false).
  { induction n as [|n IH]; intros start; [reflexivity|].
    cbn [seq existsb]. rewrite IH. reflexivity. }
  rewrite E. apply orb_false_r.
Qed.

Lemma accept_then p q i s k :
  RegExp.accept (RegExp.Then p q) i s k
  = RegExp.accept p i s (fun i' s' => RegExp.accept q i' s' k).
Proof. reflexivity. Qed.

Lemma accept_literal c i s k :
  RegExp.accept (RegExp.Literal c) i s k
  = match s with
    | d :: r => (d =? c) && k (S i) r
    | [] => false
    end.
Proof. reflexivity. Qed.

Lemma accept_finish i s k :
  RegExp.accept RegExp.Finish i s k
  = match s with [] => k i s | _ :: _ => false end.
Proof. reflexivity. Qed.

(** The parts of a string that [isValidEmail] takes. *)
Lemma email_parts email :
  isValidEmail email = true ->
  exists local domain label,
    email = local ++ 64 :: domain ++ 46 :: label
    /\ local <> [] /\ forallb local_character local = true
    /\ domain <> [] /\ forallb domain_character domain = true
    /\ (2 <= length label <= 4)%nat /\ forallb letter label = true.
Proof.
  unfold isValidEmail, emailRegex. cbv zeta. cbn [app].
  rewrite test_anchored, accept_then.
  intros H.
  apply (proj1 (accept_plus_class _ _ _ _)) in H.
  destruct H as (l & r1 & Hl & -> & Fl & H).
  rewrite accept_then, accept_literal in H.
  destruct r1 as [|c1 r2]; [discriminate H|].
  apply andb_true_iff in H. destruct H as [Hc1 H].
  apply N.eqb_eq in Hc1. subst c1.
  rewrite accept_then in H.
  apply (proj1 (accept_plus_class _ _ _ _)) in H.
  destruct H as (d & r3 & Hd & -> & Fd & H).
  rewrite accept_then, accept_literal in H.
  destruct r3 as [|c2 r4]; [discriminate H|].
  apply andb_true_iff in H. destruct H as [Hc2 H].
  apply N.eqb_eq in Hc2. subst c2.
  rewrite accept_then in H.
  apply (proj1 (accept_times_class _ _ _ _)) in H.
  destruct H as (t & r5 & -> & Ht & Ft & H).
  rewrite accept_finish in H.
  destruct r5 as [|c3 r6]; [|discriminate H].
  exists l, d, t. rewrite app_nil_r.
  rewrite (forallb_ext_eq _ _ l in_class_local) in Fl.
  rewrite (forallb_ext_eq _ _ d in_class_domain) in Fd.
  rewrite (forallb_ext_eq _ _ t in_class_letter) in Ft.
  repeat split; try assumption; lia.
Qed.

Lemma email_of_parts local domain label :
  local <> [] -> forallb local_character local = true ->
  domain <> [] -> forallb domain_character domain = true ->
  (2 <= length label <= 4)%nat -> forallb letter label = true ->
  isValidEmail (local ++ 64 :: domain ++ 46 :: label) = true.
Proof.
  intros Hl Fl Hd Fd Ht Ft.
  unfold isValidEmail, emailRegex. cbv zeta. cbn [app].
  rewrite test_anchored, accept_then.
  apply (proj2 (accept_plus_class _ _ _ _)).
  exists local, (64 :: domain ++ 46 :: label).
  rewrite (forallb_ext_eq _ _ local in_class_local).
  repeat split; try assumption.
  rewrite accept_then, accept_literal.
  rewrite N.eqb_refl. cbn [andb]. rewrite accept_then.
  apply (proj2 (accept_plus_class _ _ _ _)).
  exists domain, (46 :: label).
  rewrite (forallb_ext_eq _ _ domain in_class_domain).
  repeat split; try assumption.
  rewrite accept_then, accept_literal.
  rewrite N.eqb_refl. cbn [andb]. rewrite accept_then.
  apply (proj2 (accept_times_class _ _ _ _)).
  exists label, []. rewrite app_nil_r.
  rewrite (forallb_ext_eq _ _ label in_class_letter).
  repeat split; try assumption; lia.
Qed.

(** X13.  [isValidEmail] takes exactly the strings made of a local part,
    an [@], a domain, a full stop and a last label, where the local part
    is one or more letters, digits, [.], [_] and [-], the domain is one
    or more letters, digits, [.] and [-], and the last label is two to
    four letters; the letters are those of ASCII. *)
Theorem isValidEmail_iff email :
  isValidEmail email = true
  <-> exists local domain label,
        email = local ++ 64 :: domain ++ 46 :: label
        /\ local <> [] /\ forallb local_character local = true
        /\ domain <> [] /\ forallb domain_character domain = true
        /\ (2 <= length label <= 4)%nat /\ forallb letter label = true.
Proof.
  split.
  - apply email_parts.
  - intros (l & d & t & -> & Hl & Fl & Hd & Fd & Ht & Ft).
    apply email_of_parts; assumption.
Qed.

Lemma local_not_at c : local_character c = true -> c <> 64.
Proof.
  intros H ->. discriminate H.
Qed.

Lemma domain_is_local c : domain_character c = true -> local_character c = true.
Proof.
  unfold domain_character, local_character. intros H.
  apply orb_true_iff in H. destruct H as [H|H];
    [apply orb_true_iff in H; destruct H as [H|H]|].
  - rewrite H. reflexivity.
  - rewrite H, !orb_true_r. reflexivity.
  - rewrite H, !orb_true_r. reflexivity.
Qed.

Lemma letter_is_domain c : letter c = true -> domain_character c = true.
Proof. unfold domain_character. intros ->. reflexivity. Qed.

Lemma letter_not_stop c : letter c = true -> c <> 46.
Proof. intros H ->. discriminate H. Qed.

Lemma count_none (f : N -> bool) x l :
  forallb f l = true -> f x = false -> count_occ N.eq_dec l x = 0%nat.
Proof.
  intros H Hx. induction l as [|c r IH]; [reflexivity|].
  cbn [forallb] in H. apply andb_true_iff in H. destruct H as [Hc H].
  cbn [count_occ]. destruct (N.eq_dec c x) as [->|_]; [congruence|auto].
Qed.

Lemma last_piece (x : N) a : forall a' b b',
  ~ In x b -> ~ In x b' -> a ++ x :: b = a' ++ x :: b' -> b = b'.
Proof.
  induction a as [|y a IH]; intros [|z a'] b b' Hb Hb' E; cbn [app] in E.
  - congruence.
  - injection E as <- ->. exfalso. apply Hb, in_or_app. right. left.
    reflexivity.
  - injection E as -> <-. exfalso. apply Hb', in_or_app. right. left.
    reflexivity.
  - injection E as _ E. eapply IH; eassumption.
Qed.

(** X14.  What [isValidEmail] never takes: an address has exactly one
    [@] and at least six characters, and all of them are letters and
    digits of ASCII, [.], [_], [-] or the [@], so that there is no space
    and no [+] in it; and the text after its last full stop is two to
    four letters. *)
Theorem isValidEmail_necessary email :
  isValidEmail email = true ->
  count_occ N.eq_dec email 64 = 1%nat
  /\ forallb (fun c => local_character c || (c =? 64)) email = true
  /\ (6 <= length email)%nat
  /\ forall s t,
       email = s ++ 46 :: t -> ~ In 46 t ->
       (2 <= length t <= 4)%nat /\ forallb letter t = true.
Proof.
  intros H. apply email_parts in H.
  destruct H as (l & d & t & -> & Hl & Fl & Hd & Fd & Ht & Ft).
  assert (Fd' : forallb local_character d = true).
  { apply forallb_forall. intros c Hc. apply domain_is_local.
    eapply forallb_forall in Fd; eassumption. }
  assert (Ft' : forallb local_character t = true).
  { apply forallb_forall. intros c Hc. apply domain_is_local, letter_is_domain.
    eapply forallb_forall in Ft; eassumption. }
  split; [|split; [|split]].
  - rewrite count_occ_app. cbn [count_occ].
    destruct (N.eq_dec 64 64) as [_|N]; [|congruence].
    rewrite count_occ_app. cbn [count_occ].
    destruct (N.eq_dec 46 64) as [N|_]; [discriminate N|].
    rewrite (count_none local_character 64 l Fl eq_refl).
    rewrite (count_none local_character 64 d Fd' eq_refl).
    rewrite (count_none local_character 64 t Ft' eq_refl).
    reflexivity.
  - assert (W : forall m, forallb local_character m = true ->
                forallb (fun c => local_character c || (c =? 64)) m = true).
    { intros m Hm. apply forallb_forall. intros c Hc.
      eapply forallb_forall in Hm; [|exact Hc]. rewrite Hm. reflexivity. }
    rewrite forallb_app. cbn [forallb]. rewrite forallb_app. cbn [forallb].
    rewrite !W by assumption. reflexivity.
  - rewrite length_app. cbn [length]. rewrite length_app. cbn [length].
    destruct l; [contradiction|]. destruct d; [contradiction|].
    cbn [length]. lia.
  - intros s t' E Ht'.
    assert (T : t = t').
    { rewrite app_comm_cons, app_assoc in E.
      eapply last_piece; [| |exact E]; [|exact Ht'].
      intros I. eapply forallb_forall in Ft; [|exact I]. discriminate Ft. }
    subst t'. split; assumption.
Qed.

(** The address of the documentation. *)
Lemma isValidEmail_necessary_witness :
  isValidEmail (str "johndoe@provider.com") = true
  /\ count_occ N.eq_dec (str "johndoe@provider.com") 64 = 1%nat.
Proof.
  split; [reflexivity|].
  exact (proj1 (isValidEmail_necessary (str "johndoe@provider.com") eq_refl)).
Defined.

(** ** A user who is created, and the view of that user *)

Lemma not_a_string_false v :
  not_a_string v = false -> exists s, v = Some (JStr s).
Proof.
  destruct v as [[| | | |s| |]|]; try discriminate. eauto.
Qed.

(** X15.  When [isValidUserFormat] takes an object, its five fields are
    strings and its [email] is one that [isValidEmail] takes; the user
    constructed from it has the [id] both as [_id] and as [userId]; and
    the view of that user gives back the five fields as they were. *)
Theorem valid_user_view obj :
  isValidUserFormat obj = true ->
  exists id username firstname lastname email,
    member obj (str "id") = Some (JStr id)
    /\ member obj (str "username") = Some (JStr username)
    /\ member obj (str "firstname") = Some (JStr firstname)
    /\ member obj (str "lastname") = Some (JStr lastname)
    /\ member obj (str "email") = Some (JStr email)
    /\ isValidEmail email = true
    /\ User._id (User.new obj) = Some (JStr id)
    /\ User.userId (User.new obj) = Some (JStr id)
    /\ createFilteredUserView (User.new obj)
       = {| FilteredUserView.id := Some (JStr id);
            FilteredUserView.username := Some (JStr username);
            FilteredUserView.firstname := Some (JStr firstname);
            FilteredUserView.lastname := Some (JStr lastname);
            FilteredUserView.email := Some (JStr email) |}.
Proof.
  unfold isValidUserFormat. intros H.
  destruct (not_a_string (member obj (str "id"))) eqn:H1;
    [discriminate H|].
  destruct (not_a_string (member obj (str "username"))) eqn:H2;
    [discriminate H|].
  destruct (not_a_string (member obj (str "firstname"))) eqn:H3;
    [discriminate H|].
  destruct (not_a_string (member obj (str "lastname"))) eqn:H4;
    [discriminate H|].
  cbn [orb] in H.
  apply not_a_string_false in H1, H2, H3, H4.
  destruct H1 as (id & H1). destruct H2 as (username & H2).
  destruct H3 as (firstname & H3). destruct H4 as (lastname & H4).
  destruct (member obj (str "email")) as [[| | | |email| |]|] eqn:H5;
    try discriminate H.
  destruct (isValidEmail email) eqn:H6; [|discriminate H].
  exists id, username, firstname, lastname, email.
  unfold createFilteredUserView, User.new. cbn [User._id User.userId
    User.username User.firstName User.lastName User.email].
  rewrite H1, H2, H3, H4, H5. repeat split; try reflexivity. exact H6.
Qed.

(** The user of the documentation. *)
Lemma valid_user_view_witness :
  let obj := [(str "id", JStr (str "provider00001"));
              (str "username", JStr (str "johndoe"));
              (str "firstname", JStr (str "john"));
              (str "lastname", JStr (str "doe"));
              (str "email", JStr (str "johndoe@provider.com"))] in
  isValidUserFormat obj = true
  /\ FilteredUserView.id (createFilteredUserView (User.new obj))
     = Some (JStr (str "provider00001")).
Proof.
  cbv zeta. split; [reflexivity|].
  destruct (valid_user_view
              [(str "id", JStr (str "provider00001"));
               (str "username", JStr (str "johndoe"));
               (str "firstname", JStr (str "john"));
               (str "lastname", JStr (str "doe"));
               (str "email", JStr (str "johndoe@provider.com"))] eq_refl)
    as (id & username & firstname & lastname & email
        & H1 & _ & _ & _ & _ & _ & _ & _ & V).
  rewrite V. cbn [FilteredUserView.id]. rewrite <- H1. reflexivity.
Defined.


(** ** A key of the wrong length *)

Lemma encode_throws_without_key P body w :
  length (encryption_key P) <> 32%nat ->
  exists e, fst (encode P body w) = Thrown e.
Proof.
  intros Hk. run.
  destruct (JSON.serialize body) as [text|]; cbv beta iota;
    [|eexists; reflexivity].
  destruct (latin1 text); cbv beta iota; [|eexists; reflexivity].
  rewrite random_bytes_length. cbn [Nat.eqb negb]. cbv beta iota.
  unfold encryption_key in Hk. apply Nat.eqb_neq in Hk. rewrite Hk.
  cbn [negb]. cbv beta iota. eexists. reflexivity.
Qed.

Lemma decrypt_throws_without_key P t c w :
  length (encryption_key P) <> 32%nat ->
  exists e, fst (decode_decrypt P t c w) = Thrown e.
Proof.
  intros Hk. unfold encryption_key in Hk. apply Nat.eqb_neq in Hk.
  unfold decode_decrypt, bind.
  destruct (Buffer_from P t base64 w) as [[a|e] w1];
    [|eexists; reflexivity].
  destruct (Buffer_from P c hex w1) as [[b|e] w2]; [|eexists; reflexivity].
  run. destruct (negb (length b =? 16)%nat); cbv beta iota;
    [eexists; reflexivity|].
  rewrite Hk. cbn [negb]. cbv beta iota. eexists. reflexivity.
Qed.

(** X16.  The encryption key is measured in the octets of its UTF-8
    form.  When these are not 32, [encode] answers no request: it throws
    for every payload, and nothing catches; and [decode] never answers
    with a payload nor with Unauthorized: every request is answered
    MissingParams or InvalidParams. *)
Theorem key_of_wrong_length P :
  length (Utf8.encode (SECRET_ENCRYPTION_KEY P)) <> 32%nat ->
  (forall body w, exists e, fst (encode P body w) = Thrown e)
  /\ (forall body w,
        fst (decode P body w) = Returned (bad_request "MissingParams")
        \/ fst (decode P body w) = Returned (bad_request "InvalidParams")).
Proof.
  intros Hk. split.
  - intros body w. apply encode_throws_without_key. exact Hk.
  - intros body w.
    destruct (truthy (member body (str "token"))) eqn:Ht;
      [destruct (truthy (member body (str "context"))) eqn:Hc|].
    + right. rewrite decode_result by assumption.
      destruct (decrypt_throws_without_key P (member body (str "token"))
                  (member body (str "context")) w Hk) as (e & ->).
      reflexivity.
    + left. rewrite decode_missing by auto. reflexivity.
    + left. rewrite decode_missing by auto. reflexivity.
Qed.

Lemma key_of_wrong_length_witness :
  length (SECRET_ENCRYPTION_KEY misconfigured) = 32%nat
  /\ length (Utf8.encode (SECRET_ENCRYPTION_KEY misconfigured)) = 33%nat
  /\ fst (encode misconfigured a_one (fresh zeros))
     = Thrown ERR_CRYPTO_INVALID_KEYLEN
  /\ (fst (decode misconfigured
             (request (JStr (str "S8fVeBbW1ewkuieXh9ngxwoGOPAW2jod9mDyTzyhV0/44x79zmzN7iYG6m+GpdMILOEZz0kIujtamuvo7G+U7A=="))
                (JStr (str "7f9359175a3c0f0a4280b07e634761f8")))
             (fresh zeros))
       = Returned (bad_request "MissingParams")
       \/ fst (decode misconfigured
                 (request (JStr (str "S8fVeBbW1ewkuieXh9ngxwoGOPAW2jod9mDyTzyhV0/44x79zmzN7iYG6m+GpdMILOEZz0kIujtamuvo7G+U7A=="))
                    (JStr (str "7f9359175a3c0f0a4280b07e634761f8")))
                 (fresh zeros))
          = Returned (bad_request "InvalidParams")).
Proof.
  split; [reflexivity|]. split; [reflexivity|]. split; [reflexivity|].
  apply (key_of_wrong_length misconfigured). discriminate.
Defined.


(** ** Who creates which user *)

Lemma valid_user_id obj :
  isValidUserFormat obj = true ->
  exists id, member obj (str "id") = Some (JStr id).
Proof.
  unfold isValidUserFormat. intros H.
  destruct (not_a_string (member obj (str "id"))) eqn:H1;
    [discriminate H|].
  apply not_a_string_false. exact H1.
Qed.

Section UserCreation.

Variable JwtPayload : Type.
Variable id : JwtPayload -> jsstring.
Variable hasStaffPerms : JwtPayload -> bool.
Variable coerced_equal : jsstring -> jsvalue -> bool.
Variable hasElevatedPerms : JwtPayload -> bool.
Variable create : User.User -> option jsvalue.
Variable generateJwtToken : JwtPayload -> jsstring -> option jsstring.
Variable getJwtPayloadFromDB : jsstring -> option JwtPayload.
Variables SUCCESS FORBIDDEN BAD_REQUEST CREATED INTERNAL_ERROR : N.

(** X17.  [POST /user/] sends one answer to every request, and hands a
    user to [UserModel.create] only when [isValidUserFormat] took the
    body; that user is the one constructed from the body; and when the
    caller has no staff permissions, the [userId] of that user is the
    [id] of the caller's own JWT payload, as a string: nobody without
    staff permissions creates the record of somebody else, whatever [==]
    makes of an [id] that is not a string. *)
Theorem post_creates_own_user payload userData :
  let run :=
    UserRouter.post JwtPayload id hasStaffPerms coerced_equal create
      FORBIDDEN BAD_REQUEST CREATED INTERNAL_ERROR payload userData in
  length (UserRouter.answers run) = 1%nat
  /\ forall user,
       In (UserRouter.UserModel_create user) run ->
       user = User.new userData
       /\ isValidUserFormat userData = true
       /\ (hasStaffPerms payload = false ->
           User.userId user = Some (JStr (id payload))).
Proof.
  cbv zeta. unfold UserRouter.post.
  destruct (negb (hasStaffPerms payload)
            && UserRouter.differs coerced_equal (id payload)
                 (member userData (str "id"))) eqn:G.
  - split; [reflexivity|]. intros user [H|[]]. discriminate H.
  - destruct (isValidUserFormat userData) eqn:V; cbn [negb].
    + assert (own : hasStaffPerms payload = false ->
                User.userId (User.new userData)
                = Some (JStr (id payload))).
      { intros S. rewrite S in G. cbn [negb andb] in G.
        destruct (valid_user_id userData V) as (i & E).
        unfold User.new. cbn [User.userId]. rewrite E in *.
        cbn [UserRouter.differs] in G.
        apply negb_false_iff, jsstring_eqb_eq in G. congruence. }
      destruct (create (User.new userData)) as [createdUser|];
        (split; [reflexivity|]); intros user H;
        cbn [In] in H;
        repeat (destruct H as [H|H]; try discriminate H; try contradiction);
        injection H as <-; auto.
    + split; [reflexivity|]. intros user [H|[]]. discriminate H.
Qed.

(** X18.  [GET /user/qr/:USERID] answers a caller who asks for their
    own code with the code, at [SUCCESS], and then throws: the branch
    that answers does not return, and the last line of the handler sends
    ["Forbidden"] on a response that has been sent, outside any [try].
    To every other request the handler sends one answer, and nothing is
    thrown out of it. *)
Theorem own_qr_code_then_throws payload targetUser :
  targetUser <> [] ->
  let run :=
    UserRouter.get_qr_USERID JwtPayload id hasElevatedPerms generateJwtToken
      getJwtPayloadFromDB SUCCESS FORBIDDEN BAD_REQUEST payload
      (Some targetUser) in
  (id payload <> targetUser ->
   length (UserRouter.answers run) = 1%nat /\ ~ In UserRouter.throws run)
  /\ (id payload = targetUser ->
      forall token,
        generateJwtToken payload (str "20s") = Some token ->
        run = [UserRouter.res_send SUCCESS (UserRouter.qr_code targetUser token);
               UserRouter.throws]).
Proof.
  intros Hn. cbv zeta. unfold UserRouter.get_qr_USERID.
  destruct targetUser as [|c r]; [contradiction|]. split.
  - intros H. apply jsstring_eqb_neq in H. rewrite H.
    assert (no : forall s : UserRouter.step,
              s <> UserRouter.throws -> ~ In UserRouter.throws [s])
      by (intros s Hs [E|[]]; congruence).
    assert (no2 : forall s : UserRouter.step,
              s <> UserRouter.throws ->
              ~ In UserRouter.throws [UserRouter.console_error; s])
      by (intros s Hs [E|[E|[]]]; congruence).
    destruct (hasElevatedPerms payload);
      [|split; [reflexivity|apply no; discriminate]].
    destruct (getJwtPayloadFromDB (c :: r)) as [newPayload|];
      [|split; [reflexivity|apply no2; discriminate]].
    destruct (generateJwtToken newPayload (str "20s"));
      (split; [reflexivity|]); [apply no|apply no2]; discriminate.
  - intros H token T. rewrite H, jsstring_eqb_refl, <- H, T. reflexivity.
Qed.

End UserCreation.

(** A caller who is their own payload, and a token that is the
    payload. *)
Lemma own_qr_code_then_throws_witness :
  UserRouter.get_qr_USERID jsstring (fun p => p) (fun _ => false)
    (fun p _ => Some p) (fun _ => None) 200 403 400
    (str "provider000001") (Some (str "provider000001"))
  = [UserRouter.res_send 200
       (UserRouter.qr_code (str "provider000001") (str "provider000001"));
     UserRouter.throws].
Proof.
  exact (proj2 (own_qr_code_then_throws jsstring (fun p => p)
                  (fun _ => false) (fun p _ => Some p) (fun _ => None)
                  200 403 400 (str "provider000001") (str "provider000001")
                  ltac:(discriminate))
           eq_refl (str "provider000001") eq_refl).
Defined.
